(** * DevLog: a shallow embedding of the blog client (script.js)

    The client is a single JavaScript file: a retry/backoff wrapper around
    remote calls ([ErrorHandler]), cookie-backed like flags
    ([CookieManager], [PostManager.likePost]), a debounced draft auto-save
    ([PerformanceUtils], [App.setupAutoSave]) and the rendering of posts
    ([UIManager]).  Asynchronous code is embedded by explicit state
    passing over a [World] record; the backend, the timers and the random
    source are explicit oracles, and the backoff delays are computed in
    double precision as the program computes them. *)

From Stdlib Require Import ZArith NArith QArith Qround Lia List Bool Ascii String.
From Stdlib Require Import DecimalString DecimalN DecimalPos Sorted.
From stdpp Require Import base gmap strings.
Import ListNotations.

Local Open Scope Z_scope.

#[local] Arguments String.append !s1 s2 : simpl nomatch.

(** ** The JavaScript string primitives the program calls

    Strings are byte strings (the UTF-8 encoding of the JavaScript
    string); the case table covers the ASCII range. *)

Module JS.

Definition is_upper (c : ascii) : bool :=
  let n := nat_of_ascii c in (65 <=? n)%nat && (n <=? 90)%nat.

Definition lower_char (c : ascii) : ascii :=
  if is_upper c then ascii_of_nat (nat_of_ascii c + 32) else c.

(** [String.prototype.toLowerCase] *)
Fixpoint toLowerCase (s : string) : string :=
  match s with
  | EmptyString => EmptyString
  | String c s' => String (lower_char c) (toLowerCase s')
  end.

(** [String.prototype.startsWith] *)
Definition startsWith (s p : string) : bool := String.prefix p s.

(** [String.prototype.includes] *)
Fixpoint includes (s sub : string) : bool :=
  match s with
  | EmptyString => String.prefix sub EmptyString
  | String _ s' => String.prefix sub s || includes s' sub
  end.

(** White space and line terminators of the ASCII range:
    TAB, LF, VT, FF, CR and SPACE. *)
Definition is_space (c : ascii) : bool :=
  let n := nat_of_ascii c in
  ((9 <=? n)%nat && (n <=? 13)%nat) || (n =? 32)%nat.

(** The white space and line terminators beyond the ASCII range, in
    their UTF-8 encodings: U+00A0 takes two bytes; U+1680, U+2000 to
    U+200A, U+2028, U+2029, U+202F, U+205F, U+3000 and U+FEFF take
    three. *)
Definition is_space2 (a b : ascii) : bool :=
  (nat_of_ascii a =? 194)%nat && (nat_of_ascii b =? 160)%nat.

Definition is_space3 (a b c : ascii) : bool :=
  let x := nat_of_ascii a in
  let y := nat_of_ascii b in
  let z := nat_of_ascii c in
  ((x =? 225)%nat && (y =? 154)%nat && (z =? 128)%nat)
  || ((x =? 226)%nat && (y =? 128)%nat
      && (((128 <=? z)%nat && (z <=? 138)%nat)
          || (z =? 168)%nat || (z =? 169)%nat || (z =? 175)%nat))
  || ((x =? 226)%nat && (y =? 129)%nat && (z =? 159)%nat)
  || ((x =? 227)%nat && (y =? 128)%nat && (z =? 128)%nat)
  || ((x =? 239)%nat && (y =? 187)%nat && (z =? 191)%nat).

(** [String.prototype.trimStart]: the white space the string starts
    with is dropped, one code point after the other. *)
Fixpoint trimStart (s : string) : string :=
  match s with
  | EmptyString => EmptyString
  | String a s1 =>
      if is_space a then trimStart s1
      else
        match s1 with
        | String b s2 =>
            if is_space2 a b then trimStart s2
            else
              match s2 with
              | String c s3 => if is_space3 a b c then trimStart s3 else s
              | EmptyString => s
              end
        | EmptyString => s
        end
  end.

(** [String.prototype.trimEnd]: the string is cut where nothing but
    white space follows. *)
Fixpoint trimEnd (s : string) : string :=
  match s with
  | EmptyString => EmptyString
  | String c s' =>
      match trimStart s with
      | EmptyString => EmptyString
      | _ => String c (trimEnd s')
      end
  end.

(** [String.prototype.trim] *)
Definition trim (s : string) : string := trimEnd (trimStart s).

(** Truthiness of a string value: the empty string is falsy. *)
Definition truthy (s : string) : bool :=
  match s with EmptyString => false | _ => true end.

(** Truthiness of a possibly [undefined] string. *)
Definition truthy_opt (v : option string) : bool :=
  match v with Some s => truthy s | None => false end.

(** [String.prototype.split] with a separator of at least one
    character: the string is scanned from the left, every occurrence of
    the separator closes the current piece, and [skip] counts the
    characters of a matched separator that are still to be dropped. *)
Fixpoint split_go (sep : string) (skip : nat) (cur s : string) : list string :=
  match s with
  | EmptyString => [cur]
  | String c s' =>
      match skip with
      | S k => split_go sep k cur s'
      | O =>
          if String.prefix sep s
          then cur :: split_go sep (String.length sep - 1) EmptyString s'
          else split_go sep O (cur +:+ String c EmptyString) s'
      end
  end.

Definition split (s sep : string) : list string := split_go sep O EmptyString s.

(** [Array.prototype.join] *)
Definition join (l : list string) (sep : string) : string := String.concat sep l.

(** Decimal rendering of a non-negative integer inside a template
    literal. *)
Definition show (n : N) : string := NilEmpty.string_of_uint (N.to_uint n).

(** Rendering of an integer inside a template literal. *)
Definition showZ (z : Z) : string :=
  if z <? 0 then "-" +:+ show (Z.to_N (- z)) else show (Z.to_N z).

(** The double quote and the line feed, which the templates of the
    program contain. *)
Definition dq : string := String (ascii_of_nat 34) EmptyString.
Definition nl : string := String (ascii_of_nat 10) EmptyString.

(** The text before the first occurrence of a character (all of the
    string when there is none) and the text after it. *)
Fixpoint before (c : ascii) (s : string) : string :=
  match s with
  | EmptyString => EmptyString
  | String x s' => if Ascii.eqb x c then EmptyString else String x (before c s')
  end.

Fixpoint after (c : ascii) (s : string) : option string :=
  match s with
  | EmptyString => None
  | String x s' => if Ascii.eqb x c then Some s' else after c s'
  end.

Definition hex_digit (n : nat) : ascii :=
  if (n <? 10)%nat then ascii_of_nat (48 + n) else ascii_of_nat (55 + n).

Definition unhex (c : ascii) : option nat :=
  let n := nat_of_ascii c in
  if (48 <=? n)%nat && (n <=? 57)%nat then Some (n - 48)%nat
  else if (65 <=? n)%nat && (n <=? 70)%nat then Some (n - 55)%nat
  else if (97 <=? n)%nat && (n <=? 102)%nat then Some (n - 87)%nat
  else None.

Definition is_alnum (c : ascii) : bool :=
  let n := nat_of_ascii c in
  ((48 <=? n)%nat && (n <=? 57)%nat)
  || ((65 <=? n)%nat && (n <=? 90)%nat)
  || ((97 <=? n)%nat && (n <=? 122)%nat).

(** The characters [encodeURIComponent] leaves alone:
    letters, digits and [- _ . ! ~ * ' ( )]. *)
Definition uri_unreserved (c : ascii) : bool :=
  is_alnum c
  || existsb (Nat.eqb (nat_of_ascii c)) [45; 95; 46; 33; 126; 42; 39; 40; 41]%nat.

(** [encodeURIComponent]: every other byte of the UTF-8 encoding
    becomes [%XX] with upper-case digits. *)
Fixpoint encodeURIComponent (s : string) : string :=
  match s with
  | EmptyString => EmptyString
  | String c s' =>
      if uri_unreserved c then String c (encodeURIComponent s')
      else
        let n := nat_of_ascii c in
        String "%" (String (hex_digit (n / 16)) (String (hex_digit (n mod 16))
          (encodeURIComponent s')))
  end.

(** [decodeURIComponent]; [None] is the [URIError] of a malformed
    escape. *)
Fixpoint decodeURIComponent (s : string) : option string :=
  match s with
  | EmptyString => Some EmptyString
  | String c s' =>
      if Ascii.eqb c "%" then
        match s' with
        | String h (String l s'') =>
            match unhex h, unhex l with
            | Some a, Some b =>
                option_map (String (ascii_of_nat (16 * a + b)))
                  (decodeURIComponent s'')
            | _, _ => None
            end
        | _ => None
        end
      else option_map (String c) (decodeURIComponent s')
  end.

(** A string occurs inside another one. *)
Definition Substring (sub s : string) : Prop :=
  exists pre post, s = pre +:+ sub +:+ post.

End JS.

(** ** Configuration *)

Module CONFIG.
Definition COOKIE_MAX_AGE : N := 31536000.
Definition DEBOUNCE_DELAY : N := 300.
Definition AUTO_SAVE_DELAY : N := 2000.
Definition MAX_RETRIES : Z := 3.
Definition RETRY_DELAY_BASE : Z := 1000.
Definition REQUEST_TIMEOUT : N := 10000.
End CONFIG.

(** ** Numbers

    The delays of the retry loop are products and sums of numbers that
    are not negative.  A finite one is a whole number of units of
    [2^-1074], the smallest positive double; an operation yields the
    double nearest to the exact result, the one with the even
    significand at a tie, and [Infinity] from [2^1024] on. *)

Module Double.

Inductive t : Type :=
| Finite (units : N)
| Infinity
| NaN.

(** The number one, and the first magnitude out of range. *)
Definition one : N := 2 ^ 1074.
Definition top : N := 2 ^ 2098.

(** [n / 2^p] rounded to the nearest integer, to the even one at a
    tie. *)
Definition rne (n p : N) : N :=
  match p with
  | 0%N => n
  | _ =>
      let q := (n / 2 ^ p)%N in
      let r := (n mod 2 ^ p)%N in
      let h := (2 ^ (p - 1))%N in
      if (r <? h)%N then q
      else if (h <? r)%N then (q + 1)%N
      else if N.even q then q else (q + 1)%N
  end.

(** The double nearest to [n / 2^s] units: the significand keeps 53
    bits, and nothing is finer than a unit. *)
Definition nearest (n s : N) : t :=
  let p := N.max s (N.log2 n - 52) in
  let r := (rne n p * 2 ^ (p - s))%N in
  if (top <=? r)%N then Infinity else Finite r.

(** An integer in units; it is a double when it has 53 significant
    bits at most. *)
Definition of_N (n : N) : t := Finite (n * one).

(** A double of the unit interval, given as the rational it is; what
    is finer than a unit is cut off. *)
Definition of_Q (q : Q) : t :=
  Finite (Z.to_N (Qfloor (q * inject_Z (Z.of_N one)))).

(** [a * b] *)
Definition mul (a b : t) : t :=
  match a, b with
  | Finite x, Finite y => nearest (x * y) 1074
  | Finite x, Infinity | Infinity, Finite x =>
      if (x =? 0)%N then NaN else Infinity
  | Infinity, Infinity => Infinity
  | NaN, _ | _, NaN => NaN
  end.

(** [a + b] *)
Definition add (a b : t) : t :=
  match a, b with
  | Finite x, Finite y => nearest (x + y) 0
  | Finite _, Infinity | Infinity, Finite _ | Infinity, Infinity => Infinity
  | NaN, _ | _, NaN => NaN
  end.

(** [Math.pow(2, e)] for an integer [e] *)
Definition pow2 (e : Z) : t :=
  if 1023 <? e then Infinity
  else if e <? -1074 then Finite 0
  else Finite (2 ^ Z.to_N (e + 1074)).

(** The order of the numbers. *)
Definition le (a b : t) : Prop :=
  match a, b with
  | Finite x, Finite y => (x <= y)%N
  | Finite _, Infinity | Infinity, Infinity => True
  | _, _ => False
  end.

(** A number of units that is a double. *)
Definition representable (a : N) : Prop :=
  (a mod 2 ^ (N.log2 a - 52) = 0)%N.

End Double.

(** ** Errors

    Error objects are duck-typed by the program: it reads [message] and
    [status] and nothing else that matters here.  Either field may be
    absent ([undefined]). *)

Record Error : Type := mkError {
  message : option string;
  status : option Z
}.

(** [new Error(msg)] *)
Definition new_Error (msg : string) : Error :=
  {| message := Some msg; status := None |}.

(** ** The world the client runs in *)

(** A row of the [posts] table as the backend returns it. *)
Record Row : Type := mkRow {
  post_id : N;
  post_title : string;
  post_content : string;
  post_likes : option Z;
  post_created_at : Z
}.

(** The [data] member of a backend reply: [null], one object (after
    [.single()]) or an array of rows. *)
Inductive Data : Type :=
| DNull
| DRow (r : Row)
| DRows (l : list Row).

(** The remote calls the client issues. *)
Inductive Request : Type :=
| SelectLikes (id : N)
| UpdateLikes (id : N) (newLikes : Z)
| InsertPost (title content : string) (likes : Z)
| SelectAllPosts.

(** What an awaited remote call yields: an [{data, error}] pair, or
    nothing at all for a call that does not come back. *)
Inductive Reply : Type :=
| Answer (error : option Error) (data : Data)
| NoAnswer.

(** A rendered post: the [div.log-entry] with the markup assigned to its
    [innerHTML] and the live state of its like control. *)
Record PostElement : Type := mkPostElement {
  dataset_postId : N;
  innerHTML : string;
  likeCountId : string;
  likeCountText : string;
  likeBtnDisabled : bool;
  likeBtnLiked : bool
}.

(** An entry written by [ErrorHandler.logError]. *)
Record ErrorLog : Type := mkErrorLog {
  log_type : string;
  log_operationName : string;
  log_message : option string;
  log_isOnline : bool
}.

(** A pending [setTimeout] of a debounced save: when it is due, the
    argument it was called with, and its place in the order in which
    the pending timers were set (timers that are due together run in
    that order). *)
Record Timer : Type := mkTimer {
  deadline : N;
  saved_arg : string;
  order : N
}.

Record World : Type := mkWorld {
  isOnline : bool;                        (* ErrorHandler.isOnline *)
  cookies : list (string * string);       (* the cookie store behind document.cookie *)
  localStorage : gmap string string;
  postTitle : option string;              (* value of #postTitle, if the element exists *)
  postContent : option string;            (* value of #postContent *)
  postModalHidden : bool;
  logContainer : option (list PostElement); (* children of .log-container *)
  alerts : list string;                   (* texts shown by alert(), oldest first *)
  console : list ErrorLog;                (* what logError wrote, oldest first *)
  notifications : list (string * string);
  backend : list Request -> Reply;        (* the reply to the newest request of a history *)
  requests : list Request;                (* remote calls issued so far, oldest first *)
  now : N;                                (* milliseconds on the clock *)
  contentTimer : option Timer;            (* timeoutId of the content auto-save *)
  titleTimer : option Timer;              (* timeoutId of the title auto-save *)
  setItems : list (string * string)       (* calls of localStorage.setItem, oldest first *)
}.

Definition set_isOnline (v : bool) (w : World) : World :=
  mkWorld v (cookies w) (localStorage w) (postTitle w) (postContent w)
    (postModalHidden w) (logContainer w) (alerts w) (console w) (notifications w)
    (backend w) (requests w) (now w) (contentTimer w) (titleTimer w) (setItems w).

Definition set_backend (v : list Request -> Reply) (w : World) : World :=
  mkWorld (isOnline w) (cookies w) (localStorage w) (postTitle w) (postContent w)
    (postModalHidden w) (logContainer w) (alerts w) (console w) (notifications w)
    v (requests w) (now w) (contentTimer w) (titleTimer w) (setItems w).

Definition set_cookies (v : list (string * string)) (w : World) : World :=
  mkWorld (isOnline w) v (localStorage w) (postTitle w) (postContent w)
    (postModalHidden w) (logContainer w) (alerts w) (console w) (notifications w)
    (backend w) (requests w) (now w) (contentTimer w) (titleTimer w) (setItems w).

Definition set_localStorage (v : gmap string string) (w : World) : World :=
  mkWorld (isOnline w) (cookies w) v (postTitle w) (postContent w)
    (postModalHidden w) (logContainer w) (alerts w) (console w) (notifications w)
    (backend w) (requests w) (now w) (contentTimer w) (titleTimer w) (setItems w).

Definition set_postTitle (v : option string) (w : World) : World :=
  mkWorld (isOnline w) (cookies w) (localStorage w) v (postContent w)
    (postModalHidden w) (logContainer w) (alerts w) (console w) (notifications w)
    (backend w) (requests w) (now w) (contentTimer w) (titleTimer w) (setItems w).

Definition set_postContent (v : option string) (w : World) : World :=
  mkWorld (isOnline w) (cookies w) (localStorage w) (postTitle w) v
    (postModalHidden w) (logContainer w) (alerts w) (console w) (notifications w)
    (backend w) (requests w) (now w) (contentTimer w) (titleTimer w) (setItems w).

Definition set_postModalHidden (v : bool) (w : World) : World :=
  mkWorld (isOnline w) (cookies w) (localStorage w) (postTitle w) (postContent w)
    v (logContainer w) (alerts w) (console w) (notifications w)
    (backend w) (requests w) (now w) (contentTimer w) (titleTimer w) (setItems w).

Definition set_logContainer (v : option (list PostElement)) (w : World) : World :=
  mkWorld (isOnline w) (cookies w) (localStorage w) (postTitle w) (postContent w)
    (postModalHidden w) v (alerts w) (console w) (notifications w)
    (backend w) (requests w) (now w) (contentTimer w) (titleTimer w) (setItems w).

Definition set_alerts (v : list string) (w : World) : World :=
  mkWorld (isOnline w) (cookies w) (localStorage w) (postTitle w) (postContent w)
    (postModalHidden w) (logContainer w) v (console w) (notifications w)
    (backend w) (requests w) (now w) (contentTimer w) (titleTimer w) (setItems w).

Definition set_console (v : list ErrorLog) (w : World) : World :=
  mkWorld (isOnline w) (cookies w) (localStorage w) (postTitle w) (postContent w)
    (postModalHidden w) (logContainer w) (alerts w) v (notifications w)
    (backend w) (requests w) (now w) (contentTimer w) (titleTimer w) (setItems w).

Definition set_notifications (v : list (string * string)) (w : World) : World :=
  mkWorld (isOnline w) (cookies w) (localStorage w) (postTitle w) (postContent w)
    (postModalHidden w) (logContainer w) (alerts w) (console w) v
    (backend w) (requests w) (now w) (contentTimer w) (titleTimer w) (setItems w).

Definition set_requests (v : list Request) (w : World) : World :=
  mkWorld (isOnline w) (cookies w) (localStorage w) (postTitle w) (postContent w)
    (postModalHidden w) (logContainer w) (alerts w) (console w) (notifications w)
    (backend w) v (now w) (contentTimer w) (titleTimer w) (setItems w).

Definition set_now (v : N) (w : World) : World :=
  mkWorld (isOnline w) (cookies w) (localStorage w) (postTitle w) (postContent w)
    (postModalHidden w) (logContainer w) (alerts w) (console w) (notifications w)
    (backend w) (requests w) v (contentTimer w) (titleTimer w) (setItems w).

Definition set_contentTimer (v : option Timer) (w : World) : World :=
  mkWorld (isOnline w) (cookies w) (localStorage w) (postTitle w) (postContent w)
    (postModalHidden w) (logContainer w) (alerts w) (console w) (notifications w)
    (backend w) (requests w) (now w) v (titleTimer w) (setItems w).

Definition set_titleTimer (v : option Timer) (w : World) : World :=
  mkWorld (isOnline w) (cookies w) (localStorage w) (postTitle w) (postContent w)
    (postModalHidden w) (logContainer w) (alerts w) (console w) (notifications w)
    (backend w) (requests w) (now w) (contentTimer w) v (setItems w).

Definition set_setItems (v : list (string * string)) (w : World) : World :=
  mkWorld (isOnline w) (cookies w) (localStorage w) (postTitle w) (postContent w)
    (postModalHidden w) (logContainer w) (alerts w) (console w) (notifications w)
    (backend w) (requests w) (now w) (contentTimer w) (titleTimer w) v.

(** [alert(text)] *)
Definition alert (text : string) (w : World) : World :=
  set_alerts (alerts w ++ [text]) w.

(** An awaited remote call: the request is recorded and the backend
    answers the history that now ends with it. *)
Definition remote (rq : Request) (w : World) : Reply * World :=
  let history := requests w ++ [rq] in
  (backend w history, set_requests history w).

(** ** Asynchronous results *)

(** How the promise of one invocation of an operation settles. *)
Inductive Settled (R : Type) : Type :=
| Resolved (r : R)
| Rejected (e : Error)
| Hung.
Arguments Resolved {R} r.
Arguments Rejected {R} e.
Arguments Hung {R}.

(** How an awaited [async] function of the program ends; the thrown
    value is [undefined] when nothing was ever caught. *)
Inductive Outcome (R : Type) : Type :=
| Returned (r : R)
| Thrown (e : option Error)
| NeverSettles.
Arguments Returned {R} r.
Arguments Thrown {R} e.
Arguments NeverSettles {R}.

Definition Operation (R : Type) : Type := World -> Settled R * World.

(** The observable course of one call of the retry wrapper: how it
    ended, the world it left, how often the operation was invoked, the
    errors caught in order and the delays slept in order. *)
Record Run (R : Type) : Type := mkRun {
  outcome : Outcome R;
  world : World;
  attempts : nat;
  failures : list Error;
  delays : list Double.t
}.
Arguments mkRun {R}.
Arguments outcome {R}.
Arguments world {R}.
Arguments attempts {R}.
Arguments failures {R}.
Arguments delays {R}.

(** ** ErrorHandler: retry with backoff, classification, safe wrapper *)

Module ErrorHandler.

Definition retryableStatusCodes : list Z := [408; 429; 500; 502; 503; 504].

Definition retryableMessages : list string :=
  ["network error"; "timeout"; "connection"; "rate limit"; "server error"].

(** [error.message || ''] *)
Definition message_or_empty (error : Error) : string :=
  match message error with
  | Some m => if JS.truthy m then m else EmptyString
  | None => EmptyString
  end.

(** [error.status && retryableStatusCodes.includes(error.status)] *)
Definition status_retryable (error : Error) : bool :=
  match status error with
  | Some s => negb (s =? 0) && existsb (Z.eqb s) retryableStatusCodes
  | None => false
  end.

Definition isRetryableError (w : World) (error : Error) : bool :=
  if negb (isOnline w) then true
  else if status_retryable error then true
  else
    let errorMessage := JS.toLowerCase (message_or_empty error) in
    existsb (fun msg => JS.includes errorMessage msg) retryableMessages.

(** [logError]: the entry carries the caller's fields and the
    connectivity flag read when it is written. *)
Definition logError (type operationName : string) (msg : option string)
    (w : World) : World :=
  set_console (console w ++ [mkErrorLog type operationName msg (isOnline w)]) w.

(** [withTimeout]: the promise is raced against a timer; an operation
    that has not settled when the timer fires is reported as a failure
    with a descriptive message. *)
Definition withTimeout {R} (promise : Settled R) (timeout : N)
    (operationName : string) : Settled R :=
  match promise with
  | Hung =>
      Rejected (new_Error
        (operationName +:+ " timed out after " +:+ JS.show timeout +:+ "ms"))
  | settled => settled
  end.

(** What reading [.includes] of an [undefined] message throws. *)
Definition TypeError_includes : Error :=
  new_Error "Cannot read properties of undefined (reading 'includes')".

(** What reading [.message] of an [undefined] error throws. *)
Definition TypeError_message : Error :=
  new_Error "Cannot read properties of undefined (reading 'message')".

Definition msg_offline : string :=
  "You appear to be offline. Please check your internet connection.".
Definition msg_timeout (operationName : string) : string :=
  operationName +:+ " is taking too long. Please try again.".
Definition msg_rate_limit : string :=
  "Too many requests. Please wait a moment and try again.".
Definition msg_server : string := "Server error. Please try again later.".
Definition msg_auth : string := "Authentication error. Please log in again.".
Definition msg_generic (operationName : string) : string :=
  operationName +:+ " failed. Please try again.".

(** [error.status >= 500]; an absent status compares false. *)
Definition status_ge_500 (error : Error) : bool :=
  match status error with Some s => 500 <=? s | None => false end.

(** [error.status === 401 || error.status === 403] *)
Definition status_auth (error : Error) : bool :=
  match status error with Some s => (s =? 401) || (s =? 403) | None => false end.

(** [getUserFriendlyErrorMessage]: the message for the user, or the
    [TypeError] raised by [error.message.includes] on an absent
    message. *)
Definition getUserFriendlyErrorMessage (w : World) (error : Error)
    (operationName : string) : Error + string :=
  if negb (isOnline w) then inr msg_offline
  else
    match message error with
    | None => inl TypeError_includes
    | Some m =>
        if JS.includes m "timeout" then inr (msg_timeout operationName)
        else if JS.includes m "rate limit" then inr msg_rate_limit
        else if status_ge_500 error then inr msg_server
        else if status_auth error then inr msg_auth
        else inr (msg_generic operationName)
    end.

(** The arrow function [safeOperation] hands to [retryWithBackoff]:
    [() => this.withTimeout(operation(), REQUEST_TIMEOUT, operationName)]. *)
Definition timed {R} (operation : Operation R) (operationName : string)
    : Operation R := fun w0 =>
  let '(promise, w1) := operation w0 in
  (withTimeout promise CONFIG.REQUEST_TIMEOUT operationName, w1).

Section WithRandom.

(** [random k] is the value [Math.random()] yields when it is called
    after the failure of attempt [k]: a double, given as the rational
    it is. *)
Variable random : Z -> Q.

(** The delay slept after the failure of attempt [attempt]:
    [RETRY_DELAY_BASE * Math.pow(2, attempt - 1) + Math.random() * 1000]. *)
Definition backoff_delay (attempt : Z) : Double.t :=
  Double.add
    (Double.mul (Double.of_N (Z.to_N CONFIG.RETRY_DELAY_BASE))
       (Double.pow2 (attempt - 1)))
    (Double.mul (Double.of_Q (random attempt)) (Double.of_N 1000)).

(** The [for] loop of [retryWithBackoff].  [remaining] is the number
    of values [attempt] still has to take, [maxRetries - attempt + 1]:
    it is [0] exactly when the loop condition [attempt <= maxRetries]
    fails. *)
Fixpoint retry_loop {R} (operation : Operation R) (maxRetries : Z)
    (remaining : nat) (attempt : Z) (lastError : option Error)
    (w : World) (n : nat) (errs : list Error) (ds : list Double.t) : Run R :=
  match remaining with
  | O => mkRun (Thrown lastError) w n errs ds
  | S remaining' =>
      match operation w with
      | (Resolved r, w') => mkRun (Returned r) w' (S n) errs ds
      | (Hung, w') => mkRun NeverSettles w' (S n) errs ds
      | (Rejected error, w') =>
          if (attempt =? maxRetries) || negb (isRetryableError w' error)
          then mkRun (Thrown (Some error)) w' (S n) (errs ++ [error]) ds
          else
            let delay := backoff_delay attempt in
            retry_loop operation maxRetries remaining' (attempt + 1)
              (Some error) w' (S n) (errs ++ [error]) (ds ++ [delay])
      end
  end.

Definition retryWithBackoff {R} (operation : Operation R) (maxRetries : Z)
    (operationName : string) (w : World) : Run R :=
  retry_loop operation maxRetries (Z.to_nat maxRetries) 1 None w O [] [].

(** [safeOperation]: the value [null] is [None]. *)
Definition safeOperation {R} (operation : Operation R)
    (operationName : string) (showUserError : bool) (w : World)
    : Run (option R) :=
  let run :=
    retryWithBackoff (timed operation operationName) CONFIG.MAX_RETRIES
      operationName w in
  let finish (o : Outcome (option R)) (w' : World) :=
    mkRun o w' (attempts run) (failures run) (delays run) in
  match outcome run with
  | Returned r => finish (Returned (Some r)) (world run)
  | NeverSettles => finish NeverSettles (world run)
  | Thrown None => finish (Thrown (Some TypeError_message)) (world run)
  | Thrown (Some error) =>
      let w1 :=
        logError "Safe Operation Error" operationName (message error)
          (world run) in
      if showUserError then
        match getUserFriendlyErrorMessage w1 error operationName with
        | inl typeError => finish (Thrown (Some typeError)) w1
        | inr userMessage =>
            finish (Returned None) (alert ("❌ " +:+ userMessage) w1)
        end
      else finish (Returned None) w1
  end.

(** [result !== null] for the value an awaited [safeOperation]
    yields; an exception of [safeOperation] passes through. *)
Definition not_null {R} (run : Run (option R)) : Outcome bool * World :=
  match outcome run with
  | Returned (Some _) => (Returned true, world run)
  | Returned None => (Returned false, world run)
  | Thrown e => (Thrown e, world run)
  | NeverSettles => (NeverSettles, world run)
  end.

End WithRandom.

End ErrorHandler.

(** ** Utils *)

Module Utils.

(** [!value || !value.trim()] *)
Definition is_empty_field (value : option string) : bool :=
  match value with
  | None => true
  | Some v => negb (JS.truthy v) || negb (JS.truthy (JS.trim v))
  end.

(** [validateFields]: the entries of the object in order; the first
    empty one is reported by an alert. *)
Fixpoint validateFields (fields : list (string * option string)) (w : World)
    : bool * World :=
  match fields with
  | [] => (true, w)
  | (fieldName, value) :: rest =>
      if is_empty_field value
      then (false, alert ("⚠️ " +:+ fieldName +:+ " cannot be empty!") w)
      else validateFields rest w
  end.

(** [clearInputs(postTitle, postContent)]: an element that exists
    gets the empty value. *)
Definition clearInputs_post (w : World) : World :=
  let clear (v : option string) := option_map (fun _ => EmptyString) v in
  set_postContent (clear (postContent w)) (set_postTitle (clear (postTitle w)) w).

(** [toggleElement(postModal, show)] *)
Definition toggleElement_postModal (show : bool) (w : World) : World :=
  set_postModalHidden (negb show) w.

End Utils.

(** ** The cookie store of the browser *)

Module Document.

Definition row (c : string * string) : string :=
  match fst c with
  | EmptyString => snd c
  | name => name +:+ "=" +:+ snd c
  end.

(** Reading [document.cookie]: the pairs joined by [; ]. *)
Definition cookie (w : World) : string := JS.join (map row (cookies w)) "; ".

(** A cookie replaces the one of the same name where it stands, or
    goes to the end of the store. *)
Fixpoint store (name value : string) (jar : list (string * string))
    : list (string * string) :=
  match jar with
  | [] => [(name, value)]
  | (n, v) :: jar' =>
      if String.eqb n name then (name, value) :: jar'
      else (n, v) :: store name value jar'
  end.

(** The store without the cookie of a name. *)
Definition remove (name : string) (jar : list (string * string))
    : list (string * string) :=
  List.filter (fun c => negb (String.eqb (fst c) name)) jar.

(** Space and TAB around the name and the value of an attribute do not
    count. *)
Definition is_wsp (c : ascii) : bool :=
  Ascii.eqb c " " || Ascii.eqb c (ascii_of_nat 9).

Fixpoint skip_wsp (s : string) : string :=
  match s with
  | EmptyString => EmptyString
  | String c s' => if is_wsp c then skip_wsp s' else s
  end.

Fixpoint cut_wsp (s : string) : string :=
  match s with
  | EmptyString => EmptyString
  | String c s' =>
      match skip_wsp s with
      | EmptyString => EmptyString
      | _ => String c (cut_wsp s')
      end
  end.

Definition strip_wsp (s : string) : string := cut_wsp (skip_wsp s).

(** The value of a [max-age] attribute counts when it is an optional
    [-] followed by digits and nothing else. *)
Definition delta_seconds (v : string) : option Z :=
  let '(negative, digits) :=
    match v with
    | String c r => if Ascii.eqb c "-" then (true, r) else (false, v)
    | EmptyString => (false, v)
    end in
  match digits with
  | EmptyString => None
  | _ =>
      match NilEmpty.uint_of_string digits with
      | Some u =>
          let n := Z.of_N (N.of_uint u) in
          Some (if negative then - n else n)
      | None => None
      end
  end.

(** The [max-age] a cookie string asks for: that of the last
    [max-age] attribute whose value counts. *)
Definition max_age (text : string) : option Z :=
  match JS.after ";" text with
  | None => None
  | Some attributes =>
      fold_left
        (fun found attribute =>
           if String.eqb
                (JS.toLowerCase (strip_wsp (JS.before "=" attribute)))
                "max-age"
           then
             match JS.after "=" attribute with
             | Some v =>
                 match delta_seconds (strip_wsp v) with
                 | Some d => Some d
                 | None => found
                 end
             | None => found
             end
           else found)
        (JS.split attributes ";") None
  end.

(** Assigning to [document.cookie]: the text up to the first [;] is
    the pair, split at its first [=]; a pair without [=] is a value
    with the empty name.  A [max-age] that is not positive removes the
    cookie of that name; otherwise the cookie is stored, and its
    expiry after a positive [max-age] is not followed, nor are the
    other attributes and what a browser refuses to store: control
    characters, and more than 4096 bytes. *)
Definition set_cookie (text : string) (w : World) : World :=
  let pair := JS.before ";" text in
  let '(name, value) :=
    match JS.after "=" pair with
    | Some value => (JS.before "=" pair, value)
    | None => (EmptyString, pair)
    end in
  match max_age text with
  | Some d =>
      if d <=? 0 then set_cookies (remove name (cookies w)) w
      else set_cookies (store name value (cookies w)) w
  | None => set_cookies (store name value (cookies w)) w
  end.

End Document.

(** ** CookieManager *)

Module CookieManager.

Definition set (name value : string) (maxAge : N) (w : World) : World :=
  Document.set_cookie
    (name +:+ "=" +:+ value +:+ "; max-age=" +:+ JS.show maxAge +:+ "; path=/") w.

(** [get]: [None] stands for [null] and for the [undefined] of a
    missing second piece. *)
Definition get (name : string) (w : World) : option string :=
  match
    List.find (fun row => JS.startsWith row (name +:+ "="))
      (JS.split (Document.cookie w) "; ")
  with
  | Some cookie =>
      if JS.truthy cookie then nth_error (JS.split cookie "=") 1 else None
  | None => None
  end.

(** [exists] *)
Definition exists_ (name : string) (w : World) : bool :=
  JS.includes (Document.cookie w) (name +:+ "=").

Definition hasLiked (postId : N) (w : World) : bool :=
  match get ("liked_" +:+ JS.show postId) w with
  | Some v => String.eqb v "true"
  | None => false
  end.

End CookieManager.

(** ** The markup side of the browser

    [escape] is the serialisation of a text node read back through
    [innerHTML]; [read_text] and [read_attr] are the tokenizer on
    character data and on a double-quoted attribute value, with the
    character references that serialisation produces. *)

Module HTML.

Definition nbsp : string :=
  String (ascii_of_nat 194) (String (ascii_of_nat 160) EmptyString).

(** Escaping of a text node: [&], [<], [>] and the no-break space. *)
Fixpoint escape (s : string) : string :=
  match s with
  | EmptyString => EmptyString
  | String c s' =>
      if Ascii.eqb c "&" then "&amp;" +:+ escape s'
      else if Ascii.eqb c "<" then "&lt;" +:+ escape s'
      else if Ascii.eqb c ">" then "&gt;" +:+ escape s'
      else if Ascii.eqb c (ascii_of_nat 194) then
        match s' with
        | String d s'' =>
            if Ascii.eqb d (ascii_of_nat 160) then "&nbsp;" +:+ escape s''
            else String c (escape s')
        | EmptyString => String c EmptyString
        end
      else String c (escape s')
  end.

(** The character reference that starts right after an ampersand:
    what it stands for and how many characters it takes. *)
Definition char_ref (s : string) : option (string * nat) :=
  if String.prefix "amp;" s then Some ("&", 4%nat)
  else if String.prefix "lt;" s then Some ("<", 3%nat)
  else if String.prefix "gt;" s then Some (">", 3%nat)
  else if String.prefix "nbsp;" s then Some (nbsp, 5%nat)
  else if String.prefix "quot;" s then Some (JS.dq, 5%nat)
  else None.

Definition is_alpha (c : ascii) : bool :=
  let n := nat_of_ascii c in
  ((65 <=? n)%nat && (n <=? 90)%nat) || ((97 <=? n)%nat && (n <=? 122)%nat).

(** After [<], a letter, [/], [!] or [?] opens markup. *)
Definition opens_markup (s : string) : bool :=
  match s with
  | EmptyString => false
  | String c _ =>
      is_alpha c || Ascii.eqb c "/" || Ascii.eqb c "!" || Ascii.eqb c "?"
  end.

(** Character data up to the next markup, and what is left. *)
Fixpoint read_text_go (skip : nat) (s : string) : string * string :=
  match s with
  | EmptyString => (EmptyString, EmptyString)
  | String c s' =>
      match skip with
      | S k => read_text_go k s'
      | O =>
          if Ascii.eqb c "<" && opens_markup s' then (EmptyString, s)
          else if Ascii.eqb c "&" then
            match char_ref s' with
            | Some (text, n) =>
                let '(t, rest) := read_text_go n s' in (text +:+ t, rest)
            | None =>
                let '(t, rest) := read_text_go O s' in (String c t, rest)
            end
          else let '(t, rest) := read_text_go O s' in (String c t, rest)
      end
  end.

Definition read_text (s : string) : string * string := read_text_go O s.

(** A double-quoted attribute value up to the closing quote, and
    what is left after the quote. *)
Fixpoint read_attr_go (skip : nat) (s : string) : string * string :=
  match s with
  | EmptyString => (EmptyString, EmptyString)
  | String c s' =>
      match skip with
      | S k => read_attr_go k s'
      | O =>
          if Ascii.eqb c (ascii_of_nat 34) then (EmptyString, s')
          else if Ascii.eqb c "&" then
            match char_ref s' with
            | Some (text, n) =>
                let '(t, rest) := read_attr_go n s' in (text +:+ t, rest)
            | None =>
                let '(t, rest) := read_attr_go O s' in (String c t, rest)
            end
          else let '(t, rest) := read_attr_go O s' in (String c t, rest)
      end
  end.

Definition read_attr (s : string) : string * string := read_attr_go O s.

Fixpoint drop (n : nat) (s : string) : string :=
  match n, s with
  | S k, String _ s' => drop k s'
  | _, _ => s
  end.

(** The markup has to continue with [lit]. *)
Definition expect (lit s : string) : option string :=
  if String.prefix lit s then Some (drop (String.length lit) s) else None.

(** The white space between two tags is skipped. *)
Fixpoint skip_space (s : string) : string :=
  match s with
  | EmptyString => EmptyString
  | String c s' => if JS.is_space c then skip_space s' else s
  end.

(** The head of the markup of a post entry as the parser sees it: the
    text of the [h2] element, which must hold character data only, and
    the [data-md] attribute of the paragraph that follows it. *)
Definition parse_entry (html : string) : option (string * string) :=
  match expect "<h2>" (skip_space html) with
  | None => None
  | Some r1 =>
      let '(title, r2) := read_text r1 in
      match expect "</h2>" r2 with
      | None => None
      | Some r3 =>
          match expect ("<p data-md=" +:+ JS.dq) (skip_space r3) with
          | None => None
          | Some r4 =>
              let '(md, r5) := read_attr r4 in
              match expect ">" r5 with
              | None => None
              | Some _ => Some (title, md)
              end
          end
      end
  end.

End HTML.

(** ** UIManager *)

Module UIManager.

Definition escapeHtml (text : string) : string := HTML.escape text.

Definition nl_indent (n : nat) : string :=
  JS.nl +:+ string_of_list_ascii (repeat " "%char n).

Definition createLikeButton (id : N) (liked : bool) (likeCount : Z) : string :=
  nl_indent 6
  +:+ "<button class=" +:+ JS.dq +:+ "likeBtn "
  +:+ (if liked then "liked" else "") +:+ JS.dq
  +:+ " onclick=" +:+ JS.dq +:+ "PostManager.likePost('" +:+ JS.show id +:+ "')"
  +:+ JS.dq +:+ " " +:+ (if liked then "disabled" else "") +:+ ">"
  +:+ nl_indent 8
  +:+ "<svg class=" +:+ JS.dq +:+ "heart-icon" +:+ JS.dq
  +:+ " viewBox=" +:+ JS.dq +:+ "0 0 24 24" +:+ JS.dq +:+ ">"
  +:+ nl_indent 10
  +:+ "<path d=" +:+ JS.dq +:+ "M12 21.35l-1.45-1.32C5.4 15.36 2 12.28 2 8.5"
  +:+ nl_indent 19 +:+ "2 5.42 4.42 3 7.5 3c1.74 0 3.41 0.81 4.5 2.09"
  +:+ nl_indent 19 +:+ "C13.09 3.81 14.76 3 16.5 3"
  +:+ nl_indent 19 +:+ "19.58 3 22 5.42 22 8.5"
  +:+ nl_indent 19 +:+ "c0 3.78-3.4 6.86-8.55 11.54L12 21.35z" +:+ JS.dq
  +:+ nl_indent 18 +:+ "/>"
  +:+ nl_indent 8 +:+ "</svg>"
  +:+ nl_indent 8
  +:+ "<span class=" +:+ JS.dq +:+ "likecounter "
  +:+ (if liked then "liked" else "") +:+ JS.dq
  +:+ " id=" +:+ JS.dq +:+ "like-count-" +:+ JS.show id +:+ JS.dq +:+ ">"
  +:+ JS.showZ likeCount +:+ "</span>"
  +:+ nl_indent 6 +:+ "</button>"
  +:+ nl_indent 4.

Definition editButton_html : string :=
  "<button class=" +:+ JS.dq +:+ "editBtn" +:+ JS.dq
  +:+ " onclick=" +:+ JS.dq +:+ "PostManager.editPost(this)" +:+ JS.dq
  +:+ "><i class=" +:+ JS.dq +:+ "bi bi-pencil-fill" +:+ JS.dq
  +:+ "></i> Edit</button>".

Definition deleteButton_html : string :=
  "<button class=" +:+ JS.dq +:+ "deleteBtn" +:+ JS.dq
  +:+ " onclick=" +:+ JS.dq +:+ "PostManager.deletePost(this)" +:+ JS.dq
  +:+ "><i class=" +:+ JS.dq +:+ "bi bi-trash-fill" +:+ JS.dq
  +:+ "></i> Delete</button>".

Section WithMarked.

(** [marked.parse(content, { breaks })], the Markdown renderer the
    page loads. *)
Variable marked_parse : string -> bool -> string.

(** The template literal assigned to [postElement.innerHTML]. *)
Definition entry_html (title content date : string) (showDeleteBtn : bool)
    (id : N) (liked : bool) (likeCount : Z) : string :=
  let likeButton := createLikeButton id liked likeCount in
  let editButton := if showDeleteBtn then editButton_html else EmptyString in
  let deleteButton := if showDeleteBtn then deleteButton_html else EmptyString in
  let renderedContent := marked_parse content true in
  nl_indent 6 +:+ "<h2>" +:+ escapeHtml title +:+ "</h2>"
  +:+ nl_indent 6 +:+ "<p data-md=" +:+ JS.dq +:+ JS.encodeURIComponent content
  +:+ JS.dq +:+ ">" +:+ renderedContent +:+ "</p>"
  +:+ nl_indent 6 +:+ "<span class=" +:+ JS.dq +:+ "date" +:+ JS.dq +:+ ">"
  +:+ escapeHtml date +:+ "</span>"
  +:+ nl_indent 6 +:+ likeButton
  +:+ nl_indent 6 +:+ editButton +:+ " " +:+ deleteButton
  +:+ nl_indent 4.

(** [addPostToUI(title, content, date, showDeleteBtn, id, likes)];
    [likes || 0] turns an absent count into [0]. *)
Definition addPostToUI (title content date : string) (showDeleteBtn : bool)
    (id : N) (likes : Z) (w : World) : World :=
  match logContainer w with
  | None => w
  | Some children =>
      let liked := CookieManager.hasLiked id w in
      let likeCount := likes in
      let postElement :=
        mkPostElement id
          (entry_html title content date showDeleteBtn id liked likeCount)
          ("like-count-" +:+ JS.show id) (JS.showZ likeCount) liked liked in
      set_logContainer (Some (postElement :: children)) w
  end.

End WithMarked.

End UIManager.

(** ** NotificationManager *)

Module NotificationManager.

(** [send]: the request to notify is recorded; whether the browser
    shows it depends on a permission the program does not control. *)
Definition send (title content : string) (w : World) : World :=
  set_notifications (notifications w ++ [(title, content)]) w.

End NotificationManager.

(** ** PostManager *)

Module PostManager.

(** Truthiness of [data]: only [null] is falsy. *)
Definition data_truthy (data : Data) : bool :=
  match data with DNull => false | _ => true end.

(** [data.likes || 0]; an array has no [likes]. *)
Definition data_likes (data : Data) : Z :=
  match data with
  | DRow r => default 0 (post_likes r)
  | _ => 0
  end.

Definition update_like_control (newLikes : Z) (el : PostElement) : PostElement :=
  mkPostElement (dataset_postId el) (innerHTML el) (likeCountId el)
    (JS.showZ newLikes) true true.

(** The first element of the list whose like counter has the id. *)
Fixpoint update_first (id : string) (f : PostElement -> PostElement)
    (l : list PostElement) : list PostElement :=
  match l with
  | [] => []
  | el :: l' =>
      if String.eqb (likeCountId el) id then f el :: l'
      else el :: update_first id f l'
  end.

Definition updateLikeUI (postId : N) (newLikes : Z) (w : World) : World :=
  match logContainer w with
  | None => w
  | Some children =>
      set_logContainer
        (Some (update_first ("like-count-" +:+ JS.show postId)
                 (update_like_control newLikes) children)) w
  end.

(** The operation [likePost] hands to [safeOperation]. *)
Definition likeOperation (postId : N) : Operation bool := fun w =>
  if CookieManager.hasLiked postId w then (Resolved false, w)
  else
    match remote (SelectLikes postId) w with
    | (NoAnswer, w1) => (Hung, w1)
    | (Answer error data, w1) =>
        match error, data_truthy data with
        | Some e, _ => (Rejected e, w1)
        | None, false => (Rejected (new_Error "Post not found"), w1)
        | None, true =>
            let newLikes := data_likes data + 1 in
            match remote (UpdateLikes postId newLikes) w1 with
            | (NoAnswer, w2) => (Hung, w2)
            | (Answer (Some updateError) _, w2) => (Rejected updateError, w2)
            | (Answer None _, w2) =>
                let w3 := updateLikeUI postId newLikes w2 in
                let w4 :=
                  CookieManager.set ("liked_" +:+ JS.show postId) "true"
                    CONFIG.COOKIE_MAX_AGE w3 in
                (Resolved true, w4)
            end
        end
    end.

(** The like operation piece by piece.  An invocation stands before
    its first statement, at one of its two awaits (with the reply the
    awaited call is going to yield), or it has settled; between two
    pieces other code of the page can run. *)
Inductive LikeCall : Type :=
| LikeCalled
| AwaitingSelect (reply : Reply)
| AwaitingUpdate (newLikes : Z) (reply : Reply)
| LikeSettled (result : Settled bool).

(** The invocation runs up to its next await or to its end. *)
Definition like_resume (postId : N) (call : LikeCall) (w : World)
    : LikeCall * World :=
  match call with
  | LikeCalled =>
      if CookieManager.hasLiked postId w then (LikeSettled (Resolved false), w)
      else
        let '(reply, w1) := remote (SelectLikes postId) w in
        (AwaitingSelect reply, w1)
  | AwaitingSelect NoAnswer => (LikeSettled Hung, w)
  | AwaitingSelect (Answer error data) =>
      match error, data_truthy data with
      | Some e, _ => (LikeSettled (Rejected e), w)
      | None, false => (LikeSettled (Rejected (new_Error "Post not found")), w)
      | None, true =>
          let newLikes := data_likes data + 1 in
          let '(reply, w2) := remote (UpdateLikes postId newLikes) w in
          (AwaitingUpdate newLikes reply, w2)
      end
  | AwaitingUpdate _ NoAnswer => (LikeSettled Hung, w)
  | AwaitingUpdate _ (Answer (Some updateError) _) =>
      (LikeSettled (Rejected updateError), w)
  | AwaitingUpdate newLikes (Answer None _) =>
      let w3 := updateLikeUI postId newLikes w in
      let w4 :=
        CookieManager.set ("liked_" +:+ JS.show postId) "true"
          CONFIG.COOKIE_MAX_AGE w3 in
      (LikeSettled (Resolved true), w4)
  | LikeSettled result => (LikeSettled result, w)
  end.

(** Two invocations, for the posts [a] and [b], that are under way at
    the same time: [schedule] tells which of them runs next, the first
    ([false]) or the second ([true]). *)
Fixpoint like_overlapped (a b : N) (schedule : list bool)
    (first second : LikeCall) (w : World) : LikeCall * LikeCall * World :=
  match schedule with
  | [] => (first, second, w)
  | false :: rest =>
      let '(first', w') := like_resume a first w in
      like_overlapped a b rest first' second w'
  | true :: rest =>
      let '(second', w') := like_resume b second w in
      like_overlapped a b rest first second' w'
  end.

Definition TypeError_of (what : string) : Error :=
  new_Error ("Cannot read properties of " +:+ what).

Section WithEnvironment.

Variable random : Z -> Q.
Variable marked_parse : string -> bool -> string.
(** [new Date(t).toLocaleDateString()] *)
Variable toLocaleDateString : Z -> string.

Definition likePost_run (postId : N) (w : World) : Run (option bool) :=
  ErrorHandler.safeOperation random (likeOperation postId) "Like Post" true w.

Definition likePost (postId : N) (w : World) : Outcome bool * World :=
  ErrorHandler.not_null (likePost_run postId w).

(** What follows a successful insert in [submitPost]. *)
Definition after_insert (title : string) (newPost : option Row) (w : World)
    : Settled Row * World :=
  let w1 := alert "✅ Post added successfully!" w in
  let w2 := NotificationManager.send "New Post 🔔" title w1 in
  let w3 := Utils.clearInputs_post w2 in
  let w4 := Utils.toggleElement_postModal false w3 in
  match newPost with
  | None => (Rejected (TypeError_of "undefined (reading 'title')"), w4)
  | Some post =>
      (Resolved post,
       UIManager.addPostToUI marked_parse (post_title post) (post_content post)
         (toLocaleDateString (Z.of_N (now w4))) true (post_id post) 0 w4)
  end.

(** The operation [submitPost] hands to [safeOperation]. *)
Definition submitOperation : Operation Row := fun w =>
  let title := postTitle w in
  let content := postContent w in
  let '(valid, w1) :=
    Utils.validateFields [("Title", title); ("Content", content)] w in
  if negb valid then (Rejected (new_Error "Invalid post data provided"), w1)
  else
    match title, content with
    | Some t, Some c =>
        match remote (InsertPost (JS.trim t) (JS.trim c) 0) w1 with
        | (NoAnswer, w2) => (Hung, w2)
        | (Answer (Some error) _, w2) => (Rejected error, w2)
        | (Answer None DNull, w2) =>
            (Rejected (TypeError_of "null (reading '0')"), w2)
        | (Answer None (DRow _), w2) => after_insert t None w2
        | (Answer None (DRows l), w2) => after_insert t (head l) w2
        end
    | _, _ =>
        (* not reached: validateFields has rejected an absent value *)
        (Rejected (TypeError_of "undefined (reading 'length')"), w1)
    end.

Definition submitPost_run (w : World) : Run (option Row) :=
  ErrorHandler.safeOperation random submitOperation "Submit Post" true w.

Definition submitPost (w : World) : Outcome bool * World :=
  ErrorHandler.not_null (submitPost_run w).

End WithEnvironment.

End PostManager.

(** ** PerformanceUtils: debounce and auto-save *)

Module PerformanceUtils.

Definition order_of (t : option Timer) : N :=
  match t with Some t => order t | None => 0%N end.

(** A timer that is set now comes after the pending ones. *)
Definition next_order (w : World) : N :=
  N.succ (N.max (order_of (contentTimer w)) (order_of (titleTimer w))).

(** One call of a debounced function: [clearTimeout] drops the pending
    timer and [setTimeout] arms a new one that carries the argument. *)
Definition debounce (delay : N) (arg : string) (w : World) : option Timer :=
  Some (mkTimer (now w + delay) arg (next_order w)).

(** [handleInput] of [createAutoSave], for an element whose value is
    [value] and whose debounced save keeps its timer through
    [setTimer]. *)
Definition handleInput (value : option string)
    (setTimer : option Timer -> World -> World) (w : World) : World :=
  match value with
  | None => w
  | Some v =>
      if JS.truthy (JS.trim v)
      then setTimer (debounce CONFIG.AUTO_SAVE_DELAY v w) w
      else w
  end.

End PerformanceUtils.

(** ** App *)

Module App.

Definition draft_post_content : string := "draft_post_content".
Definition draft_post_title : string := "draft_post_title".

Definition localStorage_setItem (key value : string) (w : World) : World :=
  set_setItems (setItems w ++ [(key, value)])
    (set_localStorage (<[key := value]> (localStorage w)) w).

Definition localStorage_removeItem (key : string) (w : World) : World :=
  set_localStorage (delete key (localStorage w)) w.

(** The [input] listeners [setupAutoSave] installs. *)
Definition content_handleInput (w : World) : World :=
  PerformanceUtils.handleInput (postContent w) set_contentTimer w.

Definition title_handleInput (w : World) : World :=
  PerformanceUtils.handleInput (postTitle w) set_titleTimer w.

(** The [focus] listeners: [if (draft && !field.value.trim())]. *)
Definition content_handleFocus (w : World) : World :=
  match postContent w, localStorage w !! draft_post_content with
  | Some value, Some draft =>
      if JS.truthy draft && negb (JS.truthy (JS.trim value))
      then set_postContent (Some draft) w
      else w
  | _, _ => w
  end.

Definition title_handleFocus (w : World) : World :=
  match postTitle w, localStorage w !! draft_post_title with
  | Some value, Some draft =>
      if JS.truthy draft && negb (JS.truthy (JS.trim value))
      then set_postTitle (Some draft) w
      else w
  | _, _ => w
  end.

(** A timer whose time has come runs its save callback. *)
Definition fire_content (w : World) : World :=
  match contentTimer w with
  | Some t =>
      if (deadline t <=? now w)%N
      then localStorage_setItem draft_post_content (saved_arg t)
             (set_contentTimer None w)
      else w
  | None => w
  end.

Definition fire_title (w : World) : World :=
  match titleTimer w with
  | Some t =>
      if (deadline t <=? now w)%N
      then localStorage_setItem draft_post_title (saved_arg t)
             (set_titleTimer None w)
      else w
  | None => w
  end.

(** Of two pending timers, the one that runs first: the one with the
    earlier deadline, and of two with the same deadline the one that
    was set first. *)
Definition runs_first (a b : Timer) : bool :=
  (deadline a <? deadline b)%N
  || ((deadline a =? deadline b)%N && (order a <? order b)%N).

(** The timers that have come due run, in their order. *)
Definition fire_due (w : World) : World :=
  match contentTimer w, titleTimer w with
  | Some c, Some t =>
      if runs_first t c then fire_content (fire_title w)
      else fire_title (fire_content w)
  | _, _ => fire_title (fire_content w)
  end.

(** What happens on the page between two actions. *)
Inductive Event : Type :=
| TypeContent (text : string)   (* the content field is edited to [text] *)
| TypeTitle (text : string)
| FocusContent
| FocusTitle
| Elapse (ms : N).

Definition step (ev : Event) (w : World) : World :=
  match ev with
  | TypeContent text =>
      match postContent w with
      | Some _ => content_handleInput (set_postContent (Some text) w)
      | None => w
      end
  | TypeTitle text =>
      match postTitle w with
      | Some _ => title_handleInput (set_postTitle (Some text) w)
      | None => w
      end
  | FocusContent => content_handleFocus w
  | FocusTitle => title_handleFocus w
  | Elapse ms => fire_due (set_now (now w + ms)%N w)
  end.

Definition run (evs : list Event) (w : World) : World :=
  fold_left (fun w0 ev => step ev w0) evs w.

Section WithEnvironment.

Variable random : Z -> Q.
Variable marked_parse : string -> bool -> string.
Variable toLocaleDateString : Z -> string.

(** [PostManager.submitPost] as [setupAutoSave] rebinds it when the
    content field exists: the original runs, and a true result
    clears both drafts.  The original takes the time [elapsed], its
    awaits and backoff delays included, and the saves that come due
    meanwhile run before it returns; what they write and what the
    original does are apart, so that they are put first here. *)
Definition submitPost (elapsed : N) (w : World) : Outcome bool * World :=
  let w0 := step (Elapse elapsed) w in
  let '(result, w1) :=
    PostManager.submitPost random marked_parse toLocaleDateString w0 in
  match postContent w, result with
  | Some _, Returned true =>
      (result,
       localStorage_removeItem draft_post_title
         (localStorage_removeItem draft_post_content w1))
  | _, _ => (result, w1)
  end.

(** The callback of [data.forEach]. *)
Definition show_post (isLoggedIn : bool) (w0 : World) (post : Row) : World :=
  let formattedDate := toLocaleDateString (post_created_at post) in
  UIManager.addPostToUI marked_parse (post_title post) (post_content post)
    formattedDate isLoggedIn (post_id post) (default 0 (post_likes post)) w0.

(** The operation [loadPosts] hands to [safeOperation]. *)
Definition loadOperation (isLoggedIn : bool) : Operation (list Row) := fun w =>
  match remote SelectAllPosts w with
  | (NoAnswer, w1) => (Hung, w1)
  | (Answer (Some error) _, w1) => (Rejected error, w1)
  | (Answer None DNull, w1) =>
      (Rejected (PostManager.TypeError_of "null (reading 'length')"), w1)
  | (Answer None (DRow _), w1) =>
      (Rejected (new_Error "data.forEach is not a function"), w1)
  | (Answer None (DRows data), w1) =>
      (Resolved data, fold_left (show_post isLoggedIn) data w1)
  end.

Definition loadPosts_run (isLoggedIn : bool) (w : World)
    : Run (option (list Row)) :=
  ErrorHandler.safeOperation random (loadOperation isLoggedIn) "Load Posts"
    true w.

Definition loadPosts (isLoggedIn : bool) (w : World) : Outcome bool * World :=
  ErrorHandler.not_null (loadPosts_run isLoggedIn w).

End WithEnvironment.

End App.

(** ** ErrorHandler.init: the connectivity listeners *)

Module ErrorHandlerInit.

(** The listener of the [online] event. *)
Definition on_online (w : World) : World :=
  NotificationManager.send "📶 Connection Restored" "You are back online!"
    (set_isOnline true w).

(** The listener of the [offline] event. *)
Definition on_offline (w : World) : World :=
  NotificationManager.send "📵 Connection Lost"
    "You are now offline. Changes will be saved when connection is restored."
    (set_isOnline false w).

End ErrorHandlerInit.

(** ** PerformanceUtils.throttle

    The closure of a throttled function: the flag [isThrottled] and the
    timer that clears it, with the calls that went through to the
    wrapped function and the time of each. *)

Module Throttle.

Record State : Type := mkState {
  clock : N;
  isThrottled : bool;
  reset_at : option N;
  invoked : list (N * string)
}.

Definition initial (t : N) : State := mkState t false None [].

(** One call of the throttled function with [arg]. *)
Definition call (delay : N) (arg : string) (st : State) : State :=
  if negb (isThrottled st)
  then mkState (clock st) true (Some (clock st + delay)%N)
         (invoked st ++ [(clock st, arg)])
  else st.

(** Time passes; a timer whose time has come clears the flag. *)
Definition elapse (ms : N) (st : State) : State :=
  let t := (clock st + ms)%N in
  match reset_at st with
  | Some d =>
      if (d <=? t)%N then mkState t false None (invoked st)
      else mkState t (isThrottled st) (reset_at st) (invoked st)
  | None => mkState t (isThrottled st) None (invoked st)
  end.

Inductive Event : Type :=
| Call (arg : string)
| Elapse (ms : N).

Definition step (delay : N) (ev : Event) (st : State) : State :=
  match ev with
  | Call arg => call delay arg st
  | Elapse ms => elapse ms st
  end.

Definition run (delay : N) (evs : list Event) (st : State) : State :=
  fold_left (fun st0 ev => step delay ev st0) evs st.

End Throttle.

(** ** PostManager.insertMarkdown

    A text area is its text, its selection and whether it has the
    focus.  The text is what JavaScript has: a sequence of UTF-16 code
    units, in which the selection offsets, [length] and [slice]
    count. *)

Module Editor.

Definition Text : Type := list N.

Record Textarea : Type := mkTextarea {
  ta_value : Text;
  selectionStart : nat;
  selectionEnd : nat;
  focused : bool
}.

(** [s.slice(a, b)] and [s.slice(a)] for positions that are not
    negative. *)
Definition slice (s : Text) (a b : nat) : Text := firstn (b - a) (skipn a s).

Definition slice_from (s : Text) (a : nat) : Text := skipn a s.

(** Truthiness of a string. *)
Definition truthy (s : Text) : bool :=
  match s with [] => false | _ => true end.

(** The setter of [value] normalises the line breaks: a carriage
    return, with the line feed that follows it if there is one,
    becomes a line feed. *)
Fixpoint normalize_newlines (s : Text) : Text :=
  match s with
  | [] => []
  | c :: rest =>
      if (c =? 13)%N
      then 10%N :: match rest with
                   | d :: rest' =>
                       if (d =? 10)%N then normalize_newlines rest'
                       else normalize_newlines rest
                   | [] => []
                   end
      else c :: normalize_newlines rest
  end.

(** [setSelectionRange]: positions beyond the text are its end. *)
Definition setSelectionRange (a b : nat) (ta : Textarea) : Textarea :=
  let len := length (ta_value ta) in
  mkTextarea (ta_value ta) (Nat.min a len) (Nat.min b len) (focused ta).

(** [insertMarkdown(before, after, textarea)]; nothing happens without
    a text area. *)
Definition insertMarkdown (before after : Text) (textarea : option Textarea)
    : option Textarea :=
  match textarea with
  | None => None
  | Some ta =>
      let start := selectionStart ta in
      let end_ := selectionEnd ta in
      let text := ta_value ta in
      let selected := slice text start end_ in
      let newText := before ++ selected ++ after in
      let value' :=
        normalize_newlines
          (slice text 0 start ++ newText ++ slice_from text end_) in
      let cursorPosition :=
        if truthy selected then (start + length newText)%nat
        else (start + length before)%nat in
      Some (setSelectionRange cursorPosition cursorPosition
              (mkTextarea value' (selectionStart ta) (selectionEnd ta) true))
  end.

End Editor.

(** ** CookieManager.getLikes *)

Module CookieLikes.

Definition is_digit (c : ascii) : bool :=
  let n := nat_of_ascii c in (48 <=? n)%nat && (n <=? 57)%nat.

(** The longest run of decimal digits a string starts with. *)
Fixpoint digits_prefix (s : string) : string :=
  match s with
  | EmptyString => EmptyString
  | String c s' =>
      if is_digit c then String c (digits_prefix s') else EmptyString
  end.

(** The number [parseInt] yields: [NaN], an integer that a double
    holds exactly, or a double beyond [2^53] in size, whose rounding
    is not followed here. *)
Inductive Number : Type :=
| NaN
| Exact (n : Z)
| Beyond.

Definition of_digits (negative : bool) (n : Z) : Number :=
  if (n <=? 2 ^ 53)%Z then Exact (if negative then - n else n) else Beyond.

(** [parseInt(s, 10)]: leading white space, a sign, then digits as far
    as they go. *)
Definition parseInt (s : string) : Number :=
  let t := JS.trimStart s in
  let '(negative, body) :=
    match t with
    | String c r =>
        if Ascii.eqb c "-" then (true, r)
        else if Ascii.eqb c "+" then (false, r)
        else (false, t)
    | EmptyString => (false, t)
    end in
  match digits_prefix body with
  | EmptyString => NaN
  | ds =>
      match NilEmpty.uint_of_string ds with
      | Some u => of_digits negative (Z.of_N (N.of_uint u))
      | None => NaN
      end
  end.

Definition likes_name (postId : N) : string := "likes_" +:+ JS.show postId.

(** [getLikes]: [likes ? parseInt(likes, 10) : 0]. *)
Definition getLikes (postId : N) (w : World) : Number :=
  match CookieManager.get (likes_name postId) w with
  | Some likes => if JS.truthy likes then parseInt likes else Exact 0
  | None => Exact 0
  end.

End CookieLikes.

(** ** Vocabulary of the statements *)

(** [Fails op w es w']: invoked again and again from [w], the operation
    rejects with the errors [es] in turn and leaves [w']. *)
Inductive Fails {R} (op : Operation R) : World -> list Error -> World -> Prop :=
| Fails_nil w : Fails op w [] w
| Fails_cons w e w1 es w' :
    op w = (Rejected e, w1) -> Fails op w1 es w' -> Fails op w (e :: es) w'.

(** The delays slept from attempt [attempt] on when [k] more failures
    are retried. *)
Fixpoint delays_from (random : Z -> Q) (attempt : Z) (k : nat)
    : list Double.t :=
  match k with
  | O => []
  | S k' =>
      ErrorHandler.backoff_delay random attempt
      :: delays_from random (attempt + 1) k'
  end.

(** A world to run examples in: online, nothing stored, nothing
    rendered, and a backend that never answers. *)
Definition World0 : World :=
  mkWorld true [] ∅ (Some EmptyString) (Some EmptyString) true (Some [])
    [] [] [] (fun _ => NoAnswer) [] 0%N None None [].

(** The same world with the connection lost. *)
Definition World_offline : World := set_isOnline false World0.

(** Two rows, the older one first, and a world whose backend answers
    every request with them. *)
Definition row_old : Row := mkRow 1 "First" "one" (Some 2) 100.
Definition row_new : Row := mkRow 2 "Second" "*two*" None 200.
Definition World_posts : World :=
  set_backend (fun _ => Answer None (DRows [row_old; row_new])) World0.

(** An operation that always fails with a bare HTTP status. *)
Definition failing_with (s : Z) : Operation unit :=
  fun w => (Rejected (mkError None (Some s)), w).

(** Stand-ins for the environment in closed examples: a random source
    that always yields one half, a renderer that wraps the text in a
    paragraph, and a date format that prints the timestamp. *)
Definition random_half : Z -> Q := fun _ => 1 # 2.
Definition marked_stub : string -> bool -> string :=
  fun text _ => "<p>" +:+ text +:+ "</p>".
Definition date_stub : Z -> string := fun t => JS.showZ t.

(** The element [addPostToUI] builds for a fetched row in a world with
    the cookies of [w]. *)
Definition rendered (marked_parse : string -> bool -> string)
    (toLocaleDateString : Z -> string) (isLoggedIn : bool) (w : World)
    (post : Row) : PostElement :=
  let liked := CookieManager.hasLiked (post_id post) w in
  let likeCount := default 0 (post_likes post) in
  mkPostElement (post_id post)
    (UIManager.entry_html marked_parse (post_title post) (post_content post)
       (toLocaleDateString (post_created_at post)) isLoggedIn (post_id post)
       liked likeCount)
    ("like-count-" +:+ JS.show (post_id post)) (JS.showZ likeCount) liked liked.

(** Fetch order: ascending by creation time; display order: descending. *)
Definition older_first (a b : Row) : Prop := post_created_at a <= post_created_at b.
Definition newer_first (a b : Row) : Prop := post_created_at b <= post_created_at a.

(** A character does not occur in a string. *)
Fixpoint free_of (c : ascii) (s : string) : bool :=
  match s with
  | EmptyString => true
  | String x s' => negb (Ascii.eqb x c) && free_of c s'
  end.

(** Every character of a string passes a test. *)
Fixpoint all_chars (P : ascii -> bool) (s : string) : bool :=
  match s with
  | EmptyString => true
  | String x s' => P x && all_chars P s'
  end.

(** What the browser keeps in its store: names are not empty and have
    no [;] and no [=], values have no [;]. *)
Definition cookie_name_ok (name : string) : bool :=
  JS.truthy name && free_of ";" name && free_of "=" name.

Definition wf_cookie (c : string * string) : bool :=
  cookie_name_ok (fst c) && free_of ";" (snd c).

Definition wf_jar (jar : list (string * string)) : Prop :=
  Forall (fun c => wf_cookie c = true) jar.

(** The value stored under a name. *)
Fixpoint jar_lookup (name : string) (jar : list (string * string))
    : option string :=
  match jar with
  | [] => None
  | (n, v) :: jar' => if String.eqb n name then Some v else jar_lookup name jar'
  end.

(** The name of the cookie that flags a post as liked. *)
Definition liked_name (postId : N) : string := "liked_" +:+ JS.show postId.

(** A reply that reports success. *)
Definition acknowledged (reply : Reply) : bool :=
  match reply with Answer None _ => true | _ => false end.

Definition is_update_of (postId : N) (rq : Request) : bool :=
  match rq with UpdateLikes i _ => N.eqb i postId | _ => false end.

(** How many writes of a like count of the post the backend has
    acknowledged among the requests [rest] that follow [history]. *)
Fixpoint count_increments (backend : list Request -> Reply) (postId : N)
    (history rest : list Request) : nat :=
  match rest with
  | [] => O
  | rq :: rest' =>
      let h := history ++ [rq] in
      ((if is_update_of postId rq && acknowledged (backend h) then 1 else 0)
       + count_increments backend postId h rest')%nat
  end.

Definition increments (postId : N) (w : World) : nat :=
  count_increments (backend w) postId [] (requests w).

(** The like operation under the request timeout. *)
Definition like_timed (postId : N) : Operation bool :=
  ErrorHandler.timed (PostManager.likeOperation postId) "Like Post".

(** What one invocation of the like operation does. *)
Inductive LikeEffect (id : N) (w : World) : Settled bool -> World -> Prop :=
| AlreadyLiked :
    CookieManager.hasLiked id w = true ->
    LikeEffect id w (Resolved false) w
| LikeFailed s w' :
    CookieManager.hasLiked id w = false ->
    (forall r, s <> Resolved r) ->
    cookies w' = cookies w -> backend w' = backend w ->
    (forall j, increments j w' = increments j w) ->
    LikeEffect id w s w'
| LikeDone w' newLikes d :
    CookieManager.hasLiked id w = false ->
    requests w' = requests w ++ [SelectLikes id; UpdateLikes id newLikes] ->
    backend w (requests w') = Answer None d ->
    cookies w' = Document.store (liked_name id) "true" (cookies w) ->
    backend w' = backend w ->
    increments id w' = S (increments id w) ->
    (forall j, j <> id -> increments j w' = increments j w) ->
    LikeEffect id w (Resolved true) w'.




(** A character that ends neither an attribute value nor starts a
    character reference. *)
Definition attr_plain (c : ascii) : bool :=
  negb (Ascii.eqb c (ascii_of_nat 34)) && negb (Ascii.eqb c "&").

(** An event that types nothing but white space, if it types at all. *)
Definition types_blank (ev : App.Event) : Prop :=
  match ev with
  | App.TypeContent text | App.TypeTitle text => JS.trim text = EmptyString
  | _ => True
  end.

(** What [submitPost] throws at an invalid submission. *)
Definition invalid_error : Error := new_Error "Invalid post data provided".

(** The validation alert for a field. *)
Definition validation_alert (fieldName : string) : string :=
  "⚠️ " +:+ fieldName +:+ " cannot be empty!".

(** The field [validateFields] reports for a submission. *)
Definition first_empty_field (w : World) : string :=
  if Utils.is_empty_field (postTitle w) then "Title" else "Content".

(** A field that is absent, empty or white space only. *)
Definition Blank (value : option string) : Prop :=
  forall text, value = Some text -> JS.trim text = EmptyString.

(** The operation names the program passes to [safeOperation]. *)
Definition operation_names : list string :=
  ["Login"; "Logout"; "Submit Post"; "Delete Post"; "Save Edit"; "Like Post";
   "Load Posts"].

(** [FailsRetryable op w es w']: as [Fails], and every error is
    classified retryable where it is caught. *)
Inductive FailsRetryable {R} (op : Operation R)
    : World -> list Error -> World -> Prop :=
| FailsRetryable_nil w : FailsRetryable op w [] w
| FailsRetryable_cons w e w1 es w' :
    op w = (Rejected e, w1) ->
    ErrorHandler.isRetryableError w1 e = true ->
    FailsRetryable op w1 es w' ->
    FailsRetryable op w (e :: es) w'.

(** The time slept in all, as the exact sum of the delays. *)
Definition total_delay (ds : list Double.t) : Double.t :=
  fold_right
    (fun d total =>
       match d, total with
       | Double.Finite x, Double.Finite y => Double.Finite (x + y)
       | Double.NaN, _ | _, Double.NaN => Double.NaN
       | _, _ => Double.Infinity
       end)
    (Double.Finite 0) ds.

(** Typing without a pause: each text is followed by a gap. *)
Definition burst (typed : list (string * N)) : list App.Event :=
  flat_map (fun p => [App.TypeContent (fst p); App.Elapse (snd p)]) typed.

(** What an action leaves alone when it touches neither the drafts nor
    the timers, the clock, the cookies and the backend. *)
Definition same_drafts (w w' : World) : Prop :=
  localStorage w' = localStorage w /\ setItems w' = setItems w
  /\ contentTimer w' = contentTimer w /\ titleTimer w' = titleTimer w
  /\ now w' = now w /\ cookies w' = cookies w /\ backend w' = backend w.

(** The element [submitPost] shows for the row the insert returned. *)
Definition submitted (marked_parse : string -> bool -> string)
    (toLocaleDateString : Z -> string) (w : World) (post : Row) : PostElement :=
  let liked := CookieManager.hasLiked (post_id post) w in
  mkPostElement (post_id post)
    (UIManager.entry_html marked_parse (post_title post) (post_content post)
       (toLocaleDateString (Z.of_N (now w))) true (post_id post) liked 0)
    ("like-count-" +:+ JS.show (post_id post)) (JS.showZ 0) liked liked.

(** No character of a string is a space or a control character. *)
Definition printable (s : string) : bool :=
  all_chars
    (fun c => let n := nat_of_ascii c in (32 <? n)%nat && negb (n =? 127)%nat)
    s.

(** Consecutive entries of a log of timed calls are at least [delay]
    apart. *)
Fixpoint spaced (delay : N) (log : list (N * string)) : Prop :=
  match log with
  | [] => True
  | (t1, _) :: rest =>
      match rest with
      | [] => True
      | (t2, _) :: _ => (t1 + delay <= t2)%N
      end /\ spaced delay rest
  end.

(** A world with both fields of the form filled in, whose backend
    returns the two rows to every request. *)
Definition World_filled : World :=
  set_postContent (Some "Body text")
    (set_postTitle (Some " A title ") World_posts).

(** A backend that fails twice with a 503 before it returns the two
    rows, and a world that talks to it. *)
Definition backend_flaky : list Request -> Reply := fun history =>
  if (length history <=? 2)%nat
  then Answer (Some (mkError None (Some 503))) DNull
  else Answer None (DRows [row_old; row_new]).

Definition World_flaky : World := set_backend backend_flaky World0.

(** A world that shows the older row and whose backend returns it. *)
Definition World_shown : World :=
  set_logContainer (Some [rendered marked_stub date_stub false World0 row_old])
    (set_backend (fun _ => Answer None (DRow row_old)) World0).

(** An operation that never settles. *)
Definition hanging : Operation unit := fun w => (Hung, w).






(** U+00A0, the no-break space, and U+2003, the em space, in UTF-8. *)
Definition nbsp : string :=
  String (ascii_of_nat 194) (String (ascii_of_nat 160) EmptyString).

Definition em_space : string :=
  String (ascii_of_nat 226)
    (String (ascii_of_nat 128) (String (ascii_of_nat 131) EmptyString)).

(** No save is due: the title timer is idle and the content timer, if
    armed, has its deadline ahead. *)
Definition no_save_due (w : World) : Prop :=
  titleTimer w = None
  /\ match contentTimer w with
     | None => True
     | Some t => (now w < deadline t)%N
     end.

(** * Properties *)

(** ** Strings *)

Section StringFacts.

Lemma append_nil_r (s : string) : s +:+ EmptyString = s.
Proof. induction s as [|c s IH]; simpl; [reflexivity | now rewrite IH]. Qed.

Lemma append_assoc (a b c : string) : (a +:+ b) +:+ c = a +:+ (b +:+ c).
Proof. induction a as [|x a IH]; simpl; [reflexivity | now rewrite IH]. Qed.

Lemma prefix_iff (p s : string) :
  String.prefix p s = true <-> exists t, s = p +:+ t.
Proof.
  revert s; induction p as [|a p IH]; intros s; simpl.
  - destruct s; split; eauto.
  - destruct s as [|b s]; simpl.
    + split; [discriminate | intros [t Ht]; discriminate].
    + destruct (ascii_dec a b) as [->|Hne].
      * rewrite IH. split; intros [t Ht]; exists t.
        -- now rewrite Ht.
        -- now injection Ht.
      * split; [discriminate | intros [t Ht]; injection Ht; congruence].
Qed.

Lemma prefix_nil (s : string) : String.prefix EmptyString s = true.
Proof. destruct s; reflexivity. Qed.

Lemma prefix_same_char (c : ascii) (p s : string) :
  String.prefix (String c p) (String c s) = String.prefix p s.
Proof. cbn. destruct (ascii_dec c c); [reflexivity | contradiction]. Qed.

Lemma prefix_append (p t : string) : String.prefix p (p +:+ t) = true.
Proof. apply prefix_iff; eauto. Qed.

Lemma includes_nil (sub : string) :
  JS.includes EmptyString sub = String.prefix sub EmptyString.
Proof. reflexivity. Qed.

Lemma includes_cons (c : ascii) (s sub : string) :
  JS.includes (String c s) sub
  = String.prefix sub (String c s) || JS.includes s sub.
Proof. reflexivity. Qed.

Lemma includes_iff (s sub : string) :
  JS.includes s sub = true <-> JS.Substring sub s.
Proof.
  unfold JS.Substring. induction s as [|c s IH].
  - rewrite includes_nil, prefix_iff. split.
    + intros [t Ht]. exists EmptyString, t. exact Ht.
    + intros [pre [post H]]. destruct pre; [|discriminate].
      exists post. exact H.
  - rewrite includes_cons, orb_true_iff, IH, prefix_iff. split.
    + intros [[t Ht] | [pre [post H]]].
      * exists EmptyString, t. exact Ht.
      * exists (String c pre), post. simpl. now rewrite H.
    + intros [pre [post H]]. destruct pre as [|x pre]; simpl in H.
      * left. exists post. exact H.
      * right. injection H as _ H. exists pre, post. exact H.
Qed.

End StringFacts.

(** ** Numbers *)

Section DoubleFacts.

Import Double.

Local Open Scope N_scope.

Lemma pow2_pos (e : N) : 0 < 2 ^ e.
Proof. apply N.neq_0_lt_0, N.pow_nonzero. lia. Qed.

Lemma rne_floor (n p : N) : n / 2 ^ p <= rne n p <= n / 2 ^ p + 1.
Proof.
  unfold rne. destruct p as [|p].
  - rewrite N.pow_0_r, N.div_1_r. lia.
  - cbv zeta.
    destruct (_ <? _); [lia|]. destruct (_ <? _); [lia|].
    destruct (N.even _); lia.
Qed.

Lemma rne_lower (n p k : N) : k * 2 ^ p <= n -> k <= rne n p.
Proof.
  intros H. pose proof (rne_floor n p) as [Hf _].
  pose proof (pow2_pos p) as Hp.
  assert (k <= n / 2 ^ p); [|lia].
  apply N.div_le_lower_bound; lia.
Qed.

Lemma rne_upper (n p k : N) : n <= k * 2 ^ p -> rne n p <= k.
Proof.
  intros H. pose proof (pow2_pos p) as Hp.
  pose proof (N.div_mod n (2 ^ p) ltac:(lia)) as Hdm.
  pose proof (N.mod_lt n (2 ^ p) ltac:(lia)) as Hr.
  set (q := n / 2 ^ p) in *. set (r := n mod 2 ^ p) in *.
  destruct (N.eq_dec r 0) as [Hr0|Hr0].
  - assert (q <= k) by nia.
    unfold rne. destruct p as [|p]; [rewrite N.pow_0_r in *; lia|].
    cbv zeta. fold q r. rewrite Hr0.
    pose proof (pow2_pos (N.pos p - 1)) as Hh.
    destruct (N.ltb_spec 0 (2 ^ (N.pos p - 1))); lia.
  - assert (q + 1 <= k) by nia.
    pose proof (rne_floor n p) as [_ Hf]. fold q in Hf. lia.
Qed.

Lemma representable_multiple (a e : N) :
  representable a -> N.log2 a = e + 52 -> exists k, a = k * 2 ^ e.
Proof.
  unfold representable. intros Hr Hl. rewrite Hl in Hr.
  replace (e + 52 - 52) with e in Hr by lia.
  exists (a / 2 ^ e).
  pose proof (N.div_mod a (2 ^ e) ltac:(pose proof (pow2_pos e); lia)). lia.
Qed.

(** Rounding does not pass a double: below *)
Lemma nearest_lower (a n s : N) :
  representable a -> a * 2 ^ s <= n -> le (Finite a) (nearest n s).
Proof.
  intros Hrep Hle. unfold nearest. cbv zeta.
  destruct (top <=? _); [exact I|]. cbn.
  destruct (N.eq_dec a 0) as [->|Ha]; [lia|].
  pose proof (pow2_pos s) as Hs.
  assert (Hn : 0 < n) by nia.
  destruct (N.log2_spec n Hn) as [Hlo Hhi].
  set (b := N.log2 n) in *.
  destruct (N.le_gt_cases (b - 52) s) as [Hcase|Hcase].
  - rewrite N.max_l by exact Hcase. rewrite N.sub_diag, N.pow_0_r, N.mul_1_r.
    now apply rne_lower.
  - rewrite N.max_r by lia.
    set (p := b - 52) in *. set (g := 2 ^ (p - s)).
    assert (Hg : 0 < g) by apply pow2_pos.
    assert (Hp : 2 ^ p = g * 2 ^ s).
    { unfold g. rewrite <- N.pow_add_r. f_equal. lia. }
    assert (Hb : 2 ^ b = 2 ^ 52 * 2 ^ p).
    { rewrite <- N.pow_add_r. f_equal. lia. }
    assert (H52 : 2 ^ 52 <= rne n p) by (apply rne_lower; lia).
    destruct (N.le_gt_cases a (2 ^ 52 * g)) as [Hsmall|Hbig]; [nia|].
    assert (Hla : N.log2 a = (p - s) + 52).
    { apply N.log2_unique; [lia|]. split.
      - rewrite N.pow_add_r. fold g. lia.
      - rewrite N.pow_succ_r', N.pow_add_r. fold g.
        rewrite N.pow_succ_r' in Hhi. nia. }
    destruct (representable_multiple a (p - s) Hrep Hla) as [k Hk].
    fold g in Hk. subst a.
    assert (k <= rne n p) by (apply rne_lower; nia).
    nia.
Qed.

(** ... and above. *)
Lemma nearest_upper (b0 n s : N) :
  representable b0 -> b0 < top -> n <= b0 * 2 ^ s ->
  exists r, nearest n s = Finite r /\ r <= b0.
Proof.
  intros Hrep Htop Hle. unfold nearest. cbv zeta.
  set (p := N.max s (N.log2 n - 52)).
  assert (Hr : rne n p * 2 ^ (p - s) <= b0).
  { pose proof (pow2_pos s) as Hs.
    destruct (N.eq_dec n 0) as [->|Hn0].
    - assert (rne 0 p <= 0) by (apply rne_upper; lia). nia.
    - assert (Hn : 0 < n) by lia.
      destruct (N.log2_spec n Hn) as [Hlo Hhi].
      subst p. set (b := N.log2 n) in *.
      destruct (N.le_gt_cases (b - 52) s) as [Hcase|Hcase].
      + rewrite N.max_l by exact Hcase.
        rewrite N.sub_diag, N.pow_0_r, N.mul_1_r. now apply rne_upper.
      + rewrite N.max_r by lia.
        set (p := b - 52) in *. set (g := 2 ^ (p - s)).
        assert (Hg : 0 < g) by apply pow2_pos.
        assert (Hp : 2 ^ p = g * 2 ^ s).
        { unfold g. rewrite <- N.pow_add_r. f_equal. lia. }
        assert (Hb : 2 ^ b = 2 ^ 52 * 2 ^ p).
        { rewrite <- N.pow_add_r. f_equal. lia. }
        rewrite N.pow_succ_r' in Hhi.
        assert (H53 : rne n p <= 2 ^ 53).
        { apply rne_upper. change (2 ^ 53) with (2 * 2 ^ 52). lia. }
        destruct (N.le_gt_cases (2 ^ 53 * g) b0) as [Hbig|Hsmall]; [nia|].
        assert (Hla : N.log2 b0 = (p - s) + 52).
        { apply N.log2_unique; [lia|]. split.
          - rewrite N.pow_add_r. fold g. nia.
          - rewrite N.pow_succ_r', N.pow_add_r. fold g.
            change (2 ^ 53) with (2 * 2 ^ 52) in Hsmall. lia. }
        destruct (representable_multiple b0 (p - s) Hrep Hla) as [k Hk].
        fold g in Hk. subst b0.
        assert (rne n p <= k) by (apply rne_upper; nia).
        nia. }
  exists (rne n p * 2 ^ (p - s)). split; [|exact Hr].
  destruct (N.leb_spec top (rne n p * 2 ^ (p - s))); [lia | reflexivity].
Qed.

Lemma representable_scaled (m e : N) :
  m < 2 ^ 53 -> representable (m * 2 ^ e).
Proof.
  intros Hm. unfold representable.
  destruct (N.eq_dec m 0) as [->|Hm0].
  - rewrite N.mul_0_l. apply N.Div0.mod_0_l.
  - rewrite N.log2_mul_pow2 by lia.
    assert (Hl : N.log2 m < 53).
    { apply N.log2_lt_pow2; [lia | exact Hm]. }
    replace (2 ^ e) with (2 ^ (e - (e + N.log2 m - 52)) * 2 ^ (e + N.log2 m - 52)).
    + rewrite N.mul_assoc. apply N.Div0.mod_mul.
    + rewrite <- N.pow_add_r. f_equal. lia.
Qed.

(** An operation whose exact result is a double yields it. *)
Lemma nearest_exact (a s : N) :
  representable a -> a < top -> nearest (a * 2 ^ s) s = Finite a.
Proof.
  intros Hrep Htop.
  destruct (nearest_upper a (a * 2 ^ s) s Hrep Htop (N.le_refl _))
    as [r [Hr Hle]].
  pose proof (nearest_lower a (a * 2 ^ s) s Hrep (N.le_refl _)) as Hlo.
  rewrite Hr in Hlo |- *. cbn in Hlo. f_equal. lia.
Qed.

Lemma of_Q_unit (q : Q) :
  (q < 1)%Q -> exists n, of_Q q = Finite n /\ n < one.
Proof.
  intros H1. unfold of_Q. eexists. split; [reflexivity|].
  set (c := Z.of_N one).
  assert (Hc : (0 < c)%Z)
    by (unfold c; pose proof (pow2_pos 1074); unfold one; lia).
  assert (Hlt : (Qfloor (q * inject_Z c) < c)%Z).
  { rewrite Zlt_Qlt.
    apply Qle_lt_trans with (y := (q * inject_Z c)%Q); [apply Qfloor_le|].
    rewrite <- (Qmult_1_l (inject_Z c)) at 2.
    apply Qmult_lt_compat_r; [|exact H1].
    change 0%Q with (inject_Z 0). now rewrite <- Zlt_Qlt. }
  unfold c in *. lia.
Qed.

Lemma one_top (e : N) : e <= 1023 -> 2 ^ e * one < top.
Proof.
  intros He. unfold one, top. rewrite <- N.pow_add_r.
  apply N.pow_lt_mono_r; lia.
Qed.

End DoubleFacts.

(** ** ErrorHandler *)

Section ErrorHandlerFacts.

Import ErrorHandler.

Lemma message_or_empty_default (error : Error) :
  message_or_empty error = default EmptyString (message error).
Proof.
  unfold message_or_empty. destruct (message error) as [[|c m]|]; reflexivity.
Qed.

Lemma status_retryable_iff (error : Error) :
  status_retryable error = true <->
  exists s, status error = Some s /\ In s [408; 429; 500; 502; 503; 504].
Proof.
  unfold status_retryable. destruct (status error) as [s|].
  - rewrite andb_true_iff, negb_true_iff, existsb_exists. split.
    + intros [_ [x [Hin Heq]]]. apply Z.eqb_eq in Heq. subst x. eauto.
    + intros [s' [[= <-] Hin]]. split.
      * apply Z.eqb_neq. simpl in Hin. lia.
      * exists s. split; [exact Hin | apply Z.eqb_refl].
  - split; [discriminate | intros [s [[=] _]]].
Qed.

(** C2. [isRetryableError] answers [true] exactly when the client is
    offline, or the error carries a status among 408, 429, 500, 502,
    503, 504, or the lower-cased message (the empty string when the
    message is absent) contains one of the five transient-failure
    patterns. *)
Theorem isRetryableError_iff (w : World) (error : Error) :
  isRetryableError w error = true <->
  (isOnline w = false
   \/ (exists s, status error = Some s /\ In s [408; 429; 500; 502; 503; 504])
   \/ (exists msg,
         In msg ["network error"; "timeout"; "connection"; "rate limit";
                 "server error"]
         /\ JS.Substring msg
              (JS.toLowerCase (default EmptyString (message error))))).
Proof.
  unfold isRetryableError. rewrite message_or_empty_default.
  destruct (isOnline w); simpl negb; cbv iota.
  - destruct (status_retryable error) eqn:Hs.
    + split; [intros _ | reflexivity].
      right; left. now apply status_retryable_iff.
    + rewrite existsb_exists. split.
      * intros [msg [Hin Hinc]]. right; right. exists msg.
        split; [exact Hin | now apply includes_iff].
      * intros [H | [H | [msg [Hin Hsub]]]].
        -- discriminate.
        -- apply status_retryable_iff in H. congruence.
        -- exists msg. split; [exact Hin | now apply includes_iff].
  - split; [now left | reflexivity].
Qed.

Section Retry.

Variable random : Z -> Q.
Hypothesis random_range : forall k, (0 <= random k)%Q /\ (random k < 1)%Q.

Lemma delays_from_length (attempt : Z) (k : nat) :
  length (delays_from random attempt k) = k.
Proof. revert attempt; induction k; intros; simpl; auto. Qed.


Lemma last_cons_default {A} (x d : A) (l : list A) :
  List.last (x :: l) d = List.last l x.
Proof.
  revert x d; induction l as [|y l IH]; intros x d; [reflexivity|].
  change (List.last (y :: l) d = List.last (y :: l) x). now rewrite !IH.
Qed.

(** Up to attempt 47 the sum of the base and the jitter is rounded
    within the bounds, which are doubles themselves. *)
Lemma backoff_delay_bounds (attempt : Z) :
  1 <= attempt <= 47 ->
  let base := Z.to_N (CONFIG.RETRY_DELAY_BASE * 2 ^ (attempt - 1)) in
  Double.le (Double.of_N base) (backoff_delay random attempt)
  /\ Double.le (backoff_delay random attempt) (Double.of_N (base + 1000)).
Proof.
  intros Hatt. cbv zeta. destruct (random_range attempt) as [_ Hrand].
  unfold backoff_delay.
  change (Z.to_N CONFIG.RETRY_DELAY_BASE) with 1000%N.
  set (e := Z.to_N (attempt - 1)).
  assert (Hbase_N : Z.to_N (CONFIG.RETRY_DELAY_BASE * 2 ^ (attempt - 1))
                    = (1000 * 2 ^ e)%N).
  { unfold CONFIG.RETRY_DELAY_BASE, e.
    rewrite Z2N.inj_mul, Z2N.inj_pow by lia. reflexivity. }
  rewrite Hbase_N.
  assert (He : (e <= 46)%N) by lia.
  assert (He46 : (2 ^ e <= 2 ^ 46)%N) by (apply N.pow_le_mono_r; lia).
  assert (Hpow : Double.pow2 (attempt - 1)
                 = Double.Finite (2 ^ e * Double.one)).
  { unfold Double.pow2.
    destruct (Z.ltb_spec 1023 (attempt - 1)); [lia|].
    destruct (Z.ltb_spec (attempt - 1) (-1074)); [lia|].
    f_equal. unfold Double.one. rewrite <- N.pow_add_r. f_equal. lia. }
  rewrite Hpow.
  pose proof (one_top 1023 (N.le_refl _)) as Htop.
  pose proof (pow2_pos 1074) as Hone. fold Double.one in Hone.
  assert (H1023 : (2 ^ 46 * 2 ^ 11 <= 2 ^ 1023)%N).
  { rewrite <- N.pow_add_r. apply N.pow_le_mono_r; lia. }
  assert (Hrep : Double.representable (1000 * 2 ^ e * Double.one)).
  { replace (1000 * 2 ^ e * Double.one)%N with (1000 * 2 ^ (e + 1074))%N
      by (unfold Double.one; rewrite N.pow_add_r; lia).
    apply representable_scaled. reflexivity. }
  assert (Hbase : Double.mul (Double.of_N 1000)
                    (Double.Finite (2 ^ e * Double.one))
                  = Double.Finite (1000 * 2 ^ e * Double.one)).
  { unfold Double.mul, Double.of_N.
    replace (1000 * Double.one * (2 ^ e * Double.one))%N
      with ((1000 * 2 ^ e * Double.one) * 2 ^ 1074)%N
      by (unfold Double.one; lia).
    apply nearest_exact; [exact Hrep | nia]. }
  rewrite Hbase.
  destruct (of_Q_unit (random attempt) Hrand) as [nr [Hq Hnr]].
  rewrite Hq.
  assert (Hrep1000 : Double.representable (1000 * Double.one)).
  { unfold Double.one. apply representable_scaled. reflexivity. }
  destruct (nearest_upper (1000 * Double.one) (nr * (1000 * Double.one)) 1074
              Hrep1000) as [j [Hj Hjle]]; [nia | fold Double.one; nia |].
  assert (Hjit : Double.mul (Double.Finite nr) (Double.of_N 1000)
                 = Double.Finite j) by exact Hj.
  rewrite Hjit.
  unfold Double.add, Double.of_N. split.
  - apply nearest_lower; [exact Hrep | rewrite N.pow_0_r; lia].
  - destruct (nearest_upper ((1000 * 2 ^ e + 1000) * Double.one)
                (1000 * 2 ^ e * Double.one + j) 0) as [r [Hr Hrle]].
    + replace ((1000 * 2 ^ e + 1000) * Double.one)%N
        with (125 * (2 ^ e + 1) * 2 ^ 1077)%N.
      * apply representable_scaled.
        change (2 ^ 53)%N with (128 * 2 ^ 46)%N. lia.
      * change (2 ^ 1077)%N with (8 * 2 ^ 1074)%N. fold Double.one. lia.
    + nia.
    + rewrite N.pow_0_r. lia.
    + rewrite Hr. exact Hrle.
Qed.



End Retry.

Section SafeOperation.

Variable random : Z -> Q.

Lemma retry_loop_retry {R} (op : Operation R) N r attempt lastError w n
    errs ds e w1 :
  op w = (Rejected e, w1) -> isRetryableError w1 e = true ->
  attempt <> N ->
  retry_loop random op N (S r) attempt lastError w n errs ds
  = retry_loop random op N r (attempt + 1) (Some e) w1 (S n) (errs ++ [e])
      (ds ++ [backoff_delay random attempt]).
Proof.
  intros Hw He Hne. cbn [retry_loop]. rewrite Hw, He.
  destruct (Z.eqb_spec attempt N); [contradiction | reflexivity].
Qed.

Lemma retry_loop_stop {R} (op : Operation R) N r attempt lastError w n
    errs ds e w1 :
  op w = (Rejected e, w1) ->
  attempt = N \/ isRetryableError w1 e = false ->
  retry_loop random op N (S r) attempt lastError w n errs ds
  = mkRun (Thrown (Some e)) w1 (S n) (errs ++ [e]) ds.
Proof.
  intros Hw H. cbn [retry_loop]. rewrite Hw.
  destruct H as [-> | ->].
  - now rewrite Z.eqb_refl.
  - now rewrite orb_true_r.
Qed.

Lemma retry_loop_resolved {R} (op : Operation R) N r attempt lastError w n
    errs ds v w1 :
  op w = (Resolved v, w1) ->
  retry_loop random op N (S r) attempt lastError w n errs ds
  = mkRun (Returned v) w1 (S n) errs ds.
Proof. intros Hw. cbn [retry_loop]. now rewrite Hw. Qed.

(** The rules of [getUserFriendlyErrorMessage] for an error that
    has a message: the first rule that applies decides. *)
Lemma getUserFriendlyErrorMessage_rules (w : World) (error : Error)
    (m operationName : string) :
  message error = Some m ->
  exists text,
    getUserFriendlyErrorMessage w error operationName = inr text
    /\ (isOnline w = false -> text = msg_offline)
    /\ (isOnline w = true -> JS.includes m "timeout" = true ->
        text = msg_timeout operationName)
    /\ (isOnline w = true -> JS.includes m "timeout" = false ->
        JS.includes m "rate limit" = true -> text = msg_rate_limit)
    /\ (isOnline w = true -> JS.includes m "timeout" = false ->
        JS.includes m "rate limit" = false ->
        status_ge_500 error = true -> text = msg_server)
    /\ (isOnline w = true -> JS.includes m "timeout" = false ->
        JS.includes m "rate limit" = false ->
        status_ge_500 error = false -> status_auth error = true ->
        text = msg_auth)
    /\ (isOnline w = true -> JS.includes m "timeout" = false ->
        JS.includes m "rate limit" = false ->
        status_ge_500 error = false -> status_auth error = false ->
        text = msg_generic operationName).
Proof.
  intros Hm. unfold getUserFriendlyErrorMessage. rewrite Hm.
  destruct (isOnline w); cbn [negb].
  - destruct (JS.includes m "timeout");
      [|destruct (JS.includes m "rate limit");
        [|destruct (status_ge_500 error); [|destruct (status_auth error)]]];
      eexists; (split; [reflexivity|]); repeat split; intros;
        congruence.
  - eexists; split; [reflexivity|]. repeat split; intros; congruence.
Qed.

(** A failure that carries a message never leaves [safeOperation]:
    it is logged, the user is told, and the result is [null]. *)
Lemma safeOperation_catches {R} (op : Operation R)
    (operationName : string) (showUserError : bool) (w : World)
    (error : Error) (m : string) :
  let inner :=
    retryWithBackoff random (timed op operationName) CONFIG.MAX_RETRIES
      operationName w in
  outcome inner = Thrown (Some error) ->
  message error = Some m ->
  let run := safeOperation random op operationName showUserError w in
  let logged :=
    logError "Safe Operation Error" operationName (Some m) (world inner) in
  exists text,
    getUserFriendlyErrorMessage logged error operationName = inr text
    /\ outcome run = Returned None
    /\ attempts run = attempts inner
    /\ world run
       = (if showUserError then alert ("❌ " +:+ text) logged else logged).
Proof.
  intros inner Hout Hm run logged.
  destruct (getUserFriendlyErrorMessage_rules logged error m operationName Hm)
    as [text [Htext _]].
  exists text. split; [exact Htext|].
  subst run. unfold safeOperation. fold inner.
  rewrite Hout, Hm. fold logged. rewrite Htext.
  destruct showUserError; repeat split.
Qed.

(** How a run of the loop relates to the invocations it made. *)
Lemma retry_loop_outcome {R} (op : Operation R) (N : Z) :
  forall (remaining : nat) (attempt : Z) lastError w n errs ds,
    let run := retry_loop random op N remaining attempt lastError w n errs ds in
    match outcome run with
    | Returned r =>
        exists es w0, Fails op w es w0 /\ op w0 = (Resolved r, world run)
    | NeverSettles =>
        exists es w0, Fails op w es w0 /\ op w0 = (Hung, world run)
    | Thrown _ => exists es, Fails op w es (world run)
    end.
Proof.
  induction remaining as [|r IH]; intros attempt lastError w n errs ds.
  - cbn. exists []. constructor.
  - cbn [retry_loop]. destruct (op w) as [[v|e|] w1] eqn:Hw.
    + cbn. exists [], w. split; [constructor | exact Hw].
    + destruct ((attempt =? N) || negb (isRetryableError w1 e)).
      * cbn. exists [e]. econstructor; [exact Hw | constructor].
      * specialize (IH (attempt + 1) (Some e) w1 (S n) (errs ++ [e])
                      (ds ++ [backoff_delay random attempt])).
        cbv zeta in IH |- *.
        destruct (outcome (retry_loop random op N r (attempt + 1) (Some e) w1
                             (S n) (errs ++ [e])
                             (ds ++ [backoff_delay random attempt]))).
        -- destruct IH as [es [w0 [Hf Hop]]].
           exists (e :: es), w0. split; [|exact Hop].
           econstructor; [exact Hw | exact Hf].
        -- destruct IH as [es Hf]. exists (e :: es).
           econstructor; [exact Hw | exact Hf].
        -- destruct IH as [es [w0 [Hf Hop]]].
           exists (e :: es), w0. split; [|exact Hop].
           econstructor; [exact Hw | exact Hf].
    + cbn. exists [], w. split; [constructor | exact Hw].
Qed.

(** A property of the world that every invocation keeps is kept by
    the loop. *)
Lemma retry_loop_preserves {R} (op : Operation R) (N : Z)
    (I : World -> Prop) :
  (forall w s w', I w -> op w = (s, w') -> I w') ->
  forall (remaining : nat) (attempt : Z) lastError w n errs ds,
    I w ->
    I (world (retry_loop random op N remaining attempt lastError w n errs ds)).
Proof.
  intros Hop. induction remaining as [|r IH];
    intros attempt lastError w n errs ds Hw; [exact Hw|].
  cbn [retry_loop]. destruct (op w) as [[v|e|] w1] eqn:E;
    pose proof (Hop _ _ _ Hw E) as Hw1.
  - exact Hw1.
  - destruct ((attempt =? N) || negb (isRetryableError w1 e)); [exact Hw1|].
    now apply IH.
  - exact Hw1.
Qed.

Lemma Fails_preserves {R} (op : Operation R) (I : World -> Prop) :
  (forall w e w', I w -> op w = (Rejected e, w') -> I w') ->
  forall w es w', Fails op w es w' -> I w -> I w'.
Proof.
  intros Hop w es w' Hf. induction Hf as [|w e w1 es w' Hw _ IH]; [auto|].
  intros Hi. apply IH. eapply Hop; eauto.
Qed.

(** The same for [safeOperation], whose own effects are a log entry
    and an alert. *)
Lemma safeOperation_preserves {R} (op : Operation R)
    (operationName : string) (showUserError : bool) (I : World -> Prop) :
  (forall w s w', I w -> op w = (s, w') -> I w') ->
  (forall w v, I w -> I (set_console v w)) ->
  (forall w v, I w -> I (set_alerts v w)) ->
  forall w, I w ->
  I (world (safeOperation random op operationName showUserError w)).
Proof.
  intros Hop Hlog Halert w Hw. unfold safeOperation.
  assert (Htimed : forall w s w',
             I w -> timed op operationName w = (s, w') -> I w').
  { intros w0 s w' Hi. unfold timed.
    destruct (op w0) as [s0 w1] eqn:E. intros [= _ <-].
    eapply Hop; eauto. }
  pose proof (retry_loop_preserves (timed op operationName)
                CONFIG.MAX_RETRIES I Htimed
                (Z.to_nat CONFIG.MAX_RETRIES) 1 None w O [] [] Hw) as Hinner.
  fold (retryWithBackoff random (timed op operationName) CONFIG.MAX_RETRIES
          operationName w) in Hinner.
  destruct (outcome (retryWithBackoff random (timed op operationName)
                       CONFIG.MAX_RETRIES operationName w))
    as [r|[e|]|]; cbn [world];
    try exact Hinner.
  destruct showUserError.
  - destruct (getUserFriendlyErrorMessage _ e operationName); cbn [world].
    + now apply Hlog.
    + apply Halert. now apply Hlog.
  - cbn [world]. now apply Hlog.
Qed.

(** C3 (failing run). An operation that rejects with an error object
    that has a status but no message, on a client that is online:
    [safeOperation] does not return [null], it throws the
    [TypeError] of [error.message.includes], and no message reaches
    the user. *)
Theorem safeOperation_messageless_error_escapes :
  let run := safeOperation random (failing_with 401) "Operation" true World0 in
  outcome run = Thrown (Some TypeError_includes)
  /\ attempts run = 1%nat
  /\ alerts (world run) = []
  /\ isRetryableError World0 (mkError None (Some 401)) = false.
Proof. repeat split. Qed.

End SafeOperation.

End ErrorHandlerFacts.

(** ** Submitting a post *)

Section SubmitFacts.

Import ErrorHandler.

Variable random : Z -> Q.
Variable marked_parse : string -> bool -> string.
Variable toLocaleDateString : Z -> string.

Lemma is_empty_field_Blank (value : option string) :
  Utils.is_empty_field value = true <-> Blank value.
Proof.
  unfold Blank. destruct value as [v|]; cbn [Utils.is_empty_field].
  - rewrite orb_true_iff, !negb_true_iff. split.
    + intros [H | H] text [= <-].
      * destruct v; [reflexivity | discriminate].
      * destruct (JS.trim v); [reflexivity | discriminate].
    + intros H. right. now rewrite (H v eq_refl).
  - split; [intros _ text; discriminate | reflexivity].
Qed.

Lemma invalid_error_retryable (w : World) :
  isRetryableError w invalid_error = negb (isOnline w).
Proof. unfold isRetryableError. destruct (isOnline w); reflexivity. Qed.

(** An invalid submission is rejected after the alert and before any
    remote call. *)
Lemma submitOperation_invalid (w : World) :
  Blank (postTitle w) \/ Blank (postContent w) ->
  PostManager.submitOperation marked_parse toLocaleDateString w
  = (Rejected invalid_error, alert (validation_alert (first_empty_field w)) w).
Proof.
  intros H. unfold PostManager.submitOperation, first_empty_field.
  cbn [Utils.validateFields].
  destruct (Utils.is_empty_field (postTitle w)) eqn:Ht; [reflexivity|].
  destruct (Utils.is_empty_field (postContent w)) eqn:Hc; [reflexivity|].
  exfalso. destruct H as [H | H]; apply is_empty_field_Blank in H; congruence.
Qed.

Lemma timed_invalid (w : World) :
  Blank (postTitle w) \/ Blank (postContent w) ->
  timed (PostManager.submitOperation marked_parse toLocaleDateString)
    "Submit Post" w
  = (Rejected invalid_error, alert (validation_alert (first_empty_field w)) w).
Proof. intros H. unfold timed. now rewrite submitOperation_invalid. Qed.

(** C5 (amended). A submission whose title or content is empty or
    white space only issues no remote call and shows the validation
    alert first; the result is [null].  While the client is online the
    operation is invoked once and never retried; while it is offline
    every failure counts as retryable and the operation is invoked
    [MAX_RETRIES] times, still without a remote call. *)
Theorem submitPost_validation (w : World) :
  Blank (postTitle w) \/ Blank (postContent w) ->
  let run :=
    PostManager.submitPost_run random marked_parse toLocaleDateString w in
  requests (world run) = requests w
  /\ (exists fieldName rest,
        (fieldName = "Title" \/ fieldName = "Content")
        /\ alerts (world run)
           = alerts w ++ validation_alert fieldName :: rest)
  /\ outcome run = Returned None
  /\ (isOnline w = true -> attempts run = 1%nat /\ delays run = [])
  /\ (isOnline w = false -> attempts run = Z.to_nat CONFIG.MAX_RETRIES).
Proof.
  intros Hblank run.
  set (va := validation_alert (first_empty_field w)).
  assert (Hfield : first_empty_field w = "Title"
                   \/ first_empty_field w = "Content").
  { unfold first_empty_field. destruct (Utils.is_empty_field _); auto. }
  pose (inner :=
          retryWithBackoff random
            (timed (PostManager.submitOperation marked_parse toLocaleDateString)
               "Submit Post")
            CONFIG.MAX_RETRIES "Submit Post" w).
  assert (Hinner :
    (isOnline w = true ->
     inner = mkRun (Thrown (Some invalid_error)) (alert va w) 1 [invalid_error] [])
    /\ (isOnline w = false ->
        outcome inner = Thrown (Some invalid_error)
        /\ world inner = alert va (alert va (alert va w))
        /\ attempts inner = 3%nat)).
  { split; intros Hon.
    - unfold inner, retryWithBackoff.
      change (Z.to_nat CONFIG.MAX_RETRIES) with 3%nat.
      erewrite retry_loop_stop; [reflexivity | now apply timed_invalid |].
      right. rewrite invalid_error_retryable. cbn. now rewrite Hon.
    - unfold inner, retryWithBackoff.
      change (Z.to_nat CONFIG.MAX_RETRIES) with 3%nat.
      erewrite retry_loop_retry;
        [| now apply timed_invalid
         | rewrite invalid_error_retryable; cbn; now rewrite Hon
         | discriminate].
      erewrite retry_loop_retry;
        [| now apply (timed_invalid (alert va w))
         | rewrite invalid_error_retryable; cbn; now rewrite Hon
         | discriminate].
      erewrite retry_loop_stop;
        [| now apply (timed_invalid (alert va (alert va w)))
         | left; reflexivity].
      repeat split. }
  destruct Hinner as [Hon Hoff].
  assert (Hout : outcome inner = Thrown (Some invalid_error)).
  { destruct (isOnline w) eqn:E.
    - now rewrite (Hon eq_refl).
    - now destruct (Hoff eq_refl). }
  destruct (safeOperation_catches random
              (PostManager.submitOperation marked_parse toLocaleDateString)
              "Submit Post" true w invalid_error _ Hout eq_refl)
    as [text [_ [Hres [Hatt Hworld]]]].
  fold inner in Hatt, Hworld.
  change (safeOperation random
            (PostManager.submitOperation marked_parse toLocaleDateString)
            "Submit Post" true w) with run in Hres, Hatt, Hworld.
  rewrite Hworld, Hatt.
  destruct (isOnline w) eqn:E.
  - rewrite (Hon eq_refl). cbn.
    split; [reflexivity|]. split.
    + exists (first_empty_field w), ["❌ " +:+ text]. split; [exact Hfield|].
      now rewrite <- app_assoc.
    + split; [exact Hres|]. split; [|discriminate].
      intros _. split; [reflexivity|].
      unfold run, PostManager.submitPost_run, safeOperation.
      fold inner. rewrite (Hon eq_refl). cbn.
      destruct (getUserFriendlyErrorMessage _ _ _); reflexivity.
  - destruct (Hoff eq_refl) as [_ [Hw Ha]]. rewrite Hw, Ha. cbn.
    split; [reflexivity|]. split.
    + exists (first_empty_field w), [va; va; "❌ " +:+ text].
      split; [exact Hfield|]. now rewrite <- !app_assoc.
    + split; [exact Hres|]. split; [discriminate | reflexivity].
Qed.

End SubmitFacts.

(** ** Loading the posts *)

Section LoadFacts.

Import ErrorHandler.

Variable random : Z -> Q.
Variable marked_parse : string -> bool -> string.
Variable toLocaleDateString : Z -> string.

Lemma hasLiked_cookies (id : N) (w1 w2 : World) :
  cookies w1 = cookies w2 ->
  CookieManager.hasLiked id w1 = CookieManager.hasLiked id w2.
Proof.
  intros H. unfold CookieManager.hasLiked, CookieManager.get, Document.cookie.
  now rewrite H.
Qed.

Lemma rendered_cookies (isLoggedIn : bool) (w1 w2 : World) (post : Row) :
  cookies w1 = cookies w2 ->
  rendered marked_parse toLocaleDateString isLoggedIn w1 post
  = rendered marked_parse toLocaleDateString isLoggedIn w2 post.
Proof.
  intros H. unfold rendered. now rewrite (hasLiked_cookies _ w1 w2 H).
Qed.

Lemma addOne_prepends (isLoggedIn : bool) (w : World) (post : Row)
    (children : list PostElement) :
  logContainer w = Some children ->
  App.show_post marked_parse toLocaleDateString isLoggedIn w post
  = set_logContainer
      (Some (rendered marked_parse toLocaleDateString isLoggedIn w post
             :: children)) w.
Proof.
  intros H. unfold App.show_post, UIManager.addPostToUI. now rewrite H.
Qed.

(** [forEach] over the fetched rows: every row is put in front of
    what is displayed so far. *)
Lemma forEach_prepends (isLoggedIn : bool) (data : list Row) :
  forall (w : World) (children : list PostElement),
    logContainer w = Some children ->
    fold_left (App.show_post marked_parse toLocaleDateString isLoggedIn) data w
    = set_logContainer
        (Some (map (rendered marked_parse toLocaleDateString isLoggedIn w)
                 (rev data) ++ children)) w.
Proof.
  induction data as [|post data IH]; intros w children Hc.
  - cbn. rewrite <- Hc. now destruct w.
  - cbn [fold_left]. rewrite (addOne_prepends _ _ _ _ Hc).
    erewrite IH by reflexivity.
    cbn [rev]. rewrite map_app, <- app_assoc. cbn [map app].
    unfold set_logContainer; cbn. now do 3 f_equal.
Qed.

Lemma StronglySorted_snoc {A} (R : A -> A -> Prop) (l : list A) (x : A) :
  StronglySorted R l -> Forall (fun y => R y x) l ->
  StronglySorted R (l ++ [x]).
Proof.
  induction 1 as [|a l Hs IH Ha]; intros Hx; cbn.
  - repeat constructor.
  - inversion Hx; subst. constructor; [now apply IH|].
    apply Forall_app. split; [exact Ha | now repeat constructor].
Qed.

Lemma older_first_rev (data : list Row) :
  StronglySorted older_first data -> StronglySorted newer_first (rev data).
Proof.
  induction 1 as [|a l Hs IH Ha]; cbn; [constructor|].
  apply StronglySorted_snoc; [exact IH|].
  apply List.Forall_forall. intros y Hy. apply in_rev in Hy.
  rewrite List.Forall_forall in Ha. exact (Ha y Hy).
Qed.

(** C7. When the fetch answers with the rows [data] (ascending by
    creation time), [loadPosts] puts each row in front of the list in
    fetch order, so that what is displayed is the fetched list
    reversed, the newest post first, whatever the length. *)
Theorem loadPosts_displays_reversed (isLoggedIn : bool) (w : World)
    (data : list Row) (children : list PostElement) :
  logContainer w = Some children ->
  backend w (requests w ++ [SelectAllPosts]) = Answer None (DRows data) ->
  let result :=
    App.loadPosts random marked_parse toLocaleDateString isLoggedIn w in
  fst result = Returned true
  /\ logContainer (snd result)
     = Some (map (rendered marked_parse toLocaleDateString isLoggedIn w)
               (rev data) ++ children)
  /\ requests (snd result) = requests w ++ [SelectAllPosts]
  /\ (StronglySorted older_first data ->
      StronglySorted newer_first (rev data)).
Proof.
  intros Hc Hb result.
  assert (Hop : App.loadOperation marked_parse toLocaleDateString isLoggedIn w
                = (Resolved data,
                   fold_left (App.show_post marked_parse toLocaleDateString isLoggedIn) data
                     (set_requests (requests w ++ [SelectAllPosts]) w))).
  { unfold App.loadOperation, remote. now rewrite Hb. }
  assert (Hrun : App.loadPosts_run random marked_parse toLocaleDateString
                   isLoggedIn w
                 = mkRun (Returned (Some data))
                     (fold_left (App.show_post marked_parse toLocaleDateString isLoggedIn) data
                        (set_requests (requests w ++ [SelectAllPosts]) w))
                     1 [] []).
  { unfold App.loadPosts_run, safeOperation, retryWithBackoff.
    change (Z.to_nat CONFIG.MAX_RETRIES) with 3%nat.
    erewrite retry_loop_resolved; [reflexivity|].
    unfold timed. now rewrite Hop. }
  subst result. unfold App.loadPosts. rewrite Hrun.
  unfold not_null. cbn [outcome world fst snd].
  rewrite (forEach_prepends isLoggedIn data _ children) by exact Hc.
  split; [reflexivity|]. split; [|split].
  - reflexivity.
  - reflexivity.
  - apply older_first_rev.
Qed.

End LoadFacts.

(** ** Draft auto-save *)

Section AutoSaveFacts.

Import App.

Lemma run_snoc (evs : list Event) (ev : Event) (w : World) :
  run (evs ++ [ev]) w = step ev (run evs w).
Proof. unfold run. now rewrite fold_left_app. Qed.

Lemma handleInput_blank (text : string)
    (setTimer : option Timer -> World -> World) (w : World) :
  JS.trim text = EmptyString ->
  PerformanceUtils.handleInput (Some text) setTimer w = w.
Proof. intros H. unfold PerformanceUtils.handleInput. now rewrite H. Qed.

Lemma handleInput_text (text : string)
    (setTimer : option Timer -> World -> World) (w : World) :
  JS.trim text <> EmptyString ->
  PerformanceUtils.handleInput (Some text) setTimer w
  = setTimer
      (Some (mkTimer (now w + CONFIG.AUTO_SAVE_DELAY) text
               (PerformanceUtils.next_order w))) w.
Proof.
  intros H. unfold PerformanceUtils.handleInput, PerformanceUtils.debounce.
  destruct (JS.trim text); [contradiction | reflexivity].
Qed.

(** What a save callback leaves alone. *)
Lemma fire_content_frame (w : World) :
  postTitle (fire_content w) = postTitle w
  /\ postContent (fire_content w) = postContent w
  /\ logContainer (fire_content w) = logContainer w
  /\ requests (fire_content w) = requests w
  /\ backend (fire_content w) = backend w
  /\ alerts (fire_content w) = alerts w
  /\ notifications (fire_content w) = notifications w
  /\ cookies (fire_content w) = cookies w
  /\ isOnline (fire_content w) = isOnline w
  /\ console (fire_content w) = console w
  /\ postModalHidden (fire_content w) = postModalHidden w
  /\ now (fire_content w) = now w
  /\ titleTimer (fire_content w) = titleTimer w.
Proof.
  unfold fire_content. destruct (contentTimer w) as [t|]; [|repeat split].
  destruct (deadline t <=? now w)%N; repeat split.
Qed.

Lemma fire_title_frame (w : World) :
  postTitle (fire_title w) = postTitle w
  /\ postContent (fire_title w) = postContent w
  /\ logContainer (fire_title w) = logContainer w
  /\ requests (fire_title w) = requests w
  /\ backend (fire_title w) = backend w
  /\ alerts (fire_title w) = alerts w
  /\ notifications (fire_title w) = notifications w
  /\ cookies (fire_title w) = cookies w
  /\ isOnline (fire_title w) = isOnline w
  /\ console (fire_title w) = console w
  /\ postModalHidden (fire_title w) = postModalHidden w
  /\ now (fire_title w) = now w
  /\ contentTimer (fire_title w) = contentTimer w.
Proof.
  unfold fire_title. destruct (titleTimer w) as [t|]; [|repeat split].
  destruct (deadline t <=? now w)%N; repeat split.
Qed.

(** Time that passes touches the clock, the timers and the drafts,
    and nothing else. *)
Lemma elapse_frame (ms : N) (w : World) :
  let w' := step (Elapse ms) w in
  postTitle w' = postTitle w
  /\ postContent w' = postContent w
  /\ logContainer w' = logContainer w
  /\ requests w' = requests w
  /\ backend w' = backend w
  /\ alerts w' = alerts w
  /\ notifications w' = notifications w
  /\ cookies w' = cookies w
  /\ isOnline w' = isOnline w
  /\ console w' = console w
  /\ postModalHidden w' = postModalHidden w
  /\ now w' = (now w + ms)%N.
Proof.
  cbv zeta. cbn [step]. unfold fire_due.
  set (w0 := set_now (now w + ms)%N w).
  assert (H : forall w1,
             (w1 = fire_title (fire_content w0)
              \/ w1 = fire_content (fire_title w0)) ->
             postTitle w1 = postTitle w
             /\ postContent w1 = postContent w
             /\ logContainer w1 = logContainer w
             /\ requests w1 = requests w
             /\ backend w1 = backend w
             /\ alerts w1 = alerts w
             /\ notifications w1 = notifications w
             /\ cookies w1 = cookies w
             /\ isOnline w1 = isOnline w
             /\ console w1 = console w
             /\ postModalHidden w1 = postModalHidden w
             /\ now w1 = (now w + ms)%N).
  { intros w1 [-> | ->].
    - destruct (fire_title_frame (fire_content w0))
        as (H1 & H2 & H3 & H4 & H5 & H6 & H7 & H8 & H9 & H10 & H11 & H12 & _).
      destruct (fire_content_frame w0)
        as (G1 & G2 & G3 & G4 & G5 & G6 & G7 & G8 & G9 & G10 & G11 & G12 & _).
      rewrite H1, H2, H3, H4, H5, H6, H7, H8, H9, H10, H11, H12.
      rewrite G1, G2, G3, G4, G5, G6, G7, G8, G9, G10, G11, G12.
      repeat split.
    - destruct (fire_content_frame (fire_title w0))
        as (H1 & H2 & H3 & H4 & H5 & H6 & H7 & H8 & H9 & H10 & H11 & H12 & _).
      destruct (fire_title_frame w0)
        as (G1 & G2 & G3 & G4 & G5 & G6 & G7 & G8 & G9 & G10 & G11 & G12 & _).
      rewrite H1, H2, H3, H4, H5, H6, H7, H8, H9, H10, H11, H12.
      rewrite G1, G2, G3, G4, G5, G6, G7, G8, G9, G10, G11, G12.
      repeat split. }
  destruct (contentTimer w0) as [c|]; [destruct (titleTimer w0) as [t|]|];
    [destruct (runs_first t c)| |]; apply H; auto.
Qed.

(** What one event leaves alone when it types white space only and no
    save is pending. *)
Lemma step_blank_frame (ev : Event) (w : World) :
  types_blank ev ->
  contentTimer w = None -> titleTimer w = None ->
  let w' := step ev w in
  localStorage w' = localStorage w /\ setItems w' = setItems w
  /\ contentTimer w' = None /\ titleTimer w' = None.
Proof.
  intros Hb Hc Ht. destruct ev as [text|text| | |ms]; cbn [step types_blank] in *.
  - destruct (postContent w); [|auto].
    unfold content_handleInput. cbn [postContent set_postContent].
    rewrite handleInput_blank by exact Hb. cbn. auto.
  - destruct (postTitle w); [|auto].
    unfold title_handleInput. cbn [postTitle set_postTitle].
    rewrite handleInput_blank by exact Hb. cbn. auto.
  - unfold content_handleFocus.
    destruct (postContent w); [|auto].
    destruct (localStorage w !! draft_post_content); [|auto].
    destruct (_ && _); cbn; auto.
  - unfold title_handleFocus.
    destruct (postTitle w); [|auto].
    destruct (localStorage w !! draft_post_title); [|auto].
    destruct (_ && _); cbn; auto.
  - unfold fire_due, fire_title, fire_content. cbn. rewrite Hc. cbn.
    rewrite Ht. auto.
Qed.

(** C9. An input event on a field whose value is empty or white
    space only schedules nothing: the handler leaves the world as it
    is, so the pending timer, the stored drafts and the record of
    writes are those from before; and once a draft is saved (no save
    pending), no run of such events and of time passing erases or
    overwrites it. *)
Theorem blank_input_keeps_draft (text : string) (w : World) :
  JS.trim text = EmptyString ->
  (forall setTimer,
      PerformanceUtils.handleInput (Some text) setTimer w = w)
  /\ (let w' := step (TypeContent text) w in
      localStorage w' = localStorage w /\ setItems w' = setItems w
      /\ contentTimer w' = contentTimer w /\ titleTimer w' = titleTimer w)
  /\ (let w' := step (TypeTitle text) w in
      localStorage w' = localStorage w /\ setItems w' = setItems w
      /\ contentTimer w' = contentTimer w /\ titleTimer w' = titleTimer w)
  /\ (forall evs,
        Forall types_blank evs ->
        contentTimer w = None -> titleTimer w = None ->
        localStorage (run (TypeContent text :: evs) w) = localStorage w
        /\ setItems (run (TypeContent text :: evs) w) = setItems w).
Proof.
  intros Hb. split; [|split; [|split]].
  - intros setTimer. now apply handleInput_blank.
  - cbn [step]. destruct (postContent w); [|auto].
    unfold content_handleInput. cbn [postContent set_postContent].
    rewrite handleInput_blank by exact Hb. cbn. auto.
  - cbn [step]. destruct (postTitle w); [|auto].
    unfold title_handleInput. cbn [postTitle set_postTitle].
    rewrite handleInput_blank by exact Hb. cbn. auto.
  - intros evs Hevs Hc Ht.
    assert (Hall : Forall types_blank (TypeContent text :: evs))
      by (constructor; [exact Hb | exact Hevs]).
    clear Hevs Hb. revert w Hc Ht.
    induction Hall as [|ev l Hev _ IH]; intros w Hc Ht; [auto|].
    destruct (step_blank_frame ev w Hev Hc Ht) as [Hl [Hs [Hc' Ht']]].
    change (run (ev :: l) w) with (run l (step ev w)).
    destruct (IH _ Hc' Ht') as [IH1 IH2].
    rewrite IH1, IH2. auto.
Qed.

Lemma step_keeps_content_field (ev : Event) (w : World) :
  is_Some (postContent w) -> is_Some (postContent (step ev w)).
Proof.
  intros [v Hv]. destruct ev as [text|text| | |ms]; cbn [step].
  - rewrite Hv. unfold content_handleInput, PerformanceUtils.handleInput.
    cbn [postContent set_postContent].
    destruct (JS.truthy _); cbn; eauto.
  - destruct (postTitle w); [|eauto].
    unfold title_handleInput, PerformanceUtils.handleInput.
    cbn [postTitle set_postTitle].
    destruct (JS.truthy _); cbn; eauto.
  - unfold content_handleFocus. rewrite Hv.
    destruct (localStorage w !! draft_post_content); [|eauto].
    destruct (_ && _); cbn; eauto.
  - unfold title_handleFocus.
    destruct (postTitle w); [|eauto].
    destruct (localStorage w !! draft_post_title); [|eauto].
    destruct (_ && _); cbn; eauto.
  - destruct (elapse_frame ms w) as (_ & Hp & _). cbn [step] in Hp.
    rewrite Hp. eauto.
Qed.

Lemma run_keeps_content_field (evs : list Event) (w : World) :
  is_Some (postContent w) -> is_Some (postContent (run evs w)).
Proof.
  revert w; induction evs as [|ev evs IH]; intros w H; [exact H|].
  change (run (ev :: evs) w) with (run evs (step ev w)).
  apply IH. now apply step_keeps_content_field.
Qed.

Section Drafts.

Variable random : Z -> Q.
Variable marked_parse : string -> bool -> string.
Variable toLocaleDateString : Z -> string.

Lemma trim_nonempty_truthy (text : string) :
  JS.trim text <> EmptyString -> JS.truthy text = true.
Proof. destruct text; [intros H; now contradiction H | reflexivity]. Qed.

(** After typing [text] the content timer is the one armed for it. *)
Lemma typed_content (text : string) (w : World) :
  is_Some (postContent w) -> JS.trim text <> EmptyString ->
  let w1 := step (TypeContent text) w in
  (exists k,
     contentTimer w1 = Some (mkTimer (now w + CONFIG.AUTO_SAVE_DELAY) text k))
  /\ postContent w1 = Some text /\ now w1 = now w
  /\ titleTimer w1 = titleTimer w /\ setItems w1 = setItems w
  /\ localStorage w1 = localStorage w.
Proof.
  intros [v Hv] Ht. cbn [step]. rewrite Hv.
  unfold content_handleInput. cbn [postContent set_postContent].
  rewrite handleInput_text by exact Ht. cbn. split; [eauto | auto 6].
Qed.

(** When the content timer has come due, the passing of time runs its
    save: the value is written once, before or after a save of the
    title that is due as well. *)
Lemma elapse_saves_content (w1 : World) (t : Timer) (ms : N) :
  contentTimer w1 = Some t -> (deadline t <= now w1 + ms)%N ->
  let w2 := step (Elapse ms) w1 in
  localStorage w2 !! draft_post_content = Some (saved_arg t)
  /\ contentTimer w2 = None
  /\ (exists before after,
        setItems w2
        = setItems w1 ++ before ++ (draft_post_content, saved_arg t) :: after
        /\ Forall (fun kv => fst kv = draft_post_title) before
        /\ Forall (fun kv => fst kv = draft_post_title) after).
Proof.
  intros Hc Hdue. cbv zeta. cbn [step]. unfold fire_due.
  cbn [contentTimer titleTimer set_now]. rewrite Hc.
  assert (Hd : (deadline t <=? now w1 + ms)%N = true) by now apply N.leb_le.
  destruct (titleTimer w1) as [tt|] eqn:Ht.
  - destruct (runs_first tt t);
      destruct (deadline tt <=? now w1 + ms)%N eqn:Hdt;
      unfold fire_title, fire_content;
      cbn [contentTimer titleTimer set_now now]; rewrite ?Hc, ?Ht, ?Hdt;
      cbn [contentTimer titleTimer set_now now localStorage_setItem
           set_setItems set_localStorage set_contentTimer set_titleTimer];
      rewrite ?Hc, ?Ht, ?Hd, ?Hdt;
      cbn [contentTimer titleTimer set_now now localStorage_setItem
           set_setItems set_localStorage set_contentTimer set_titleTimer
           localStorage setItems];
      rewrite ?Hc, ?Ht, ?Hd, ?Hdt;
      cbn [contentTimer titleTimer set_now now localStorage_setItem
           set_setItems set_localStorage set_contentTimer set_titleTimer
           localStorage setItems].
    + split; [apply lookup_insert_eq|]. split; [reflexivity|].
      exists [(draft_post_title, saved_arg tt)], [].
      rewrite <- app_assoc. repeat split; repeat constructor.
    + split; [apply lookup_insert_eq|]. split; [reflexivity|].
      exists [], []. repeat split; constructor.
    + split.
      { rewrite lookup_insert_ne by discriminate. apply lookup_insert_eq. }
      split; [reflexivity|].
      exists [], [(draft_post_title, saved_arg tt)].
      rewrite <- app_assoc. repeat split; repeat constructor.
    + split; [apply lookup_insert_eq|]. split; [reflexivity|].
      exists [], []. repeat split; constructor.
  - unfold fire_title, fire_content.
    cbn [contentTimer titleTimer set_now now]. rewrite Hc, Hd.
    cbn [contentTimer titleTimer set_now now localStorage_setItem
         set_setItems set_localStorage set_contentTimer set_titleTimer].
    rewrite Ht.
    cbn [localStorage setItems set_setItems set_localStorage
         set_contentTimer set_now contentTimer].
    split; [apply lookup_insert_eq|]. split; [reflexivity|].
    exists [], []. repeat split; constructor.
Qed.


(** C8 (amended). For every sequence of events on the page that ends
    with the content field edited to a text that is not empty or
    white space only, followed by at least the debounce interval
    without input: exactly one value is written under the content
    key in that interval, it is the final text, and it is what local
    storage holds; a later focus on the field while it is empty or
    white space only puts that text back; and a submission that
    succeeds, however long it takes, removes both draft keys. *)
Theorem draft_saved_restored_cleared (w : World) (evs : list Event)
    (text : string) (ms : N) :
  is_Some (postContent w) ->
  JS.trim text <> EmptyString ->
  (CONFIG.AUTO_SAVE_DELAY <= ms)%N ->
  let w1 := run (evs ++ [TypeContent text]) w in
  let w2 := step (Elapse ms) w1 in
  localStorage w2 !! draft_post_content = Some text
  /\ contentTimer w2 = None
  /\ (exists before after,
        setItems w2
        = setItems w1 ++ before ++ (draft_post_content, text) :: after
        /\ Forall (fun kv => fst kv = draft_post_title) before
        /\ Forall (fun kv => fst kv = draft_post_title) after)
  /\ (forall blank,
        JS.trim blank = EmptyString ->
        postContent (step FocusContent (set_postContent (Some blank) w2))
        = Some text)
  /\ (forall elapsed w3 w4,
        is_Some (postContent w3) ->
        submitPost random marked_parse toLocaleDateString elapsed w3
        = (Returned true, w4) ->
        localStorage w4 !! draft_post_content = None
        /\ localStorage w4 !! draft_post_title = None).
Proof.
  intros Hfield Htext Hms w1 w2.
  pose proof (run_keeps_content_field evs w Hfield) as Hf0.
  destruct (typed_content text (run evs w) Hf0 Htext)
    as [[k Htimer] [Hvalue [Hnow [Htt [Hsi Hls]]]]].
  rewrite <- run_snoc in Htimer, Hvalue, Hnow, Htt, Hsi, Hls.
  fold w1 in Htimer, Hvalue, Hnow, Htt, Hsi, Hls.
  destruct (elapse_saves_content w1 _ ms Htimer)
    as (Hstore & Hnone & Hwrites); [cbn [deadline]; lia|].
  fold w2 in Hstore, Hnone, Hwrites. cbn [saved_arg] in Hstore, Hwrites.
  split; [exact Hstore|]. split; [exact Hnone|]. split; [exact Hwrites|].
  split.
  - intros blank Hblank. cbn [step]. unfold content_handleFocus.
    cbn [postContent set_postContent localStorage].
    rewrite Hstore, Hblank. rewrite (trim_nonempty_truthy text Htext).
    reflexivity.
  - intros elapsed w3 w4 [v Hv] Hsub. unfold submitPost in Hsub.
    destruct (PostManager.submitPost random marked_parse
                toLocaleDateString (step (Elapse elapsed) w3)) as [result w'].
    rewrite Hv in Hsub.
    destruct result as [[|]|e|]; try discriminate Hsub.
    injection Hsub as <-.
    unfold localStorage_removeItem. cbn. split.
    + rewrite lookup_delete_ne by discriminate. apply lookup_delete_eq.
    + apply lookup_delete_eq.
Qed.

End Drafts.

End AutoSaveFacts.

(** ** Cookies *)

Section CookieFacts.

Lemma free_of_append (c : ascii) (a b : string) :
  free_of c (a +:+ b) = free_of c a && free_of c b.
Proof.
  induction a as [|x a IH]; cbn; [reflexivity|].
  now rewrite IH, andb_assoc.
Qed.

Lemma before_free (c : ascii) (a rest : string) :
  free_of c a = true -> JS.before c (a +:+ String c rest) = a.
Proof.
  induction a as [|x a IH]; cbn; intros H.
  - now rewrite Ascii.eqb_refl.
  - apply andb_true_iff in H as [Hx Ha]. apply negb_true_iff in Hx.
    rewrite Hx. now rewrite IH.
Qed.

Lemma before_free_all (c : ascii) (a : string) :
  free_of c a = true -> JS.before c a = a.
Proof.
  induction a as [|x a IH]; cbn; intros H; [reflexivity|].
  apply andb_true_iff in H as [Hx Ha]. apply negb_true_iff in Hx.
  rewrite Hx. now rewrite IH.
Qed.

Lemma after_free (c : ascii) (a rest : string) :
  free_of c a = true -> JS.after c (a +:+ String c rest) = Some rest.
Proof.
  induction a as [|x a IH]; cbn; intros H.
  - now rewrite Ascii.eqb_refl.
  - apply andb_true_iff in H as [Hx Ha]. apply negb_true_iff in Hx.
    rewrite Hx. now apply IH.
Qed.

Lemma prefix_other_char (c x : ascii) (sep' s : string) :
  Ascii.eqb x c = false -> String.prefix (String c sep') (String x s) = false.
Proof.
  intros H. cbn. destruct (ascii_dec c x) as [->|]; [|reflexivity].
  now rewrite Ascii.eqb_refl in H.
Qed.

(** Splitting runs over a piece that has no first character of the
    separator in it. *)
Lemma split_go_piece (c : ascii) (sep' piece : string) :
  free_of c piece = true ->
  forall cur rest,
    JS.split_go (String c sep') O cur (piece +:+ rest)
    = JS.split_go (String c sep') O (cur +:+ piece) rest.
Proof.
  induction piece as [|x piece IH]; intros H cur rest.
  - now rewrite append_nil_r.
  - cbn [free_of] in H. apply andb_true_iff in H as [Hx Hp].
    apply negb_true_iff in Hx.
    change (String x piece +:+ rest) with (String x (piece +:+ rest)).
    cbn [JS.split_go]. rewrite (prefix_other_char c x) by exact Hx.
    rewrite IH by exact Hp. now rewrite append_assoc.
Qed.

Lemma numeral_free (c : ascii) (d : Decimal.uint) :
  (nat_of_ascii c <? 48)%nat || (57 <? nat_of_ascii c)%nat = true ->
  free_of c (NilEmpty.string_of_uint d) = true.
Proof.
  intros Hc. induction d; cbn [NilEmpty.string_of_uint free_of];
    [reflexivity | ..]; rewrite IHd, andb_true_r;
    apply negb_true_iff, Ascii.eqb_neq; intros <-; discriminate Hc.
Qed.

Lemma strip_wsp_plain (s : string) :
  free_of " " s = true -> free_of (ascii_of_nat 9) s = true ->
  Document.strip_wsp s = s.
Proof.
  intros Hs Ht. unfold Document.strip_wsp.
  assert (Hskip : forall x, free_of " " x = true ->
                    free_of (ascii_of_nat 9) x = true ->
                    Document.skip_wsp x = x).
  { intros [|c x] H1 H2; [reflexivity|]. cbn [free_of] in H1, H2.
    apply andb_true_iff in H1 as [H1 _]. apply andb_true_iff in H2 as [H2 _].
    cbn [Document.skip_wsp]. unfold Document.is_wsp.
    apply negb_true_iff in H1, H2. now rewrite H1, H2. }
  rewrite Hskip by assumption.
  induction s as [|c s IH]; [reflexivity|].
  cbn [Document.cut_wsp]. rewrite (Hskip (String c s)) by assumption.
  cbn [free_of] in Hs, Ht.
  apply andb_true_iff in Hs as [_ Hs]. apply andb_true_iff in Ht as [_ Ht].
  now rewrite IH.
Qed.

(** A numeral is read back as a [max-age]. *)
Lemma delta_seconds_numeral (n : N) :
  Document.delta_seconds (JS.show n) = Some (Z.of_N n).
Proof.
  unfold JS.show.
  assert (Hnn : N.to_uint n <> Decimal.Nil).
  { destruct n; [discriminate | apply DecimalPos.Unsigned.to_uint_nonnil]. }
  pose proof (NilEmpty.usu (N.to_uint n)) as Hu.
  pose proof (DecimalN.Unsigned.of_to n) as Hof.
  unfold Document.delta_seconds.
  destruct (N.to_uint n) as [|d|d|d|d|d|d|d|d|d|d];
    [now contradiction Hnn | ..];
    cbn [NilEmpty.string_of_uint] in *;
    (match goal with
     | |- context [Ascii.eqb ?c "-"] => change (Ascii.eqb c "-") with false
     end; cbv iota beta; rewrite Hu, Hof; reflexivity).
Qed.

Lemma max_age_set (pair : string) (maxAge : N) :
  free_of ";" pair = true ->
  Document.max_age
    (pair +:+ "; max-age=" +:+ JS.show maxAge +:+ "; path=/")
  = Some (Z.of_N maxAge).
Proof.
  intros Hp. unfold Document.max_age.
  change (pair +:+ "; max-age=" +:+ JS.show maxAge +:+ "; path=/")
    with (pair +:+ String ";" (" max-age=" +:+ JS.show maxAge +:+ "; path=/")).
  rewrite after_free by exact Hp.
  assert (Hshow : forall c,
             (nat_of_ascii c <? 48)%nat || (57 <? nat_of_ascii c)%nat = true ->
             free_of c (JS.show maxAge) = true)
    by (intros c Hc; now apply numeral_free).
  assert (Hsplit : JS.split (" max-age=" +:+ JS.show maxAge +:+ "; path=/") ";"
                   = [" max-age=" +:+ JS.show maxAge; " path=/"]).
  { unfold JS.split.
    rewrite <- (append_assoc " max-age=" (JS.show maxAge) "; path=/").
    rewrite split_go_piece
      by (rewrite free_of_append, Hshow by reflexivity; reflexivity).
    cbn [String.append].
    change ("; path=/") with (String ";" " path=/").
    cbn [JS.split_go]. rewrite prefix_same_char, prefix_nil.
    cbn [String.length Nat.sub]. reflexivity. }
  rewrite Hsplit. cbn [fold_left].
  change (String.eqb
            (JS.toLowerCase (Document.strip_wsp (JS.before "=" " path=/")))
            "max-age") with false.
  cbv iota.
  change (" max-age=" +:+ JS.show maxAge)
    with (" max-age" +:+ String "=" (JS.show maxAge)).
  rewrite before_free, after_free by reflexivity.
  change (String.eqb (JS.toLowerCase (Document.strip_wsp " max-age")) "max-age")
    with true.
  cbv iota.
  rewrite (strip_wsp_plain (JS.show maxAge)) by (apply Hshow; reflexivity).
  rewrite delta_seconds_numeral. reflexivity.
Qed.

(** What [CookieManager.set] does to the store: with a positive
    [maxAge] the pair is stored, with [maxAge] zero the cookie of the
    name is removed. *)
Lemma set_effect (name value : string) (maxAge : N) (w : World) :
  cookie_name_ok name = true -> free_of ";" value = true ->
  CookieManager.set name value maxAge w
  = set_cookies
      (if (maxAge =? 0)%N then Document.remove name (cookies w)
       else Document.store name value (cookies w)) w.
Proof.
  intros Hn Hv. unfold cookie_name_ok in Hn.
  apply andb_true_iff in Hn as [Hn Heq]. apply andb_true_iff in Hn as [_ Hsc].
  unfold CookieManager.set, Document.set_cookie.
  assert (Hfree : free_of ";" (name +:+ "=" +:+ value) = true)
    by (rewrite !free_of_append, Hsc, Hv; reflexivity).
  assert (Hpair : JS.before ";"
            (name +:+ "=" +:+ value +:+ "; max-age=" +:+ JS.show maxAge
             +:+ "; path=/")
          = name +:+ "=" +:+ value).
  { change ("; max-age=" +:+ JS.show maxAge +:+ "; path=/")
      with (String ";" (" max-age=" +:+ JS.show maxAge +:+ "; path=/")).
    rewrite <- (append_assoc "=" value), <- (append_assoc name).
    now rewrite before_free. }
  assert (Hage : Document.max_age
                   (name +:+ "=" +:+ value +:+ "; max-age="
                    +:+ JS.show maxAge +:+ "; path=/")
                 = Some (Z.of_N maxAge)).
  { rewrite <- (max_age_set (name +:+ "=" +:+ value) maxAge Hfree).
    f_equal. now rewrite !append_assoc. }
  rewrite Hpair, Hage.
  change (name +:+ "=" +:+ value) with (name +:+ String "=" value).
  rewrite after_free, before_free by exact Heq.
  destruct (N.eqb_spec maxAge 0) as [->|Hne]; [reflexivity|].
  destruct (Z.leb_spec (Z.of_N maxAge) 0); [lia | reflexivity].
Qed.

(** Assigning [name=value; max-age=...; path=/] with a positive
    [max-age] stores the pair. *)
Lemma set_stores (name value : string) (maxAge : N) (w : World) :
  cookie_name_ok name = true -> free_of ";" value = true ->
  maxAge <> 0%N ->
  CookieManager.set name value maxAge w
  = set_cookies (Document.store name value (cookies w)) w.
Proof.
  intros Hn Hv Hm. rewrite set_effect by assumption.
  now destruct (N.eqb_spec maxAge 0).
Qed.

Lemma COOKIE_MAX_AGE_positive : CONFIG.COOKIE_MAX_AGE <> 0%N.
Proof. discriminate. Qed.

Lemma remove_lookup (name name' : string) (jar : list (string * string)) :
  jar_lookup name (Document.remove name' jar)
  = if String.eqb name' name then None else jar_lookup name jar.
Proof.
  unfold Document.remove.
  induction jar as [|[n v] jar IH]; cbn [List.filter fst jar_lookup].
  - now destruct (String.eqb name' name).
  - destruct (String.eqb_spec n name') as [->|Hne]; cbn [negb jar_lookup].
    + rewrite IH. destruct (String.eqb_spec name' name); reflexivity.
    + rewrite IH. destruct (String.eqb_spec n name) as [->|Hn]; [|reflexivity].
      destruct (String.eqb_spec name' name) as [->|]; [contradiction|reflexivity].
Qed.

Lemma remove_wf (name : string) (jar : list (string * string)) :
  wf_jar jar -> wf_jar (Document.remove name jar).
Proof.
  unfold wf_jar, Document.remove. intros H.
  apply List.Forall_forall. intros c Hin. apply filter_In in Hin as [Hin _].
  rewrite List.Forall_forall in H. now apply H.
Qed.

Lemma store_lookup (name name' value : string) (jar : list (string * string)) :
  jar_lookup name (Document.store name' value jar)
  = if String.eqb name' name then Some value else jar_lookup name jar.
Proof.
  induction jar as [|[n v] jar IH]; cbn.
  - reflexivity.
  - destruct (String.eqb_spec n name') as [->|Hne]; cbn.
    + destruct (String.eqb name' name); reflexivity.
    + rewrite IH. destruct (String.eqb_spec n name) as [->|Hn]; [|reflexivity].
      destruct (String.eqb_spec name' name) as [->|]; [contradiction|reflexivity].
Qed.

Lemma store_wf (name value : string) (jar : list (string * string)) :
  cookie_name_ok name = true -> free_of ";" value = true ->
  wf_jar jar -> wf_jar (Document.store name value jar).
Proof.
  intros Hn Hv Hjar.
  assert (Hc : wf_cookie (name, value) = true).
  { unfold wf_cookie. cbn. now rewrite Hn, Hv. }
  induction Hjar as [|[n v] jar Hnv Hjar IH]; cbn.
  - repeat constructor. exact Hc.
  - destruct (String.eqb n name); constructor; auto.
Qed.

Lemma split_go_end (sep cur : string) : JS.split_go sep O cur EmptyString = [cur].
Proof. reflexivity. Qed.

Lemma split_go_semicolon (cur rest : string) :
  JS.split_go "; " O cur ("; " +:+ rest)
  = cur :: JS.split_go "; " O EmptyString rest.
Proof. cbn. now rewrite prefix_nil. Qed.

(** Splitting the joined rows gives the rows back. *)
Lemma split_join_rows (rows : list string) :
  Forall (fun r => free_of ";" r = true) rows ->
  forall r cur,
    free_of ";" r = true ->
    JS.split_go "; " O cur (String.concat "; " (r :: rows))
    = (cur +:+ r) :: rows.
Proof.
  induction 1 as [|r' rows Hr' _ IH]; intros r cur Hr.
  - cbn [String.concat]. rewrite <- (append_nil_r r) at 1.
    now rewrite split_go_piece.
  - change (String.concat "; " (r :: r' :: rows))
      with (r +:+ "; " +:+ String.concat "; " (r' :: rows)).
    rewrite split_go_piece by exact Hr.
    rewrite split_go_semicolon. now rewrite IH.
Qed.

Lemma split_cookie (jar : list (string * string)) :
  Forall (fun r => free_of ";" r = true) (map Document.row jar) ->
  JS.split (JS.join (map Document.row jar) "; ") "; "
  = match jar with [] => [EmptyString] | _ => map Document.row jar end.
Proof.
  intros H. destruct jar as [|c jar]; [reflexivity|].
  cbn [map] in *. inversion H; subst.
  unfold JS.split, JS.join. now rewrite split_join_rows.
Qed.

Lemma prefix_of_name (a b v : string) :
  free_of "=" a = true -> free_of "=" b = true ->
  String.prefix (a +:+ "=") (b +:+ String "=" v) = String.eqb b a.
Proof.
  revert b; induction a as [|x a IH]; intros b Ha Hb.
  - destruct b as [|y b]; [cbn; now rewrite prefix_nil|].
    cbn [free_of] in Hb. apply andb_true_iff in Hb as [Hy _].
    apply negb_true_iff in Hy.
    change (String.prefix "=" (String y (b +:+ String "=" v)) = false).
    now apply prefix_other_char.
  - cbn [free_of] in Ha. apply andb_true_iff in Ha as [Hx Ha].
    apply negb_true_iff in Hx.
    destruct b as [|y b].
    + change (String.prefix (String x (a +:+ "=")) (String "=" v) = false).
      apply prefix_other_char. now rewrite Ascii.eqb_sym.
    + cbn [free_of] in Hb. apply andb_true_iff in Hb as [Hy Hb].
      change (String.prefix (String x (a +:+ "=")) (String y (b +:+ String "=" v))
              = String.eqb (String y b) (String x a)).
      cbn [String.prefix String.eqb].
      destruct (ascii_dec x y) as [->|Hne].
      * rewrite Ascii.eqb_refl. now apply IH.
      * destruct (Ascii.eqb_spec y x) as [->|]; [contradiction|reflexivity].
Qed.

Lemma split_go_head (v : string) : forall cur,
  nth_error (JS.split_go "=" O cur v) 0 = Some (cur +:+ JS.before "=" v).
Proof.
  induction v as [|x v IH]; intros cur.
  - cbn. now rewrite append_nil_r.
  - cbn [JS.split_go JS.before].
    destruct (Ascii.eqb_spec x "=") as [->|Hne].
    + rewrite prefix_same_char, prefix_nil. cbn. now rewrite append_nil_r.
    + rewrite prefix_other_char by (now apply Ascii.eqb_neq).
      rewrite IH. now rewrite append_assoc.
Qed.

Lemma row_of_named (n v : string) :
  JS.truthy n = true -> Document.row (n, v) = n +:+ String "=" v.
Proof. destruct n; [discriminate | reflexivity]. Qed.

Lemma wf_cookie_row_free (c : string * string) :
  wf_cookie c = true -> free_of ";" (Document.row c) = true.
Proof.
  destruct c as [n v]. unfold wf_cookie, cookie_name_ok. cbn [fst snd].
  rewrite !andb_true_iff. intros [[[Ht Hs] He] Hv].
  rewrite row_of_named by exact Ht.
  change (String "=" v) with ("=" +:+ v).
  now rewrite !free_of_append, Hs, Hv.
Qed.

(** [CookieManager.get] reads the store: the value kept under the
    name, up to its first [=]. *)
Lemma get_spec (name : string) (w : World) :
  wf_jar (cookies w) -> cookie_name_ok name = true ->
  CookieManager.get name w
  = option_map (JS.before "=") (jar_lookup name (cookies w)).
Proof.
  intros Hwf Hname. unfold CookieManager.get, Document.cookie.
  rewrite split_cookie.
  2:{ apply List.Forall_map. eapply List.Forall_impl; [|exact Hwf].
      intros c Hc. now apply wf_cookie_row_free. }
  unfold cookie_name_ok in Hname.
  apply andb_true_iff in Hname as [Hname Hneq].
  apply andb_true_iff in Hname as [Hnt _].
  assert (Hempty : JS.startsWith EmptyString (name +:+ "=") = false).
  { destruct name; [discriminate | reflexivity]. }
  destruct (cookies w) as [|c0 jar0] eqn:Hjar.
  - cbn [List.find jar_lookup option_map]. now rewrite Hempty.
  - rewrite <- Hjar in *. clear Hjar c0 jar0.
    induction Hwf as [|[n v] jar Hc _ IH]; [reflexivity|].
    unfold wf_cookie, cookie_name_ok in Hc. cbn [fst snd] in Hc.
    rewrite !andb_true_iff in Hc. destruct Hc as [[[Ht Hs] He] Hv].
    cbn [map List.find jar_lookup]. rewrite row_of_named by exact Ht.
    unfold JS.startsWith at 1. rewrite prefix_of_name by assumption.
    destruct (String.eqb n name) eqn:E; [|exact IH].
    cbn [option_map].
    assert (Htruthy : JS.truthy (n +:+ String "=" v) = true)
      by (destruct n; [discriminate | reflexivity]).
    rewrite Htruthy. unfold JS.split.
    rewrite split_go_piece by exact He.
    cbn [JS.split_go]. rewrite prefix_same_char, prefix_nil.
    cbn [String.length Nat.sub nth_error JS.split_go]. apply split_go_head.
Qed.

Lemma show_free_semicolon (d : Decimal.uint) :
  free_of ";" (NilEmpty.string_of_uint d) = true.
Proof. induction d; cbn; auto. Qed.

Lemma show_free_equals (d : Decimal.uint) :
  free_of "=" (NilEmpty.string_of_uint d) = true.
Proof. induction d; cbn; auto. Qed.

Lemma liked_name_ok (postId : N) : cookie_name_ok (liked_name postId) = true.
Proof.
  unfold cookie_name_ok, liked_name, JS.show.
  rewrite !free_of_append, show_free_semicolon, show_free_equals.
  reflexivity.
Qed.

Lemma show_inj (a b : N) : JS.show a = JS.show b -> a = b.
Proof.
  unfold JS.show. intros H. apply DecimalN.Unsigned.to_uint_inj.
  assert (Hs : Some (N.to_uint a) = Some (N.to_uint b))
    by (rewrite <- !NilEmpty.usu; now rewrite H).
  now injection Hs.
Qed.

Lemma liked_name_inj (a b : N) : liked_name a = liked_name b -> a = b.
Proof. unfold liked_name. intros H. injection H as H. now apply show_inj. Qed.

(** [hasLiked] is the flag of the store. *)
Lemma hasLiked_spec (postId : N) (w : World) :
  wf_jar (cookies w) ->
  CookieManager.hasLiked postId w
  = match jar_lookup (liked_name postId) (cookies w) with
    | Some v => String.eqb (JS.before "=" v) "true"
    | None => false
    end.
Proof.
  intros Hwf. unfold CookieManager.hasLiked.
  fold (liked_name postId).
  rewrite get_spec by (auto using liked_name_ok).
  destruct (jar_lookup _ _); reflexivity.
Qed.

End CookieFacts.

(** ** Liking a post *)

Section LikeFacts.

Import ErrorHandler.

Variable random : Z -> Q.

Lemma count_increments_snoc (b : list Request -> Reply) (id : N)
    (rest : list Request) (rq : Request) :
  forall history,
    count_increments b id history (rest ++ [rq])
    = (count_increments b id history rest
       + (if is_update_of id rq && acknowledged (b (history ++ rest ++ [rq]))
          then 1 else 0))%nat.
Proof.
  induction rest as [|r rest IH]; intros history; cbn.
  - lia.
  - rewrite IH, <- app_assoc. cbn. lia.
Qed.

Lemma increments_request (id : N) (w : World) (rq : Request) :
  increments id (set_requests (requests w ++ [rq]) w)
  = (increments id w
     + (if is_update_of id rq && acknowledged (backend w (requests w ++ [rq]))
        then 1 else 0))%nat.
Proof. unfold increments. cbn. now rewrite count_increments_snoc. Qed.

Lemma is_update_of_other (id j : N) (n : Z) :
  j <> id -> is_update_of j (UpdateLikes id n) = false.
Proof. intros H. cbn. apply N.eqb_neq. congruence. Qed.

Lemma updateLikeUI_frame (id : N) (newLikes : Z) (w : World) :
  cookies (PostManager.updateLikeUI id newLikes w) = cookies w
  /\ requests (PostManager.updateLikeUI id newLikes w) = requests w
  /\ backend (PostManager.updateLikeUI id newLikes w) = backend w.
Proof. unfold PostManager.updateLikeUI. destruct (logContainer w); auto. Qed.

Lemma likeOperation_effect (id : N) (w : World) (s : Settled bool)
    (w' : World) :
  PostManager.likeOperation id w = (s, w') -> LikeEffect id w s w'.
Proof.
  unfold PostManager.likeOperation.
  destruct (CookieManager.hasLiked id w) eqn:Hliked.
  { intros [= <- <-]. now constructor. }
  unfold remote at 1.
  set (w1 := set_requests (requests w ++ [SelectLikes id]) w).
  assert (Hinc1 : forall j, increments j w1 = increments j w).
  { intros j. unfold w1. rewrite increments_request. cbn. lia. }
  destruct (backend w (requests w ++ [SelectLikes id])) as [error data|].
  2:{ intros [= <- <-]. apply LikeFailed; auto; discriminate. }
  destruct error as [e|].
  { intros [= <- <-]. apply LikeFailed; auto; discriminate. }
  destruct (PostManager.data_truthy data) eqn:Hdata.
  2:{ intros [= <- <-]. apply LikeFailed; auto; discriminate. }
  set (newLikes := PostManager.data_likes data + 1).
  unfold remote.
  set (w2 := set_requests (requests w1 ++ [UpdateLikes id newLikes]) w1).
  destruct (backend w1 (requests w1 ++ [UpdateLikes id newLikes]))
    as [updateError d|] eqn:Hreply.
  2:{ intros [= <- <-]. apply LikeFailed; auto; try discriminate.
      intros j. unfold w2. rewrite increments_request, Hreply.
      rewrite andb_false_r. rewrite Hinc1. lia. }
  destruct updateError as [e|].
  { intros [= <- <-]. apply LikeFailed; auto; try discriminate.
    intros j. unfold w2. rewrite increments_request, Hreply.
    rewrite andb_false_r. rewrite Hinc1. lia. }
  intros [= <- <-].
  rewrite (set_stores (liked_name id) "true")
    by (auto using liked_name_ok, COOKIE_MAX_AGE_positive).
  destruct (updateLikeUI_frame id newLikes w2) as [Hc [Hr Hb]].
  eapply (LikeDone id w _ newLikes d).
  - exact Hliked.
  - cbn. rewrite Hr. cbn. now rewrite <- app_assoc.
  - cbn. rewrite Hr. exact Hreply.
  - cbn. now rewrite Hc.
  - cbn. exact Hb.
  - unfold increments. cbn [backend requests set_cookies]. rewrite Hb, Hr.
    change (increments id w2 = S (increments id w)).
    unfold w2. rewrite increments_request, Hreply.
    cbn [is_update_of acknowledged]. rewrite N.eqb_refl. cbn [andb].
    rewrite Hinc1. lia.
  - intros j Hj. unfold increments. cbn [backend requests set_cookies].
    rewrite Hb, Hr. change (increments j w2 = increments j w).
    unfold w2. rewrite increments_request.
    rewrite (is_update_of_other id j) by exact Hj. cbn [andb].
    rewrite Hinc1. lia.
Qed.

Lemma timed_effect (id : N) (w : World) (s : Settled bool) (w' : World) :
  like_timed id w = (s, w') ->
  exists s0,
    LikeEffect id w s0 w'
    /\ s = withTimeout s0 CONFIG.REQUEST_TIMEOUT "Like Post".
Proof.
  unfold like_timed, timed.
  destruct (PostManager.likeOperation id w) as [s0 w1] eqn:E.
  intros [= <- <-]. exists s0. split; [|reflexivity].
  now apply likeOperation_effect.
Qed.

Lemma timed_unresolved_keeps_cookies (id : N) (w : World)
    (s : Settled bool) (w' : World) :
  like_timed id w = (s, w') -> (forall r, s <> Resolved r) ->
  cookies w' = cookies w.
Proof.
  intros Ht Hs. destruct (timed_effect id w s w' Ht) as [s0 [Heff ->]].
  destruct Heff as [Hl | s0 w' Hl Hs0 Hc Hb Hi | w' n d Hl Hr Hrep Hc Hb Hi Hj].
  - now contradiction (Hs false).
  - exact Hc.
  - now contradiction (Hs true).
Qed.

(** A [likePost] call that does not end with [true] has left the
    cookies alone. *)
Lemma likePost_failure_keeps_cookies (id : N) (w : World) :
  fst (PostManager.likePost random id w) <> Returned true ->
  cookies (snd (PostManager.likePost random id w)) = cookies w.
Proof.
  unfold PostManager.likePost, PostManager.likePost_run, safeOperation.
  fold (like_timed id).
  set (inner := retryWithBackoff random (like_timed id) CONFIG.MAX_RETRIES
                  "Like Post" w).
  pose proof (retry_loop_outcome random (like_timed id) CONFIG.MAX_RETRIES
                (Z.to_nat CONFIG.MAX_RETRIES) 1 None w O [] []) as Hout.
  cbv zeta in Hout.
  fold (retryWithBackoff random (like_timed id) CONFIG.MAX_RETRIES "Like Post" w)
    in Hout.
  fold inner in Hout.
  assert (Hkeep : forall es w', Fails (like_timed id) w es w' -> cookies w' = cookies w).
  { intros es w' Hf.
    apply (Fails_preserves (like_timed id) (fun w0 => cookies w0 = cookies w))
      with (w := w) (es := es); [|exact Hf|reflexivity].
    intros w0 e w1 Hw0 Hstep. rewrite <- Hw0.
    eapply timed_unresolved_keeps_cookies; [exact Hstep | discriminate]. }
  destruct (outcome inner) as [r|[e|]|] eqn:Ho.
  - cbn. intros H. now contradiction H.
  - destruct Hout as [es Hf]. intros _.
    destruct (getUserFriendlyErrorMessage _ e "Like Post"); cbn;
      now apply (Hkeep es).
  - destruct Hout as [es Hf]. intros _. cbn. now apply (Hkeep es).
  - destruct Hout as [es [w0 [Hf Hop]]]. intros _. cbn.
    rewrite <- (Hkeep es w0 Hf).
    eapply timed_unresolved_keeps_cookies; [exact Hop | discriminate].
Qed.

(** C10. The liked flag is stored only after the write of the new
    count has succeeded: an invocation that changes the cookies has
    ended with [true] after a read and an acknowledged write; an
    invocation in which the read or the write failed (a missing post
    included) leaves them alone; and after a [likePost] call that
    failed, [hasLiked] is what it was, so the like can be tried
    again. *)
Theorem failed_like_keeps_flag (id : N) (w : World) :
  (forall s w',
      PostManager.likeOperation id w = (s, w') ->
      cookies w' <> cookies w ->
      s = Resolved true
      /\ exists newLikes d,
           requests w' = requests w ++ [SelectLikes id; UpdateLikes id newLikes]
           /\ backend w (requests w') = Answer None d)
  /\ (forall s w',
        PostManager.likeOperation id w = (s, w') ->
        (forall r, s <> Resolved r) ->
        cookies w' = cookies w
        /\ CookieManager.hasLiked id w' = CookieManager.hasLiked id w)
  /\ (let result := PostManager.likePost random id w in
      fst result <> Returned true ->
      cookies (snd result) = cookies w
      /\ CookieManager.hasLiked id (snd result) = CookieManager.hasLiked id w
      /\ (CookieManager.hasLiked id w = false ->
          CookieManager.hasLiked id (snd result) = false)).
Proof.
  split; [|split].
  - intros s w' Hop Hne.
    destruct (likeOperation_effect id w s w' Hop)
      as [Hl | s w' Hl Hs0 Hc Hb Hi | w' n d Hl Hr Hrep Hc Hb Hi Hj].
    + now contradiction Hne.
    + now contradiction Hne.
    + split; [reflexivity|]. eauto.
  - intros s w' Hop Hs.
    destruct (likeOperation_effect id w s w' Hop)
      as [Hl | s w' Hl Hs0 Hc Hb Hi | w' n d Hl Hr Hrep Hc Hb Hi Hj].
    + now contradiction (Hs false).
    + split; [exact Hc | now apply hasLiked_cookies].
    + now contradiction (Hs true).
  - intros result Hfail.
    pose proof (likePost_failure_keeps_cookies id w Hfail) as Hc.
    fold result in Hc.
    pose proof (hasLiked_cookies id _ _ Hc) as Hh.
    split; [exact Hc|]. split; [exact Hh|]. intros H. now rewrite Hh.
Qed.

Lemma hasLiked_after_store (id j : N) (w w' : World) :
  wf_jar (cookies w) ->
  cookies w' = Document.store (liked_name j) "true" (cookies w) ->
  wf_jar (cookies w')
  /\ CookieManager.hasLiked id w'
     = if N.eqb j id then true else CookieManager.hasLiked id w.
Proof.
  intros Hwf Hc.
  assert (Hwf' : wf_jar (cookies w')).
  { rewrite Hc. apply store_wf; auto using liked_name_ok. }
  split; [exact Hwf'|].
  rewrite (hasLiked_spec id w') by exact Hwf'.
  rewrite Hc, store_lookup.
  destruct (N.eqb_spec j id) as [->|Hne].
  - now rewrite String.eqb_refl.
  - destruct (String.eqb_spec (liked_name j) (liked_name id)) as [E|_].
    + now apply liked_name_inj in E.
    + now rewrite <- hasLiked_spec.
Qed.



Lemma likePost_preserves (I : World -> Prop) (j : N) (w : World) :
  (forall w0 s w', I w0 -> PostManager.likeOperation j w0 = (s, w') -> I w') ->
  (forall w0 v, I w0 -> I (set_console v w0)) ->
  (forall w0 v, I w0 -> I (set_alerts v w0)) ->
  I w -> I (snd (PostManager.likePost random j w)).
Proof.
  intros Hop Hlog Halert Hw.
  pose proof (safeOperation_preserves random (PostManager.likeOperation j)
                "Like Post" true I Hop Hlog Halert w Hw) as H.
  unfold PostManager.likePost, PostManager.likePost_run, not_null.
  destruct (outcome _) as [[r|]|e|]; exact H.
Qed.


(** An invocation of the like operation that nothing interrupts does,
    piece by piece, what [likeOperation] does. *)
Lemma like_resume_uninterrupted (a b : N) (second : PostManager.LikeCall)
    (w : World) :
  PostManager.like_overlapped a b [false; false; false] PostManager.LikeCalled
    second w
  = (PostManager.LikeSettled (fst (PostManager.likeOperation a w)), second,
     snd (PostManager.likeOperation a w)).
Proof.
  cbn [PostManager.like_overlapped]. unfold PostManager.likeOperation.
  cbn [PostManager.like_resume].
  destruct (CookieManager.hasLiked a w); [reflexivity|].
  destruct (remote (SelectLikes a) w) as [[[e|] data|] w1];
    cbn [PostManager.like_resume fst snd]; try reflexivity.
  destruct (PostManager.data_truthy data); [|reflexivity].
  destruct (remote (UpdateLikes a (PostManager.data_likes data + 1)) w1)
    as [[[e|] d|] w2]; reflexivity.
Qed.


End LikeFacts.

(** ** Rendering a post *)

Section RenderFacts.

Lemma escape_free_lt (s : string) : forall n, (String.length s <= n)%nat ->
  free_of "<" (HTML.escape s) = true.
Proof.
  intros n; revert s. induction n as [|n IH]; intros s Hlen.
  - destruct s; [reflexivity | cbn in Hlen; lia].
  - destruct s as [|c s]; [reflexivity|]. cbn in Hlen. cbn [HTML.escape].
    destruct (Ascii.eqb c "&");
      [rewrite free_of_append; rewrite IH by lia; reflexivity|].
    destruct (Ascii.eqb c "<") eqn:Elt;
      [rewrite free_of_append; rewrite IH by lia; reflexivity|].
    destruct (Ascii.eqb c ">");
      [rewrite free_of_append; rewrite IH by lia; reflexivity|].
    destruct (Ascii.eqb c (ascii_of_nat 194)).
    + destruct s as [|d s]; [cbn; now rewrite Elt|].
      destruct (Ascii.eqb d (ascii_of_nat 160)).
      * rewrite free_of_append. cbn in Hlen. rewrite IH by lia. reflexivity.
      * cbn [free_of]. rewrite Elt. cbn [negb andb]. apply IH. lia.
    + cbn [free_of]. rewrite Elt. cbn [negb andb]. apply IH. lia.
Qed.

Lemma read_plain (c : ascii) (s : string) :
  Ascii.eqb c "<" = false -> Ascii.eqb c "&" = false ->
  HTML.read_text_go O (String c s)
  = let '(t, rest) := HTML.read_text_go O s in (String c t, rest).
Proof. intros H1 H2. cbn [HTML.read_text_go]. now rewrite H1, H2. Qed.

Lemma read_amp (x : string) :
  HTML.read_text_go O ("&amp;" +:+ x)
  = let '(t, rest) := HTML.read_text_go O x in (String "&" t, rest).
Proof.
  change ("&amp;" +:+ x) with (String "&" ("amp;" +:+ x)).
  cbn [HTML.read_text_go Ascii.eqb Bool.eqb andb].
  unfold HTML.char_ref. rewrite prefix_append. reflexivity.
Qed.

Lemma read_lt (x : string) :
  HTML.read_text_go O ("&lt;" +:+ x)
  = let '(t, rest) := HTML.read_text_go O x in (String "<" t, rest).
Proof.
  change ("&lt;" +:+ x) with (String "&" ("lt;" +:+ x)).
  cbn [HTML.read_text_go Ascii.eqb Bool.eqb andb].
  unfold HTML.char_ref. rewrite (prefix_append "lt;"). reflexivity.
Qed.

Lemma read_gt (x : string) :
  HTML.read_text_go O ("&gt;" +:+ x)
  = let '(t, rest) := HTML.read_text_go O x in (String ">" t, rest).
Proof.
  change ("&gt;" +:+ x) with (String "&" ("gt;" +:+ x)).
  cbn [HTML.read_text_go Ascii.eqb Bool.eqb andb].
  unfold HTML.char_ref. rewrite (prefix_append "gt;"). reflexivity.
Qed.

Lemma read_nbsp (x : string) :
  HTML.read_text_go O ("&nbsp;" +:+ x)
  = let '(t, rest) := HTML.read_text_go O x in (HTML.nbsp +:+ t, rest).
Proof.
  change ("&nbsp;" +:+ x) with (String "&" ("nbsp;" +:+ x)).
  cbn [HTML.read_text_go Ascii.eqb Bool.eqb andb].
  unfold HTML.char_ref. rewrite (prefix_append "nbsp;"). reflexivity.
Qed.

Lemma read_close (rest : string) :
  HTML.read_text_go O ("</" +:+ rest) = (EmptyString, "</" +:+ rest).
Proof. reflexivity. Qed.

(** Reading escaped text back up to a closing tag gives the text. *)
Lemma read_escaped (rest : string) : forall n s,
  (String.length s <= n)%nat ->
  HTML.read_text (HTML.escape s +:+ "</" +:+ rest) = (s, "</" +:+ rest).
Proof.
  unfold HTML.read_text.
  induction n as [|n IH]; intros s Hlen.
  - destruct s; [apply read_close | cbn in Hlen; lia].
  - destruct s as [|c s]; [apply read_close|]. cbn in Hlen.
    cbn [HTML.escape].
    destruct (Ascii.eqb_spec c "&") as [->|Hamp].
    { rewrite append_assoc, read_amp, IH by lia. reflexivity. }
    destruct (Ascii.eqb_spec c "<") as [->|Hlt].
    { rewrite append_assoc, read_lt, IH by lia. reflexivity. }
    destruct (Ascii.eqb_spec c ">") as [->|Hgt].
    { rewrite append_assoc, read_gt, IH by lia. reflexivity. }
    apply Ascii.eqb_neq in Hamp, Hlt.
    destruct (Ascii.eqb_spec c (ascii_of_nat 194)) as [->|H194].
    + destruct s as [|d s].
      * change (String (ascii_of_nat 194) "" +:+ "</" +:+ rest)
          with (String (ascii_of_nat 194) ("</" +:+ rest)).
        rewrite read_plain by reflexivity. now rewrite read_close.
      * destruct (Ascii.eqb_spec d (ascii_of_nat 160)) as [->|H160].
        -- cbn in Hlen. rewrite append_assoc, read_nbsp, IH by lia.
           reflexivity.
        -- change (String (ascii_of_nat 194) (HTML.escape (String d s))
                   +:+ "</" +:+ rest)
             with (String (ascii_of_nat 194)
                     (HTML.escape (String d s) +:+ "</" +:+ rest)).
           rewrite read_plain by reflexivity. now rewrite IH by lia.
    + change (String c (HTML.escape s) +:+ "</" +:+ rest)
        with (String c (HTML.escape s +:+ "</" +:+ rest)).
      rewrite read_plain by assumption. now rewrite IH by lia.
Qed.

Lemma byte_hex (c : ascii) :
  let n := nat_of_ascii c in
  JS.unhex (JS.hex_digit (n / 16)) = Some (n / 16)%nat
  /\ JS.unhex (JS.hex_digit (n mod 16)) = Some (n mod 16)%nat
  /\ ascii_of_nat (16 * (n / 16) + n mod 16) = c
  /\ attr_plain (JS.hex_digit (n / 16)) = true
  /\ attr_plain (JS.hex_digit (n mod 16)) = true.
Proof.
  destruct c as [[] [] [] [] [] [] [] []]; vm_compute; repeat split.
Qed.

Lemma unreserved_plain (c : ascii) :
  JS.uri_unreserved c = true ->
  attr_plain c = true /\ Ascii.eqb c "%" = false.
Proof.
  destruct c as [[] [] [] [] [] [] [] []]; vm_compute; intros H;
    try discriminate H; split; reflexivity.
Qed.

(** [decodeURIComponent] undoes [encodeURIComponent]. *)
Lemma decode_encode (s : string) :
  JS.decodeURIComponent (JS.encodeURIComponent s) = Some s.
Proof.
  induction s as [|c s IH]; [reflexivity|].
  cbn [JS.encodeURIComponent].
  destruct (JS.uri_unreserved c) eqn:E.
  - destruct (unreserved_plain c E) as [_ Hp].
    cbn [JS.decodeURIComponent]. now rewrite Hp, IH.
  - destruct (byte_hex c) as [Hh [Hl [Hc _]]].
    cbn [JS.decodeURIComponent Ascii.eqb Bool.eqb andb].
    now rewrite Hh, Hl, IH, Hc.
Qed.

Lemma encode_plain (s : string) :
  all_chars attr_plain (JS.encodeURIComponent s) = true.
Proof.
  induction s as [|c s IH]; [reflexivity|].
  cbn [JS.encodeURIComponent].
  destruct (JS.uri_unreserved c) eqn:E.
  - destruct (unreserved_plain c E) as [Hp _].
    cbn [all_chars]. now rewrite Hp, IH.
  - destruct (byte_hex c) as [_ [_ [_ [Hh Hl]]]].
    cbn [all_chars]. now rewrite Hh, Hl, IH.
Qed.

(** An attribute value without quote and ampersand is read as it
    stands, up to the closing quote. *)
Lemma read_attr_plain (a rest : string) :
  all_chars attr_plain a = true ->
  HTML.read_attr (a +:+ JS.dq +:+ rest) = (a, rest).
Proof.
  unfold HTML.read_attr. induction a as [|c a IH]; intros H.
  - reflexivity.
  - cbn [all_chars] in H. apply andb_true_iff in H as [Hc Ha].
    unfold attr_plain in Hc. apply andb_true_iff in Hc as [Hq Hamp].
    apply negb_true_iff in Hq, Hamp.
    change (String c a +:+ JS.dq +:+ rest)
      with (String c (a +:+ JS.dq +:+ rest)).
    cbn [HTML.read_attr_go]. rewrite Hq, Hamp. now rewrite IH.
Qed.

Lemma drop_append (a b : string) : HTML.drop (String.length a) (a +:+ b) = b.
Proof. induction a as [|c a IH]; [now destruct b | exact IH]. Qed.

Lemma expect_append (lit rest : string) :
  HTML.expect lit (lit +:+ rest) = Some rest.
Proof. unfold HTML.expect. now rewrite prefix_append, drop_append. Qed.

Section WithMarked.

Variable marked_parse : string -> bool -> string.

(** The parser reads the title and the [data-md] attribute off the
    markup of an entry. *)
Lemma parse_entry_html (title content date : string) (showDeleteBtn : bool)
    (id : N) (liked : bool) (likeCount : Z) :
  HTML.parse_entry
    (UIManager.entry_html marked_parse title content date showDeleteBtn id
       liked likeCount)
  = Some (title, JS.encodeURIComponent content).
Proof.
  unfold UIManager.entry_html, HTML.parse_entry, UIManager.escapeHtml.
  cbv zeta.
  match goal with
  | |- context [HTML.skip_space (UIManager.nl_indent 6 +:+ "<h2>" +:+ ?x)] =>
      change (HTML.skip_space (UIManager.nl_indent 6 +:+ "<h2>" +:+ x))
        with ("<h2>" +:+ x)
  end.
  rewrite expect_append.
  match goal with
  | |- context [HTML.read_text (HTML.escape title +:+ "</h2>" +:+ ?x)] =>
      change (HTML.escape title +:+ "</h2>" +:+ x)
        with (HTML.escape title +:+ "</" +:+ ("h2>" +:+ x));
      rewrite (read_escaped ("h2>" +:+ x) (String.length title) title)
        by lia;
      change ("</" +:+ "h2>" +:+ x) with ("</h2>" +:+ x)
  end.
  rewrite expect_append.
  match goal with
  | |- context [HTML.skip_space (UIManager.nl_indent 6 +:+ "<p data-md="
                              +:+ JS.dq +:+ ?x)] =>
      change (HTML.skip_space (UIManager.nl_indent 6 +:+ "<p data-md="
                            +:+ JS.dq +:+ x))
        with (("<p data-md=" +:+ JS.dq) +:+ x)
  end.
  rewrite expect_append.
  rewrite read_attr_plain by apply encode_plain.
  now rewrite expect_append.
Qed.

(** C6. For a post rendered by [addPostToUI]: title and date go
    through [escapeHtml], whose output has no [<], so that the
    parser reads the [h2] element as character data equal to the
    title (and the date span as the date); the content is rendered
    by the Markdown renderer with line breaks on and put into the
    markup as it comes; and the [data-md] attribute holds the
    URL-encoded source, which decodes to the content. *)
Theorem addPostToUI_markup (title content date : string)
    (showDeleteBtn : bool) (id : N) (likes : Z) (w : World)
    (children : list PostElement) :
  logContainer w = Some children ->
  exists el after,
    logContainer
      (UIManager.addPostToUI marked_parse title content date showDeleteBtn
         id likes w)
    = Some (el :: children)
    /\ innerHTML el
       = UIManager.nl_indent 6 +:+ "<h2>" +:+ UIManager.escapeHtml title
         +:+ "</h2>" +:+ UIManager.nl_indent 6 +:+ "<p data-md=" +:+ JS.dq
         +:+ JS.encodeURIComponent content +:+ JS.dq +:+ ">"
         +:+ marked_parse content true +:+ "</p>"
         +:+ UIManager.nl_indent 6 +:+ "<span class=" +:+ JS.dq +:+ "date"
         +:+ JS.dq +:+ ">" +:+ UIManager.escapeHtml date +:+ "</span>"
         +:+ after
    /\ HTML.parse_entry (innerHTML el)
       = Some (title, JS.encodeURIComponent content)
    /\ JS.decodeURIComponent (JS.encodeURIComponent content) = Some content
    /\ free_of "<" (UIManager.escapeHtml title) = true
    /\ free_of "<" (UIManager.escapeHtml date) = true
    /\ (forall rest,
          HTML.read_text (UIManager.escapeHtml date +:+ "</span>" +:+ rest)
          = (date, "</span>" +:+ rest)).
Proof.
  intros Hc. unfold UIManager.addPostToUI. rewrite Hc.
  eexists. eexists. split; [reflexivity|].
  cbn [innerHTML]. split; [reflexivity|].
  split; [apply parse_entry_html|].
  split; [apply decode_encode|].
  split; [apply (escape_free_lt title (String.length title)); lia|].
  split; [apply (escape_free_lt date (String.length date)); lia|].
  intros rest. unfold UIManager.escapeHtml.
  change ("</span>" +:+ rest) with ("</" +:+ ("span>" +:+ rest)).
  apply (read_escaped _ (String.length date)). lia.
Qed.

End WithMarked.

End RenderFacts.

(** ** Worked examples *)

Lemma random_half_range (k : Z) :
  (0 <= random_half k)%Q /\ (random_half k < 1)%Q.
Proof. split; [discriminate | reflexivity]. Qed.




(** Offline, a submission with an empty title is invoked three times. *)
Lemma submitPost_offline_validation_retried :
  let run :=
    PostManager.submitPost_run random_half marked_stub date_stub World_offline in
  postTitle World_offline = Some EmptyString
  /\ attempts run = 3%nat
  /\ attempts run <> 1%nat
  /\ length (delays run) = 2%nat.
Proof. vm_compute. repeat split. discriminate. Qed.

Lemma World0_title_blank : Blank (postTitle World0).
Proof. intros text [= <-]. reflexivity. Qed.

Lemma submitPost_validation_witness :
  let run := PostManager.submitPost_run random_half marked_stub date_stub World0 in
  Blank (postTitle World0)
  /\ requests (world run) = requests World0
  /\ outcome run = Returned None.
Proof.
  intros run.
  destruct (submitPost_validation random_half marked_stub date_stub World0
              (or_introl World0_title_blank)) as [Hreq [_ [Hout _]]].
  split; [exact World0_title_blank|]. split; [exact Hreq | exact Hout].
Defined.

(** Typing a text and then clearing the field: after the debounce
    interval the draft is the text, not the empty final value. *)
Lemma cleared_field_keeps_earlier_draft :
  let w1 := App.run [App.TypeContent "abc"; App.TypeContent EmptyString] World0 in
  let w2 := App.step (App.Elapse 2000) w1 in
  postContent w2 = Some EmptyString
  /\ localStorage w2 !! App.draft_post_content = Some "abc"
  /\ localStorage w2 !! App.draft_post_content <> Some EmptyString
  /\ setItems w2 = [(App.draft_post_content, "abc")].
Proof.
  cbv zeta.
  assert (H : localStorage
                (App.step (App.Elapse 2000)
                   (App.run [App.TypeContent "abc"; App.TypeContent EmptyString]
                      World0))
              !! App.draft_post_content = Some "abc").
  { vm_compute. reflexivity. }
  split; [reflexivity|]. split; [exact H|]. split; [|reflexivity].
  rewrite H. discriminate.
Qed.

Lemma draft_saved_restored_cleared_witness :
  let w1 := App.run ([] ++ [App.TypeContent "hello"]) World0 in
  let w2 := App.step (App.Elapse 2000) w1 in
  is_Some (postContent World0)
  /\ localStorage w2 !! App.draft_post_content = Some "hello".
Proof.
  intros w1 w2.
  assert (Hfield : is_Some (postContent World0)) by (eexists; reflexivity).
  destruct (draft_saved_restored_cleared random_half marked_stub date_stub
              World0 [] "hello" 2000%N Hfield ltac:(discriminate)
              ltac:(discriminate)) as [Hstore _].
  split; [exact Hfield | exact Hstore].
Defined.

(** [trim] drops the white space beyond the ASCII range as well, and
    keeps the white space inside the text. *)
Lemma trim_unicode_space :
  JS.trim (nbsp +:+ " a" +:+ em_space +:+ "b " +:+ em_space +:+ nbsp)
  = "a" +:+ em_space +:+ "b"
  /\ JS.trim (nbsp +:+ em_space) = EmptyString
  /\ Utils.is_empty_field (Some (nbsp +:+ em_space)) = true.
Proof. vm_compute. repeat split. Qed.

Lemma blank_input_keeps_draft_witness :
  JS.trim "  " = EmptyString
  /\ localStorage (App.step (App.TypeContent "  ") World0) = localStorage World0.
Proof.
  destruct (blank_input_keeps_draft "  " World0 eq_refl) as [_ [[H _] _]].
  split; [reflexivity | exact H].
Defined.



Lemma failed_like_keeps_flag_witness :
  let result := PostManager.likePost random_half 7 World0 in
  fst result = Returned false
  /\ cookies (snd result) = cookies World0.
Proof.
  intros result.
  assert (Hfail : fst result = Returned false) by (vm_compute; reflexivity).
  destruct (failed_like_keeps_flag random_half 7 World0) as [_ [_ H]].
  split; [exact Hfail|].
  apply H. fold result. rewrite Hfail. discriminate.
Defined.

Lemma addPostToUI_markup_witness :
  logContainer World0 = Some []
  /\ exists el,
       logContainer
         (UIManager.addPostToUI marked_stub "<b>X</b>" "**bold**" "1/2/2026"
            false 5 0 World0)
       = Some [el]
       /\ HTML.parse_entry (innerHTML el)
          = Some ("<b>X</b>", JS.encodeURIComponent "**bold**").
Proof.
  split; [reflexivity|].
  destruct (addPostToUI_markup marked_stub "<b>X</b>" "**bold**" "1/2/2026"
              false 5 0 World0 [] eq_refl)
    as [el [after [Hc [_ [Hp _]]]]].
  exists el. split; [exact Hc | exact Hp].
Defined.

Lemma loadPosts_displays_reversed_witness :
  let result := App.loadPosts random_half marked_stub date_stub false World_posts in
  logContainer World_posts = Some []
  /\ fst result = Returned true
  /\ option_map (map dataset_postId) (logContainer (snd result))
     = Some [2; 1]%N.
Proof.
  intros result.
  destruct (loadPosts_displays_reversed random_half marked_stub date_stub false
              World_posts [row_old; row_new] [] eq_refl eq_refl)
    as [Hres [Hc _]].
  fold result in Hres, Hc.
  split; [reflexivity|]. split; [exact Hres|].
  rewrite Hc. reflexivity.
Defined.

(** * Further properties *)

(** ** Utils.validateFields *)

Section UtilsFacts.

(** X1. [validateFields] accepts exactly the objects none of whose
    fields is absent, empty or white space only, and then shows
    nothing; otherwise it shows one alert, naming the first such field
    in the order of the object, and looks no further. *)
Theorem validateFields_first_empty (fields : list (string * option string))
    (w : World) :
  (Forall (fun f => ~ Blank (snd f)) fields
   /\ Utils.validateFields fields w = (true, w))
  \/ (exists before name value after,
        fields = before ++ (name, value) :: after
        /\ Forall (fun f => ~ Blank (snd f)) before
        /\ Blank value
        /\ Utils.validateFields fields w
           = (false, alert (validation_alert name) w)).
Proof.
  induction fields as [|[name value] fields IH].
  - left. split; [constructor | reflexivity].
  - cbn [Utils.validateFields].
    destruct (Utils.is_empty_field value) eqn:E.
    + right. exists [], name, value, fields.
      split; [reflexivity|]. split; [constructor|].
      split; [now apply is_empty_field_Blank | reflexivity].
    + assert (Hnb : ~ Blank value).
      { intros Hb. apply is_empty_field_Blank in Hb. congruence. }
      destruct IH as [[Hall Hok] | [before [n [v [after [Hf [Hb [Hv Hres]]]]]]]].
      * left. split; [constructor; [exact Hnb | exact Hall] | exact Hok].
      * right. exists ((name, value) :: before), n, v, after.
        split; [cbn; now rewrite Hf|].
        split; [constructor; [exact Hnb | exact Hb]|].
        split; [exact Hv | exact Hres].
Qed.

End UtilsFacts.

(** ** CookieManager *)

Section CookieManagerFacts.

Lemma Substring_refl (s : string) : JS.Substring s s.
Proof. exists EmptyString, EmptyString. cbn. now rewrite append_nil_r. Qed.

Lemma Substring_trans (a b c : string) :
  JS.Substring a b -> JS.Substring b c -> JS.Substring a c.
Proof.
  intros [p1 [q1 ->]] [p2 [q2 ->]].
  exists (p2 +:+ p1), (q1 +:+ q2). now rewrite !append_assoc.
Qed.

Lemma Substring_in_concat (sep r : string) (rows : list string) :
  In r rows -> JS.Substring r (String.concat sep rows).
Proof.
  induction rows as [|x rows IH]; [intros []|].
  intros [-> | Hin].
  - destruct rows as [|y rows]; [apply Substring_refl|].
    exists EmptyString, (sep +:+ String.concat sep (y :: rows)). reflexivity.
  - destruct rows as [|y rows]; [destruct Hin|].
    destruct (IH Hin) as [p [q Hpq]].
    exists (x +:+ sep +:+ p), q.
    change (String.concat sep (x :: y :: rows))
      with (x +:+ sep +:+ String.concat sep (y :: rows)).
    rewrite Hpq. now rewrite !append_assoc.
Qed.

(** X2. Round trip of [CookieManager.set] and [get] on a well-formed
    store, for a name and a value without [;], [=], spaces and control
    characters that take 4096 bytes together at most: with a positive
    [maxAge] what was set is what is read, with [maxAge] zero the
    cookie is gone and [get] reads [null]; either way the store stays
    well formed and the cookies of other names read as before. *)
Theorem cookie_set_get (name value : string) (maxAge : N) (w : World) :
  wf_jar (cookies w) ->
  cookie_name_ok name = true -> printable name = true ->
  free_of ";" value = true -> free_of "=" value = true ->
  printable value = true ->
  (String.length name + String.length value <= 4096)%nat ->
  let w' := CookieManager.set name value maxAge w in
  wf_jar (cookies w')
  /\ CookieManager.get name w'
     = (if (maxAge =? 0)%N then None else Some value)
  /\ (forall other,
        cookie_name_ok other = true -> other <> name ->
        CookieManager.get other w' = CookieManager.get other w).
Proof.
  intros Hwf Hname _ Hsemi Heq _ _ w'.
  assert (Hw' : w' = set_cookies
                       (if (maxAge =? 0)%N
                        then Document.remove name (cookies w)
                        else Document.store name value (cookies w)) w)
    by (unfold w'; now apply set_effect).
  assert (Hwf' : wf_jar (cookies w')).
  { rewrite Hw'. cbn [cookies set_cookies].
    destruct (maxAge =? 0)%N; [now apply remove_wf | now apply store_wf]. }
  split; [exact Hwf'|]. split.
  - rewrite get_spec by assumption. rewrite Hw'. cbn [cookies set_cookies].
    destruct (maxAge =? 0)%N.
    + now rewrite remove_lookup, String.eqb_refl.
    + rewrite store_lookup, String.eqb_refl. cbn.
      now rewrite before_free_all.
  - intros other Hother Hne.
    rewrite !get_spec by assumption. rewrite Hw'. cbn [cookies set_cookies].
    destruct (maxAge =? 0)%N.
    + rewrite remove_lookup.
      destruct (String.eqb_spec name other) as [->|_];
        [contradiction|reflexivity].
    + rewrite store_lookup.
      destruct (String.eqb_spec name other) as [->|_];
        [contradiction|reflexivity].
Qed.

(** X3. [CookieManager.exists] looks for [name=] anywhere in
    [document.cookie]: it answers [true] for every name that ends the
    name of a stored cookie, also when no cookie has that name and
    [get] finds nothing. *)
Theorem exists_matches_name_suffix (pre name v : string) (w : World) :
  wf_jar (cookies w) ->
  In (pre +:+ name, v) (cookies w) ->
  CookieManager.exists_ name w = true
  /\ (cookie_name_ok name = true ->
      jar_lookup name (cookies w) = None ->
      CookieManager.get name w = None).
Proof.
  intros Hwf Hin. split.
  - unfold CookieManager.exists_. apply includes_iff.
    apply Substring_trans with (b := Document.row (pre +:+ name, v)).
    + assert (Hc : wf_cookie (pre +:+ name, v) = true)
        by (unfold wf_jar in Hwf; rewrite List.Forall_forall in Hwf;
            exact (Hwf _ Hin)).
      unfold wf_cookie, cookie_name_ok in Hc. cbn [fst snd] in Hc.
      rewrite !andb_true_iff in Hc. destruct Hc as [[[Ht _] _] _].
      rewrite row_of_named by exact Ht.
      exists pre, v. now rewrite !append_assoc.
    + unfold Document.cookie, JS.join. apply Substring_in_concat.
      apply in_map. exact Hin.
  - intros Hname Hnone. rewrite get_spec by assumption. now rewrite Hnone.
Qed.

End CookieManagerFacts.

(** ** The retry wrapper on arbitrary operations *)

Section RetryFacts.

Import ErrorHandler.

Variable random : Z -> Q.

Lemma retry_loop_counts {R} (op : Operation R) (N : Z) :
  forall (remaining : nat) (attempt : Z) lastError w n errs ds,
    Z.of_nat remaining = N - attempt + 1 ->
    let run := retry_loop random op N remaining attempt lastError w n errs ds in
    exists k,
      attempts run = (n + k)%nat
      /\ (k <= remaining)%nat
      /\ (0 < remaining -> 0 < k)%nat
      /\ delays run = ds ++ delays_from random attempt (k - 1)
      /\ (length (failures run) <= length errs + k)%nat.
Proof.
  induction remaining as [|r IH]; intros attempt lastError w n errs ds Hrem.
  - exists O. cbn. rewrite app_nil_r. repeat split; lia.
  - cbn [retry_loop]. destruct (op w) as [[v|e|] w1].
    + exists 1%nat. cbn. rewrite app_nil_r. repeat split; lia.
    + destruct (Z.eqb_spec attempt N) as [Heq|Hne]; cbn [orb].
      * exists 1%nat. cbn. rewrite app_nil_r, length_app. cbn.
        repeat split; lia.
      * destruct (isRetryableError w1 e); cbn [negb].
        -- assert (Hr : Z.of_nat r = N - (attempt + 1) + 1) by lia.
           destruct (IH (attempt + 1) (Some e) w1 (S n) (errs ++ [e])
                        (ds ++ [backoff_delay random attempt]) Hr)
             as [k [Hatt [Hk [Hpos [Hdel Hfail]]]]].
           assert (0 < k)%nat by (apply Hpos; lia).
           exists (S k). rewrite Hatt, Hdel. rewrite length_app in Hfail.
           cbn in Hfail. repeat split; try lia.
           rewrite <- app_assoc. cbn. do 2 f_equal.
           destruct k as [|k]; [lia|]. cbn. now rewrite Nat.sub_0_r.
        -- exists 1%nat. cbn. rewrite app_nil_r, length_app. cbn.
           repeat split; lia.
    + exists 1%nat. cbn. rewrite app_nil_r. repeat split; lia.
Qed.

(** X4. Whatever the operation does, [retryWithBackoff] invokes it at
    most [maxRetries] times, at least once when [maxRetries >= 1], and
    sleeps exactly once between two invocations, the delays being
    those of the attempts 1, 2, ... in order; with [maxRetries <= 0]
    the operation is never invoked and [undefined] is thrown. *)
Theorem retryWithBackoff_bounds {R} (op : Operation R) (N : Z)
    (operationName : string) (w : World) :
  let run := retryWithBackoff random op N operationName w in
  (attempts run <= Z.to_nat N)%nat
  /\ delays run = delays_from random 1 (attempts run - 1)
  /\ (length (failures run) <= attempts run)%nat
  /\ (1 <= N -> (1 <= attempts run)%nat)
  /\ (N <= 0 ->
      attempts run = O /\ outcome run = Thrown None /\ world run = w).
Proof.
  intros run. destruct (Z_le_gt_dec N 0) as [Hle|Hgt].
  - assert (Hz : Z.to_nat N = O) by lia.
    unfold run, retryWithBackoff. rewrite Hz. cbn.
    repeat split; try lia.
  - assert (Hrem : Z.of_nat (Z.to_nat N) = N - 1 + 1) by lia.
    destruct (retry_loop_counts op N (Z.to_nat N) 1 None w O [] [] Hrem)
      as [k [Hatt [Hk [Hpos [Hdel Hfail]]]]].
    fold (retryWithBackoff random op N operationName w) in Hatt, Hdel, Hfail.
    fold run in Hatt, Hdel, Hfail. cbn in Hatt, Hdel, Hfail.
    rewrite Hatt. repeat split; try lia; try exact Hdel.
Qed.

Lemma retry_loop_then {R} (op : Operation R) (N : Z) (w' : World)
    (es : list Error) :
  forall w, FailsRetryable op w es w' ->
  forall (remaining : nat) (attempt : Z) lastError n errs ds,
    Z.of_nat remaining = N - attempt + 1 ->
    (length es < remaining)%nat ->
    retry_loop random op N remaining attempt lastError w n errs ds
    = retry_loop random op N (remaining - length es)
        (attempt + Z.of_nat (length es))
        (List.last (map Some es) lastError) w' (n + length es)%nat
        (errs ++ es) (ds ++ delays_from random attempt (length es)).
Proof.
  induction 1 as [w|w e w1 es w' Hw He Hf IH];
    intros remaining attempt lastError n errs ds Hrem Hlen.
  - cbn. rewrite !app_nil_r, Nat.sub_0_r, Z.add_0_r, Nat.add_0_r. reflexivity.
  - cbn [length] in *. destruct remaining as [|r]; [lia|].
    rewrite (retry_loop_retry random op N r attempt lastError w n errs ds e w1
               Hw He) by lia.
    rewrite IH by lia.
    cbn [map]. rewrite last_cons_default.
    cbn [Nat.sub delays_from]. rewrite <- !app_assoc. cbn [app].
    f_equal; lia.
Qed.

(** X5. After retryable failures, the first invocation that succeeds
    ends the retries with its result, and the first failure that is not
    retryable ends them with its error; either way the operation has
    been invoked once more than it failed retryably, with one delay
    after each of those failures. *)
Theorem retryWithBackoff_after_failures {R} (op : Operation R) (N : Z)
    (operationName : string) (w w1 : World) (es : list Error) :
  FailsRetryable op w es w1 ->
  (length es < Z.to_nat N)%nat ->
  (forall r w2,
      op w1 = (Resolved r, w2) ->
      retryWithBackoff random op N operationName w
      = mkRun (Returned r) w2 (S (length es)) es
          (delays_from random 1 (length es)))
  /\ (forall e w2,
        op w1 = (Rejected e, w2) -> isRetryableError w2 e = false ->
        retryWithBackoff random op N operationName w
        = mkRun (Thrown (Some e)) w2 (S (length es)) (es ++ [e])
            (delays_from random 1 (length es))).
Proof.
  intros Hf Hlen.
  assert (Hrem : Z.of_nat (Z.to_nat N) = N - 1 + 1) by lia.
  pose proof (retry_loop_then op N w1 es w Hf (Z.to_nat N) 1 None O [] []
                Hrem Hlen) as Hloop.
  cbn [app Nat.add] in Hloop.
  destruct (Z.to_nat N - length es)%nat as [|r] eqn:Hr; [lia|].
  split.
  - intros r0 w2 Hop. unfold retryWithBackoff. rewrite Hloop.
    now rewrite (retry_loop_resolved random op N r _ _ w1 _ _ _ r0 w2 Hop).
  - intros e w2 Hop He. unfold retryWithBackoff. rewrite Hloop.
    rewrite (retry_loop_stop random op N r _ _ w1 _ _ _ e w2 Hop);
      [reflexivity | now right].
Qed.

End RetryFacts.

(** ** The safe wrapper on arbitrary operations *)

Section SafeFacts.

Import ErrorHandler.

Variable random : Z -> Q.
Hypothesis random_range : forall k, (0 <= random k)%Q /\ (random k < 1)%Q.

Lemma timed_never_hung {R} (op : Operation R) (operationName : string)
    (w w' : World) :
  timed op operationName w <> (Hung, w').
Proof.
  unfold timed. destruct (op w) as [[v|e|] w1]; cbn; discriminate.
Qed.

Lemma safeOperation_counts {R} (op : Operation R) (operationName : string)
    (showUserError : bool) (w : World) :
  let inner :=
    retryWithBackoff random (timed op operationName) CONFIG.MAX_RETRIES
      operationName w in
  let run := safeOperation random op operationName showUserError w in
  attempts run = attempts inner /\ delays run = delays inner
  /\ failures run = failures inner.
Proof.
  cbv zeta. unfold safeOperation.
  destruct (outcome _) as [r|[e|]|]; [auto| |auto|auto].
  destruct showUserError; [|auto].
  destruct (getUserFriendlyErrorMessage _ e operationName); auto.
Qed.

Lemma le_of_N_finite (d : Double.t) (n : N) :
  Double.le d (Double.of_N n) ->
  exists x, d = Double.Finite x /\ (x <= n * Double.one)%N.
Proof.
  unfold Double.of_N. destruct d as [x| |]; cbn [Double.le];
    [eauto | contradiction | contradiction].
Qed.

(** X6. [safeOperation] always settles, whatever the operation does
    and even when it hangs: the operation is invoked at least once and
    at most [MAX_RETRIES] times, and all the backoff delays together
    are five seconds at most. *)
Theorem safeOperation_settles {R} (op : Operation R) (operationName : string)
    (showUserError : bool) (w : World) :
  let run := safeOperation random op operationName showUserError w in
  outcome run <> NeverSettles
  /\ (1 <= attempts run <= 3)%nat
  /\ (length (delays run) <= 2)%nat
  /\ Double.le (total_delay (delays run)) (Double.of_N 5000).
Proof.
  intros run.
  set (inner := retryWithBackoff random (timed op operationName)
                  CONFIG.MAX_RETRIES operationName w).
  destruct (safeOperation_counts op operationName showUserError w)
    as [Hatt [Hdel _]].
  fold run in Hatt, Hdel. fold inner in Hatt, Hdel.
  destruct (retry_loop_counts random (timed op operationName)
              CONFIG.MAX_RETRIES 3 1 None w O [] [] eq_refl)
    as [k [Hk [Hle [Hge [Hds _]]]]].
  change (retry_loop random (timed op operationName) CONFIG.MAX_RETRIES 3 1
            None w 0 [] []) with inner in Hk, Hds.
  cbn [Nat.add app] in Hk, Hds. specialize (Hge ltac:(lia)).
  split; [|split; [|split]].
  - pose proof (retry_loop_outcome random (timed op operationName)
                  CONFIG.MAX_RETRIES (Z.to_nat CONFIG.MAX_RETRIES) 1 None w O
                  [] []) as Hout.
    cbv zeta in Hout.
    fold (retryWithBackoff random (timed op operationName) CONFIG.MAX_RETRIES
            operationName w) in Hout.
    fold inner in Hout.
    unfold run, safeOperation. fold inner.
    destruct (outcome inner) as [r|[e|]|]; try discriminate.
    + destruct showUserError; [|discriminate].
      destruct (getUserFriendlyErrorMessage _ e operationName); discriminate.
    + destruct Hout as [es [w0 [_ Hop]]].
      now apply timed_never_hung in Hop.
  - rewrite Hatt, Hk. lia.
  - rewrite Hdel, Hds, delays_from_length. lia.
  - rewrite Hdel, Hds.
    destruct (le_of_N_finite _ _
                (proj2 (backoff_delay_bounds random random_range 1
                          ltac:(lia)))) as [x [Hx Hxle]].
    destruct (le_of_N_finite _ _
                (proj2 (backoff_delay_bounds random random_range 2
                          ltac:(lia)))) as [y [Hy Hyle]].
    change (Z.to_N (CONFIG.RETRY_DELAY_BASE * 2 ^ (1 - 1)) + 1000)%N
      with 2000%N in Hxle.
    change (Z.to_N (CONFIG.RETRY_DELAY_BASE * 2 ^ (2 - 1)) + 1000)%N
      with 3000%N in Hyle.
    unfold Double.of_N, total_delay.
    destruct k as [|[|[|[|k]]]]; try lia;
      cbn [Nat.sub delays_from fold_right];
      change (1 + 1) with 2; rewrite ?Hx, ?Hy; cbn [Double.le]; lia.
Qed.

Lemma retry_loop_all_retryable_inv {R} (op : Operation R) (N : Z)
    (I : World -> Prop) :
  (forall w0, I w0 ->
     exists e w1,
       op w0 = (Rejected e, w1) /\ isRetryableError w1 e = true /\ I w1) ->
  forall (remaining : nat) (attempt : Z) lastError w n errs ds,
    I w ->
    Z.of_nat (S remaining) = N - attempt + 1 ->
    let run :=
      retry_loop random op N (S remaining) attempt lastError w n errs ds in
    attempts run = (n + S remaining)%nat
    /\ I (world run)
    /\ length (delays run) = (length ds + remaining)%nat
    /\ exists e, outcome run = Thrown (Some e).
Proof.
  intros Hop. induction remaining as [|r IH];
    intros attempt lastError w n errs ds Hw Hrem;
    destruct (Hop w Hw) as [e [w1 [Hstep [He Hw1]]]].
  - cbv zeta. rewrite (retry_loop_stop random op N 0 attempt lastError w n errs
                         ds e w1 Hstep) by (left; lia).
    cbn. repeat split; try lia; eauto.
  - cbv zeta. rewrite (retry_loop_retry random op N (S r) attempt lastError w n
                         errs ds e w1 Hstep He) by lia.
    destruct (IH (attempt + 1) (Some e) w1 (S n) (errs ++ [e])
                 (ds ++ [backoff_delay random attempt]) Hw1 ltac:(lia))
      as [Hatt [Hi [Hlen Hout]]].
    rewrite Hatt, Hlen, length_app. cbn. repeat split; try lia; assumption.
Qed.

(** X7. After the [offline] event, an operation that keeps failing
    (or hanging) while the client stays offline is invoked
    [MAX_RETRIES] times, whatever its errors are; [safeOperation] then
    returns [null] without throwing, also for an error that has no
    message, and what it tells the user is the offline message. *)
Theorem offline_failure_retried_and_reported {R} (op : Operation R)
    (operationName : string) (showUserError : bool) (w0 : World) :
  (forall w, isOnline w = false ->
     exists s w1,
       op w = (s, w1) /\ (forall r, s <> Resolved r) /\ isOnline w1 = false) ->
  let run :=
    safeOperation random op operationName showUserError
      (ErrorHandlerInit.on_offline w0) in
  outcome run = Returned None
  /\ attempts run = 3%nat
  /\ length (delays run) = 2%nat
  /\ isOnline (world run) = false
  /\ (showUserError = true ->
      exists earlier,
        alerts (world run) = earlier ++ ["❌ " +:+ msg_offline]).
Proof.
  intros Hop run.
  set (w := ErrorHandlerInit.on_offline w0).
  assert (Hw : isOnline w = false) by reflexivity.
  assert (Htimed : forall w1, isOnline w1 = false ->
            exists e w2,
              timed op operationName w1 = (Rejected e, w2)
              /\ isRetryableError w2 e = true /\ isOnline w2 = false).
  { intros w1 Hoff. destruct (Hop w1 Hoff) as [s [w2 [Hs [Hnr Hoff2]]]].
    unfold timed. rewrite Hs.
    assert (Hretry : forall e, isRetryableError w2 e = true)
      by (intros e; unfold isRetryableError; now rewrite Hoff2).
    destruct s as [r|e|]; [now contradiction (Hnr r) | |]; cbn; eauto. }
  destruct (retry_loop_all_retryable_inv (timed op operationName)
              CONFIG.MAX_RETRIES (fun w1 => isOnline w1 = false) Htimed
              2 1 None w O [] [] Hw eq_refl)
    as [Hatt [Hoff [Hlen [e Hout]]]].
  change (retry_loop random (timed op operationName) CONFIG.MAX_RETRIES 3 1
            None w 0 [] [])
    with (retryWithBackoff random (timed op operationName) CONFIG.MAX_RETRIES
            operationName w) in Hatt, Hoff, Hlen, Hout.
  set (inner := retryWithBackoff random (timed op operationName)
                  CONFIG.MAX_RETRIES operationName w) in *.
  unfold run, safeOperation. fold w. fold inner. rewrite Hout.
  unfold getUserFriendlyErrorMessage.
  cbn [isOnline logError set_console]. rewrite Hoff. cbn [negb].
  destruct showUserError;
    cbn [outcome world attempts delays alert alerts set_alerts isOnline
         set_console logError];
    rewrite Hatt, Hlen; repeat split; try assumption; try discriminate.
  intros _. eexists. reflexivity.
Qed.

(** The error of a timed-out operation, for the names the program
    uses: online it is not retryable and falls under the generic
    rule. *)
Lemma timeout_error_class (name : string) (w : World) :
  In name operation_names -> isOnline w = true ->
  let e :=
    new_Error (name +:+ " timed out after " +:+ JS.show CONFIG.REQUEST_TIMEOUT
               +:+ "ms") in
  isRetryableError w e = false
  /\ getUserFriendlyErrorMessage w e name = inr (msg_generic name).
Proof.
  intros Hin Hon. cbv zeta.
  unfold isRetryableError, getUserFriendlyErrorMessage. rewrite Hon.
  cbn [negb].
  repeat (destruct Hin as [<- | Hin]; [split; vm_compute; reflexivity|]).
  destruct Hin.
Qed.

(** X8. For each of the operation names of the program, an
    operation that hangs while the client is online is given up after
    the request timeout without a retry: the message of the timeout
    error reads "timed out", which is none of the retryable patterns,
    and the user gets the generic failure message, not the one for
    timeouts. *)
Theorem hung_operation_not_retried {R} (op : Operation R) (name : string)
    (w w1 : World) :
  In name operation_names ->
  op w = (Hung, w1) -> isOnline w1 = true ->
  let run := safeOperation random op name true w in
  outcome run = Returned None
  /\ attempts run = 1%nat
  /\ delays run = []
  /\ alerts (world run) = alerts w1 ++ ["❌ " +:+ msg_generic name].
Proof.
  intros Hin Hop Hon run.
  destruct (timeout_error_class name w1 Hin Hon) as [Hnr _].
  cbv zeta in Hnr.
  set (e := new_Error (name +:+ " timed out after "
                       +:+ JS.show CONFIG.REQUEST_TIMEOUT +:+ "ms")) in *.
  assert (Hstep : timed op name w = (Rejected e, w1))
    by (unfold timed; now rewrite Hop).
  assert (Hinner : retryWithBackoff random (timed op name) CONFIG.MAX_RETRIES
                     name w
                   = mkRun (Thrown (Some e)) w1 1 [e] []).
  { unfold retryWithBackoff. change (Z.to_nat CONFIG.MAX_RETRIES) with 3%nat.
    rewrite (retry_loop_stop random (timed op name) CONFIG.MAX_RETRIES 2 1 None
               w O [] [] e w1 Hstep); [reflexivity | now right]. }
  set (logged := logError "Safe Operation Error" name (message e) w1).
  assert (Hlogged : isOnline logged = true) by exact Hon.
  destruct (timeout_error_class name logged Hin Hlogged) as [_ Hmsg].
  cbv zeta in Hmsg. fold e in Hmsg.
  unfold run, safeOperation. rewrite Hinner. cbn [outcome world].
  fold logged. rewrite Hmsg. cbn. repeat split.
Qed.

Lemma toLowerCase_append (a b : string) :
  JS.toLowerCase (a +:+ b) = JS.toLowerCase a +:+ JS.toLowerCase b.
Proof. induction a as [|c a IH]; cbn; [reflexivity | now rewrite IH]. Qed.

Lemma includes_toLowerCase (m p : string) :
  JS.toLowerCase p = p -> JS.includes m p = true ->
  JS.includes (JS.toLowerCase m) p = true.
Proof.
  intros Hp H. apply includes_iff in H as [pre [post ->]].
  apply includes_iff. exists (JS.toLowerCase pre), (JS.toLowerCase post).
  now rewrite !toLowerCase_append, Hp.
Qed.

(** X9. The wording rules and the retry rule agree in one direction:
    an error whose message contains [timeout] or [rate limit], which
    is when the user is told that the operation takes too long or
    that there are too many requests, is always classified
    retryable. *)
Theorem worded_failures_are_retryable (w : World) (error : Error) (m : string) :
  message error = Some m ->
  JS.includes m "timeout" = true \/ JS.includes m "rate limit" = true ->
  isRetryableError w error = true.
Proof.
  intros Hm H. unfold isRetryableError.
  destruct (isOnline w); cbn [negb]; [|reflexivity].
  destruct (status_retryable error); [reflexivity|].
  rewrite message_or_empty_default, Hm. cbn [default].
  apply existsb_exists. destruct H as [H | H].
  - exists "timeout". split; [cbn; auto|].
    now apply includes_toLowerCase.
  - exists "rate limit". split; [cbn; auto 6|].
    now apply includes_toLowerCase.
Qed.

End SafeFacts.

(** ** Submitting a post: success, odd replies, drafts *)

Section SubmitMoreFacts.

Import ErrorHandler.

Variable random : Z -> Q.
Variable marked_parse : string -> bool -> string.
Variable toLocaleDateString : Z -> string.

Lemma same_drafts_refl (w : World) : same_drafts w w.
Proof. repeat split. Qed.

Lemma same_drafts_trans (a b c : World) :
  same_drafts a b -> same_drafts b c -> same_drafts a c.
Proof.
  unfold same_drafts. intros H1 H2.
  destruct H1 as [? [? [? [? [? [? ?]]]]]], H2 as [? [? [? [? [? [? ?]]]]]].
  repeat split; congruence.
Qed.

Lemma addPostToUI_same_drafts (title content date : string) (b : bool) (id : N)
    (likes : Z) (w : World) :
  same_drafts w (UIManager.addPostToUI marked_parse title content date b id likes w).
Proof.
  unfold UIManager.addPostToUI. destruct (logContainer w); repeat split.
Qed.

Lemma after_insert_same_drafts (title : string) (newPost : option Row)
    (w : World) :
  same_drafts w
    (snd (PostManager.after_insert marked_parse toLocaleDateString title
            newPost w)).
Proof.
  unfold PostManager.after_insert. destruct newPost as [post|]; cbn [snd].
  - eapply same_drafts_trans; [|apply addPostToUI_same_drafts]. repeat split.
  - repeat split.
Qed.

Lemma validateFields_same_drafts (fields : list (string * option string))
    (w : World) :
  same_drafts w (snd (Utils.validateFields fields w)).
Proof.
  induction fields as [|[name value] fields IH]; [repeat split|].
  cbn [Utils.validateFields].
  destruct (Utils.is_empty_field value); [repeat split | exact IH].
Qed.

Lemma submitOperation_same_drafts (w : World) :
  same_drafts w
    (snd (PostManager.submitOperation marked_parse toLocaleDateString w)).
Proof.
  unfold PostManager.submitOperation.
  pose proof (validateFields_same_drafts
                [("Title", postTitle w); ("Content", postContent w)] w) as Hv.
  destruct (Utils.validateFields _ w) as [valid w1]. cbn [snd] in Hv.
  destruct valid; cbn [negb]; [|exact Hv].
  destruct (postTitle w) as [t|]; [|exact Hv].
  destruct (postContent w) as [c|]; [|exact Hv].
  unfold remote.
  set (w2 := set_requests _ w1).
  assert (H2 : same_drafts w w2)
    by (eapply same_drafts_trans; [exact Hv | repeat split]).
  destruct (backend w1 _) as [[e|] data|]; try exact H2.
  destruct data as [|r|l]; try exact H2;
    (eapply same_drafts_trans; [exact H2 | apply after_insert_same_drafts]).
Qed.

(** [PostManager.submitPost] leaves drafts, timers, clock, cookies and
    backend alone, however it ends. *)
Lemma submitPost_same_drafts (w : World) :
  same_drafts w
    (snd (PostManager.submitPost random marked_parse toLocaleDateString w)).
Proof.
  pose proof (safeOperation_preserves random
                (PostManager.submitOperation marked_parse toLocaleDateString)
                "Submit Post" true (same_drafts w)) as H.
  unfold PostManager.submitPost, PostManager.submitPost_run, not_null.
  assert (Hrun : same_drafts w
            (world (safeOperation random
                      (PostManager.submitOperation marked_parse
                         toLocaleDateString) "Submit Post" true w))).
  { apply H.
    - intros w0 s w' Hw0 Hop. eapply same_drafts_trans; [exact Hw0|].
      pose proof (submitOperation_same_drafts w0) as Hs.
      now rewrite Hop in Hs.
    - intros w0 v Hw0. exact Hw0.
    - intros w0 v Hw0. exact Hw0.
    - apply same_drafts_refl. }
  destruct (outcome _) as [[r|]|e|]; exact Hrun.
Qed.

Lemma fire_content_keeps_keys (w : World) (key : string) :
  is_Some (localStorage w !! key) ->
  is_Some (localStorage (App.fire_content w) !! key).
Proof.
  intros H. unfold App.fire_content.
  destruct (contentTimer w) as [t|]; [|exact H].
  destruct (deadline t <=? now w)%N; [|exact H].
  cbn. destruct (decide (App.draft_post_content = key)) as [<-|Hne].
  - rewrite lookup_insert_eq. eauto.
  - now rewrite lookup_insert_ne.
Qed.

Lemma fire_title_keeps_keys (w : World) (key : string) :
  is_Some (localStorage w !! key) ->
  is_Some (localStorage (App.fire_title w) !! key).
Proof.
  intros H. unfold App.fire_title.
  destruct (titleTimer w) as [t|]; [|exact H].
  destruct (deadline t <=? now w)%N; [|exact H].
  cbn. destruct (decide (App.draft_post_title = key)) as [<-|Hne].
  - rewrite lookup_insert_eq. eauto.
  - now rewrite lookup_insert_ne.
Qed.

(** Time that passes removes no draft. *)
Lemma elapse_keeps_keys (ms : N) (w : World) (key : string) :
  is_Some (localStorage w !! key) ->
  is_Some (localStorage (App.step (App.Elapse ms) w) !! key).
Proof.
  intros H. cbn [App.step]. unfold App.fire_due.
  set (w0 := set_now (now w + ms)%N w).
  assert (H0 : is_Some (localStorage w0 !! key)) by exact H.
  destruct (contentTimer w0) as [c|]; [destruct (titleTimer w0) as [t|]|];
    [destruct (App.runs_first t c)| |];
    auto using fire_content_keeps_keys, fire_title_keeps_keys.
Qed.

(** The rebound [submitPost] is the original run after the time the
    submission takes, followed by the removal of the drafts when the
    result is [true]. *)
Lemma submitPost_after_elapse (elapsed : N) (w : World) :
  let w0 := App.step (App.Elapse elapsed) w in
  let result := App.submitPost random marked_parse toLocaleDateString elapsed w in
  let original :=
    PostManager.submitPost random marked_parse toLocaleDateString w0 in
  fst result = fst original
  /\ same_drafts w0 (snd original)
  /\ (snd result = snd original
      \/ (fst original = Returned true
          /\ is_Some (postContent w)
          /\ snd result
             = App.localStorage_removeItem App.draft_post_title
                 (App.localStorage_removeItem App.draft_post_content
                    (snd original)))).
Proof.
  cbv zeta. unfold App.submitPost.
  pose proof (submitPost_same_drafts (App.step (App.Elapse elapsed) w)) as Hs.
  destruct (PostManager.submitPost random marked_parse toLocaleDateString
              (App.step (App.Elapse elapsed) w)) as [result w1].
  cbn [fst snd] in *.
  destruct (postContent w) as [v|]; [|cbn [fst snd]; auto].
  destruct result as [[|]|e|]; cbn [fst snd]; auto.
  split; [reflexivity|]. split; [exact Hs|]. right. eauto.
Qed.

(** X10. A submission that does not end with [true] removes no draft:
    local storage is afterwards what the saves that came due while the
    submission ran have made of it, and every key stored before is
    still stored; and no submission, however it ends, writes a draft
    itself or touches a save timer that is still pending. *)
Theorem failed_submission_keeps_drafts (elapsed : N) (w : World) :
  let w0 := App.step (App.Elapse elapsed) w in
  let result := App.submitPost random marked_parse toLocaleDateString elapsed w in
  (fst result <> Returned true ->
   localStorage (snd result) = localStorage w0
   /\ forall key, is_Some (localStorage w !! key) ->
                  is_Some (localStorage (snd result) !! key))
  /\ setItems (snd result) = setItems w0
  /\ contentTimer (snd result) = contentTimer w0
  /\ titleTimer (snd result) = titleTimer w0.
Proof.
  cbv zeta.
  destruct (submitPost_after_elapse elapsed w) as [Hres [Hs Hw]].
  destruct Hs as [Hl [Hsi [Hc [Ht _]]]].
  destruct Hw as [-> | [Htrue [_ ->]]].
  - split; [|auto]. intros _. split; [exact Hl|].
    intros key Hkey. rewrite Hl. now apply elapse_keeps_keys.
  - split; [|cbn; auto]. intros H. contradiction H. now rewrite Hres.
Qed.




Lemma is_empty_field_text (text : string) :
  JS.trim text <> EmptyString -> Utils.is_empty_field (Some text) = false.
Proof.
  intros H. cbn [Utils.is_empty_field].
  rewrite (trim_nonempty_truthy text H).
  destruct (JS.trim text); [contradiction | reflexivity].
Qed.

Lemma submitOperation_valid (w : World) (t c : string) :
  postTitle w = Some t -> postContent w = Some c ->
  JS.trim t <> EmptyString -> JS.trim c <> EmptyString ->
  PostManager.submitOperation marked_parse toLocaleDateString w
  = match remote (InsertPost (JS.trim t) (JS.trim c) 0) w with
    | (NoAnswer, w2) => (Hung, w2)
    | (Answer (Some error) _, w2) => (Rejected error, w2)
    | (Answer None DNull, w2) =>
        (Rejected (PostManager.TypeError_of "null (reading '0')"), w2)
    | (Answer None (DRow _), w2) =>
        PostManager.after_insert marked_parse toLocaleDateString t None w2
    | (Answer None (DRows l), w2) =>
        PostManager.after_insert marked_parse toLocaleDateString t (head l) w2
    end.
Proof.
  intros Ht Hc Htt Hct. unfold PostManager.submitOperation.
  cbn [Utils.validateFields]. rewrite Ht, Hc.
  rewrite !is_empty_field_text by assumption. reflexivity.
Qed.

Lemma original_submit_success (w : World) (t c : string) (post : Row)
    (more : list Row) (children : list PostElement) :
  postTitle w = Some t -> postContent w = Some c ->
  JS.trim t <> EmptyString -> JS.trim c <> EmptyString ->
  logContainer w = Some children ->
  backend w (requests w ++ [InsertPost (JS.trim t) (JS.trim c) 0])
  = Answer None (DRows (post :: more)) ->
  let result :=
    PostManager.submitPost random marked_parse toLocaleDateString w in
  let w' := snd result in
  fst result = Returned true
  /\ requests w' = requests w ++ [InsertPost (JS.trim t) (JS.trim c) 0]
  /\ alerts w' = alerts w ++ ["✅ Post added successfully!"]
  /\ notifications w' = notifications w ++ [("New Post 🔔", t)]
  /\ postTitle w' = Some EmptyString /\ postContent w' = Some EmptyString
  /\ postModalHidden w' = true
  /\ logContainer w'
     = Some (submitted marked_parse toLocaleDateString w post :: children)
  /\ localStorage w' = localStorage w.
Proof.
  intros Ht Hc Htt Hct Hlist Hreply result w'.
  pose proof (submitOperation_valid w t c Ht Hc Htt Hct) as Hop.
  unfold remote in Hop. rewrite Hreply in Hop. cbn [head] in Hop.
  unfold PostManager.after_insert in Hop.
  set (wfinal := snd (PostManager.submitOperation marked_parse
                        toLocaleDateString w)).
  assert (Hrun : PostManager.submitPost_run random marked_parse
                   toLocaleDateString w
                 = mkRun (Returned (Some post)) wfinal 1 [] []).
  { unfold PostManager.submitPost_run, safeOperation, retryWithBackoff.
    change (Z.to_nat CONFIG.MAX_RETRIES) with 3%nat.
    erewrite retry_loop_resolved; [reflexivity|].
    unfold timed, wfinal. now rewrite Hop. }
  subst result w'. unfold PostManager.submitPost.
  rewrite Hrun. unfold not_null. cbn [outcome world].
  cbn [fst snd]. unfold wfinal. rewrite Hop. cbn [snd].
  unfold UIManager.addPostToUI, Utils.toggleElement_postModal,
    Utils.clearInputs_post, NotificationManager.send, alert.
  cbn [logContainer set_postModalHidden set_postContent set_postTitle
       set_notifications set_alerts set_requests postTitle postContent].
  rewrite Hlist, Ht, Hc.
  repeat split.
Qed.

(** X12. A submission with a title and a content that are not blank,
    whose insert the backend answers with the new row: one insert is
    issued, with both texts trimmed and zero likes; the user is told
    of the success and a notification with the title as typed is
    requested; both fields are emptied and the dialog is hidden; the
    returned row is put in front of the displayed list; and both
    drafts are removed, those included that a save timer has written
    while the submission ran. *)
Theorem submitPost_success (elapsed : N) (w : World) (t c : string)
    (post : Row) (more : list Row) (children : list PostElement) :
  postTitle w = Some t -> postContent w = Some c ->
  JS.trim t <> EmptyString -> JS.trim c <> EmptyString ->
  logContainer w = Some children ->
  backend w (requests w ++ [InsertPost (JS.trim t) (JS.trim c) 0])
  = Answer None (DRows (post :: more)) ->
  let w0 := App.step (App.Elapse elapsed) w in
  let result := App.submitPost random marked_parse toLocaleDateString elapsed w in
  let w' := snd result in
  fst result = Returned true
  /\ requests w' = requests w ++ [InsertPost (JS.trim t) (JS.trim c) 0]
  /\ alerts w' = alerts w ++ ["✅ Post added successfully!"]
  /\ notifications w' = notifications w ++ [("New Post 🔔", t)]
  /\ postTitle w' = Some EmptyString /\ postContent w' = Some EmptyString
  /\ postModalHidden w' = true
  /\ logContainer w'
     = Some (submitted marked_parse toLocaleDateString w0 post :: children)
  /\ localStorage w'
     = delete App.draft_post_title
         (delete App.draft_post_content (localStorage w0)).
Proof.
  intros Ht Hc Htt Hct Hlist Hreply w0 result w'.
  destruct (elapse_frame elapsed w)
    as (F1 & F2 & F3 & F4 & F5 & F6 & F7 & _).
  fold w0 in F1, F2, F3, F4, F5, F6, F7.
  destruct (original_submit_success w0 t c post more children)
    as (R1 & R2 & R3 & R4 & R5 & R6 & R7 & R8 & R9);
    [congruence | congruence | assumption | assumption | congruence
    | rewrite F5, F4; exact Hreply |].
  subst result w'. unfold App.submitPost. fold w0.
  destruct (PostManager.submitPost random marked_parse toLocaleDateString w0)
    as [r w1].
  cbn [fst snd] in R1, R2, R3, R4, R5, R6, R7, R8, R9. subst r.
  rewrite Hc. cbn [fst snd]. unfold App.localStorage_removeItem.
  cbn [requests alerts notifications postTitle postContent postModalHidden
       logContainer localStorage set_localStorage].
  rewrite R2, R3, R4, R5, R6, R7, R8, R9, F4, F6, F7.
  repeat split.
Qed.

Lemma original_submit_without_row (w : World) (t c : string) :
  postTitle w = Some t -> postContent w = Some c ->
  JS.trim t <> EmptyString -> JS.trim c <> EmptyString ->
  isOnline w = true ->
  backend w (requests w ++ [InsertPost (JS.trim t) (JS.trim c) 0])
  = Answer None (DRows []) ->
  let result :=
    PostManager.submitPost random marked_parse toLocaleDateString w in
  let w' := snd result in
  fst result = Returned false
  /\ requests w' = requests w ++ [InsertPost (JS.trim t) (JS.trim c) 0]
  /\ alerts w'
     = alerts w ++ ["✅ Post added successfully!";
                    "❌ " +:+ msg_generic "Submit Post"]
  /\ postTitle w' = Some EmptyString /\ postContent w' = Some EmptyString
  /\ postModalHidden w' = true
  /\ logContainer w' = logContainer w
  /\ localStorage w' = localStorage w.
Proof.
  intros Ht Hc Htt Hct Hon Hreply result w'.
  pose proof (submitOperation_valid w t c Ht Hc Htt Hct) as Hop.
  unfold remote in Hop. rewrite Hreply in Hop. cbn [head] in Hop.
  unfold PostManager.after_insert in Hop.
  set (e := PostManager.TypeError_of "undefined (reading 'title')") in *.
  set (wfinal := snd (PostManager.submitOperation marked_parse
                        toLocaleDateString w)).
  assert (Hfinal_on : isOnline wfinal = true)
    by (unfold wfinal; rewrite Hop; exact Hon).
  assert (Hnr : forall w0, isOnline w0 = true -> isRetryableError w0 e = false).
  { intros w0 H0. unfold isRetryableError. now rewrite H0. }
  assert (Hrun : retryWithBackoff random
                   (timed (PostManager.submitOperation marked_parse
                             toLocaleDateString) "Submit Post")
                   CONFIG.MAX_RETRIES "Submit Post" w
                 = mkRun (Thrown (Some e)) wfinal 1 [e] []).
  { unfold retryWithBackoff. change (Z.to_nat CONFIG.MAX_RETRIES) with 3%nat.
    erewrite retry_loop_stop; [reflexivity | | right; now apply Hnr].
    unfold timed, wfinal. now rewrite Hop. }
  assert (Hmsg : forall w0, isOnline w0 = true ->
            getUserFriendlyErrorMessage w0 e "Submit Post"
            = inr (msg_generic "Submit Post")).
  { intros w0 H0. unfold getUserFriendlyErrorMessage. now rewrite H0. }
  assert (Hout : outcome (retryWithBackoff random
                   (timed (PostManager.submitOperation marked_parse
                             toLocaleDateString) "Submit Post")
                   CONFIG.MAX_RETRIES "Submit Post" w) = Thrown (Some e))
    by now rewrite Hrun.
  destruct (safeOperation_catches random
              (PostManager.submitOperation marked_parse toLocaleDateString)
              "Submit Post" true w e _ Hout eq_refl)
    as [text [Htext [Hres [_ Hworld]]]].
  rewrite Hrun in Htext, Hworld. cbn [world] in Htext, Hworld.
  rewrite Hmsg in Htext by exact Hfinal_on. injection Htext as <-.
  subst result w'. unfold PostManager.submitPost,
    PostManager.submitPost_run, not_null.
  rewrite Hres, Hworld. cbn [fst snd].
  unfold wfinal. rewrite Hop. cbn [snd].
  unfold Utils.toggleElement_postModal, Utils.clearInputs_post,
    NotificationManager.send, alert, logError.
  cbn [logContainer set_postModalHidden set_postContent set_postTitle
       set_notifications set_alerts set_requests set_console postTitle
       postContent alerts requests postModalHidden localStorage].
  rewrite Ht, Hc. cbn [option_map]. rewrite <- app_assoc.
  repeat split.
Qed.

(** X13. While the client is online, an insert that succeeds but
    returns no row leaves the page in a mixed state: the post has been
    sent once and is not sent again, the success alert is followed by
    the failure alert, the fields are emptied and the dialog hidden,
    nothing is added to the displayed list, the result is [false] and
    no draft is removed: local storage is what the saves that came due
    while the submission ran have made of it. *)
Theorem submitPost_without_returned_row (elapsed : N) (w : World)
    (t c : string) :
  postTitle w = Some t -> postContent w = Some c ->
  JS.trim t <> EmptyString -> JS.trim c <> EmptyString ->
  isOnline w = true ->
  backend w (requests w ++ [InsertPost (JS.trim t) (JS.trim c) 0])
  = Answer None (DRows []) ->
  let w0 := App.step (App.Elapse elapsed) w in
  let result := App.submitPost random marked_parse toLocaleDateString elapsed w in
  let w' := snd result in
  fst result = Returned false
  /\ requests w' = requests w ++ [InsertPost (JS.trim t) (JS.trim c) 0]
  /\ alerts w'
     = alerts w ++ ["✅ Post added successfully!";
                    "❌ " +:+ msg_generic "Submit Post"]
  /\ postTitle w' = Some EmptyString /\ postContent w' = Some EmptyString
  /\ postModalHidden w' = true
  /\ logContainer w' = logContainer w
  /\ localStorage w' = localStorage w0.
Proof.
  intros Ht Hc Htt Hct Hon Hreply w0 result w'.
  destruct (elapse_frame elapsed w)
    as (F1 & F2 & F3 & F4 & F5 & F6 & F7 & F8 & F9 & _).
  fold w0 in F1, F2, F3, F4, F5, F6, F7, F8, F9.
  destruct (original_submit_without_row w0 t c)
    as (R1 & R2 & R3 & R4 & R5 & R6 & R7 & R8);
    [congruence | congruence | assumption | assumption | congruence
    | rewrite F5, F4; exact Hreply |].
  subst result w'. unfold App.submitPost. fold w0.
  destruct (PostManager.submitPost random marked_parse toLocaleDateString w0)
    as [r w1].
  cbn [fst snd] in R1, R2, R3, R4, R5, R6, R7, R8. subst r.
  rewrite Hc. cbn [fst snd].
  rewrite R2, R3, R4, R5, R6, R7, R8, F3, F4, F6.
  repeat split.
Qed.

End SubmitMoreFacts.

(** ** Loading the posts through failures *)

Section LoadMoreFacts.

Import ErrorHandler.

Variable random : Z -> Q.
Variable marked_parse : string -> bool -> string.
Variable toLocaleDateString : Z -> string.

Lemma status_retryable_always (w : World) (e : Error) :
  status_retryable e = true -> isRetryableError w e = true.
Proof.
  intros H. unfold isRetryableError. rewrite H. now destruct (isOnline w).
Qed.

Lemma loadOperation_error (isLoggedIn : bool) (w : World) (e : Error)
    (d : Data) :
  backend w (requests w ++ [SelectAllPosts]) = Answer (Some e) d ->
  timed (App.loadOperation marked_parse toLocaleDateString isLoggedIn)
    "Load Posts" w
  = (Rejected e, set_requests (requests w ++ [SelectAllPosts]) w).
Proof.
  intros H. unfold timed, App.loadOperation, remote. now rewrite H.
Qed.

(** X14. The fetch fails twice with a retryable status (a 503, say)
    and succeeds at the third attempt: three requests are issued with
    two backoff delays between them, no failure is shown to the user,
    and what is displayed is the list of the successful reply,
    reversed, in front of what was there. *)
Theorem loadPosts_after_two_failures (isLoggedIn : bool) (w : World)
    (e1 e2 : Error) (d1 d2 : Data) (data : list Row)
    (children : list PostElement) :
  logContainer w = Some children ->
  status_retryable e1 = true -> status_retryable e2 = true ->
  backend w (requests w ++ [SelectAllPosts]) = Answer (Some e1) d1 ->
  backend w (requests w ++ [SelectAllPosts; SelectAllPosts])
  = Answer (Some e2) d2 ->
  backend w (requests w ++ [SelectAllPosts; SelectAllPosts; SelectAllPosts])
  = Answer None (DRows data) ->
  let run :=
    App.loadPosts_run random marked_parse toLocaleDateString isLoggedIn w in
  outcome run = Returned (Some data)
  /\ attempts run = 3%nat
  /\ delays run = [backoff_delay random 1; backoff_delay random 2]
  /\ requests (world run)
     = requests w ++ [SelectAllPosts; SelectAllPosts; SelectAllPosts]
  /\ alerts (world run) = alerts w
  /\ logContainer (world run)
     = Some (map (rendered marked_parse toLocaleDateString isLoggedIn w)
               (rev data) ++ children).
Proof.
  intros Hc Hs1 Hs2 Hb1 Hb2 Hb3 run.
  set (op := timed (App.loadOperation marked_parse toLocaleDateString
                      isLoggedIn) "Load Posts").
  set (w1 := set_requests (requests w ++ [SelectAllPosts]) w).
  set (w2 := set_requests (requests w1 ++ [SelectAllPosts]) w1).
  assert (Hr2 : requests w1 ++ [SelectAllPosts]
                = requests w ++ [SelectAllPosts; SelectAllPosts])
    by (cbn; now rewrite <- app_assoc).
  assert (Hr3 : requests w2 ++ [SelectAllPosts]
                = requests w ++ [SelectAllPosts; SelectAllPosts; SelectAllPosts])
    by (cbn; now rewrite <- !app_assoc).
  assert (Hstep1 : op w = (Rejected e1, w1))
    by (apply loadOperation_error with (d := d1); exact Hb1).
  assert (Hstep2 : op w1 = (Rejected e2, w2)).
  { apply loadOperation_error with (d := d2).
    change (backend w1) with (backend w). now rewrite Hr2. }
  set (w3 := fold_left (App.show_post marked_parse toLocaleDateString isLoggedIn)
               data (set_requests (requests w2 ++ [SelectAllPosts]) w2)).
  assert (Hstep3 : op w2 = (Resolved data, w3)).
  { unfold op, timed, App.loadOperation, remote.
    change (backend w2) with (backend w). unfold w3. rewrite Hr3, Hb3.
    reflexivity. }
  assert (Hinner : retryWithBackoff random op CONFIG.MAX_RETRIES "Load Posts" w
                   = mkRun (Returned data) w3 3 [e1; e2]
                       [backoff_delay random 1; backoff_delay random 2]).
  { unfold retryWithBackoff. change (Z.to_nat CONFIG.MAX_RETRIES) with 3%nat.
    rewrite (retry_loop_retry random op CONFIG.MAX_RETRIES 2 1 None w O [] []
               e1 w1 Hstep1 (status_retryable_always w1 e1 Hs1))
      by discriminate.
    rewrite (retry_loop_retry random op CONFIG.MAX_RETRIES 1 (1 + 1) (Some e1)
               w1 1 _ _ e2 w2 Hstep2 (status_retryable_always w2 e2 Hs2))
      by discriminate.
    now rewrite (retry_loop_resolved random op CONFIG.MAX_RETRIES 0 _ _ w2 _ _
                   _ data w3 Hstep3). }
  unfold run, App.loadPosts_run, safeOperation. fold op. rewrite Hinner.
  cbn [outcome world attempts delays].
  unfold w3.
  rewrite (forEach_prepends marked_parse toLocaleDateString isLoggedIn data _
             children) by exact Hc.
  cbn [requests set_logContainer set_requests alerts logContainer].
  rewrite Hr3. repeat split.
Qed.

End LoadMoreFacts.

(** ** Liking a post that has not been liked *)

Section LikeMoreFacts.

Import ErrorHandler.

Variable random : Z -> Q.

Lemma update_first_absent (id : string) (f : PostElement -> PostElement)
    (l : list PostElement) :
  Forall (fun x => likeCountId x <> id) l -> PostManager.update_first id f l = l.
Proof.
  induction 1 as [|x l Hx _ IH]; [reflexivity|].
  cbn [PostManager.update_first].
  destruct (String.eqb_spec (likeCountId x) id); [contradiction|].
  now rewrite IH.
Qed.

Lemma update_first_split (id : string) (f : PostElement -> PostElement)
    (before after : list PostElement) (el : PostElement) :
  Forall (fun x => likeCountId x <> id) before -> likeCountId el = id ->
  PostManager.update_first id f (before ++ el :: after)
  = before ++ f el :: after.
Proof.
  intros Hb Hel. induction Hb as [|x l Hx _ IH].
  - cbn. rewrite Hel. now rewrite String.eqb_refl.
  - cbn [app PostManager.update_first].
    destruct (String.eqb_spec (likeCountId x) id); [contradiction|].
    now rewrite IH.
Qed.

(** X15. [updateLikeUI] touches one element at most: the first of the
    displayed list whose counter carries the id of the post gets the
    new count and a disabled, liked button, everything before and after
    it stays, later elements with the same counter id included; with
    no such element nothing changes at all. *)
Theorem updateLikeUI_first_counter (postId : N) (newLikes : Z) (w : World)
    (children : list PostElement) :
  logContainer w = Some children ->
  (Forall (fun x => likeCountId x <> "like-count-" +:+ JS.show postId) children ->
   PostManager.updateLikeUI postId newLikes w = w)
  /\ (forall before el after,
        children = before ++ el :: after ->
        Forall (fun x => likeCountId x <> "like-count-" +:+ JS.show postId)
          before ->
        likeCountId el = "like-count-" +:+ JS.show postId ->
        logContainer (PostManager.updateLikeUI postId newLikes w)
        = Some (before
                ++ mkPostElement (dataset_postId el) (innerHTML el)
                     (likeCountId el) (JS.showZ newLikes) true true
                :: after)).
Proof.
  intros Hc. unfold PostManager.updateLikeUI. rewrite Hc. split.
  - intros Habs. rewrite update_first_absent by exact Habs.
    rewrite <- Hc. now destruct w.
  - intros before el after -> Hb Hel.
    now rewrite update_first_split by assumption.
Qed.

(** X16. A post that has not been liked, whose row the backend returns
    and whose update it acknowledges: the like takes one attempt and
    two requests, the count written is the stored count plus one (an
    absent count is taken as zero), the page shows what [updateLikeUI]
    makes of that count, the flag of the post is set, and nothing is
    shown to the user. *)
Theorem likePost_success (postId : N) (w : World) (r : Row) (d : Data) :
  wf_jar (cookies w) ->
  CookieManager.hasLiked postId w = false ->
  backend w (requests w ++ [SelectLikes postId]) = Answer None (DRow r) ->
  backend w (requests w
             ++ [SelectLikes postId;
                 UpdateLikes postId (default 0 (post_likes r) + 1)])
  = Answer None d ->
  let run := PostManager.likePost_run random postId w in
  let w' := world run in
  fst (PostManager.likePost random postId w) = Returned true
  /\ attempts run = 1%nat
  /\ requests w'
     = requests w
       ++ [SelectLikes postId;
           UpdateLikes postId (default 0 (post_likes r) + 1)]
  /\ logContainer w'
     = logContainer
         (PostManager.updateLikeUI postId (default 0 (post_likes r) + 1) w)
  /\ CookieManager.hasLiked postId w' = true
  /\ alerts w' = alerts w.
Proof.
  intros Hwf Hnot Hb1 Hb2 run w'.
  set (n := default 0 (post_likes r) + 1) in *.
  set (w2 := set_requests
               (requests w ++ [SelectLikes postId; UpdateLikes postId n]) w).
  set (w4 := CookieManager.set ("liked_" +:+ JS.show postId) "true"
               CONFIG.COOKIE_MAX_AGE (PostManager.updateLikeUI postId n w2)).
  assert (Hop : PostManager.likeOperation postId w = (Resolved true, w4)).
  { unfold PostManager.likeOperation. rewrite Hnot. unfold remote.
    rewrite Hb1. cbn [PostManager.data_truthy PostManager.data_likes].
    cbn [requests set_requests backend]. rewrite <- app_assoc. cbn [app].
    fold n. rewrite Hb2. reflexivity. }
  assert (Hrun : run = mkRun (Returned (Some true)) w4 1 [] []).
  { unfold run, PostManager.likePost_run, safeOperation, retryWithBackoff.
    change (Z.to_nat CONFIG.MAX_RETRIES) with 3%nat.
    erewrite retry_loop_resolved; [reflexivity|].
    unfold timed. now rewrite Hop. }
  assert (Hset : w4 = set_cookies
                        (Document.store (liked_name postId) "true"
                           (cookies (PostManager.updateLikeUI postId n w2)))
                        (PostManager.updateLikeUI postId n w2)).
  { unfold w4. apply set_stores;
      [apply liked_name_ok | reflexivity | discriminate]. }
  destruct (updateLikeUI_frame postId n w2) as (Hck & Hrq & Hbk).
  unfold PostManager.likePost. fold run. subst w'. rewrite Hrun.
  unfold not_null. cbn [outcome world attempts fst].
  repeat split.
  - rewrite Hset. cbn [requests set_cookies]. now rewrite Hrq.
  - rewrite Hset. cbn [logContainer set_cookies].
    unfold PostManager.updateLikeUI, w2. cbn [logContainer set_requests].
    now destruct (logContainer w).
  - assert (Hc : cookies w4
                 = Document.store (liked_name postId) "true" (cookies w))
      by (rewrite Hset; cbn [cookies set_cookies]; now rewrite Hck).
    destruct (hasLiked_after_store postId postId w w4 Hwf Hc) as [_ ->].
    now rewrite N.eqb_refl.
  - rewrite Hset. cbn [alerts set_cookies].
    unfold PostManager.updateLikeUI, w2. cbn [logContainer set_requests].
    now destruct (logContainer w).
Qed.

End LikeMoreFacts.

(** ** Debounced saving while the user types *)

Section AutoSaveMoreFacts.

Import App.

(** With no title timer armed, time that passes before the deadline of
    the content timer moves the clock only, and time that reaches the
    deadline runs the one save. *)
Lemma elapse_idle (w : World) (t : Timer) (ms : N) :
  contentTimer w = Some t -> titleTimer w = None ->
  (now w + ms < deadline t)%N ->
  step (Elapse ms) w = set_now (now w + ms)%N w.
Proof.
  intros Hc Ht Hlater. cbn [step]. unfold fire_due.
  cbn [contentTimer titleTimer set_now]. rewrite Hc, Ht.
  unfold fire_content. cbn [contentTimer set_now now]. rewrite Hc.
  destruct (N.leb_spec (deadline t) (now w + ms)); [lia|].
  unfold fire_title. cbn [titleTimer set_now]. now rewrite Ht.
Qed.

Lemma elapse_due_alone (w : World) (t : Timer) (ms : N) :
  contentTimer w = Some t -> titleTimer w = None ->
  (deadline t <= now w + ms)%N ->
  step (Elapse ms) w
  = localStorage_setItem draft_post_content (saved_arg t)
      (set_contentTimer None (set_now (now w + ms)%N w)).
Proof.
  intros Hc Ht Hdue. cbn [step]. unfold fire_due.
  cbn [contentTimer titleTimer set_now]. rewrite Hc, Ht.
  unfold fire_content. cbn [contentTimer set_now now]. rewrite Hc.
  destruct (N.leb_spec (deadline t) (now w + ms)); [|lia].
  unfold fire_title, localStorage_setItem.
  cbn [titleTimer set_setItems set_localStorage set_contentTimer set_now].
  now rewrite Ht.
Qed.

Lemma typed_then_gap (text : string) (gap : N) (w : World) :
  is_Some (postContent w) -> titleTimer w = None ->
  JS.trim text <> EmptyString -> (gap < CONFIG.AUTO_SAVE_DELAY)%N ->
  let w' := step (Elapse gap) (step (TypeContent text) w) in
  is_Some (postContent w') /\ no_save_due w'
  /\ setItems w' = setItems w /\ localStorage w' = localStorage w.
Proof.
  intros Hfield Htitle Htext Hgap.
  destruct (typed_content text w Hfield Htext)
    as ([k Hc] & Hp & Hn & Ht & Hs & Hl).
  set (w1 := step (TypeContent text) w) in *.
  cbv zeta. rewrite Htitle in Ht.
  rewrite (elapse_idle w1 _ gap Hc Ht) by (cbn [deadline]; lia).
  unfold no_save_due. cbn [postContent titleTimer contentTimer set_now now
                           setItems localStorage].
  rewrite Hp, Ht, Hc, Hs, Hl. cbn [deadline].
  repeat split; [now exists text | lia].
Qed.

Lemma burst_saves_nothing (typed : list (string * N)) :
  forall w : World,
    is_Some (postContent w) -> titleTimer w = None ->
    Forall (fun p => JS.trim (fst p) <> EmptyString
                     /\ (snd p < CONFIG.AUTO_SAVE_DELAY)%N) typed ->
    let w' := run (burst typed) w in
    is_Some (postContent w') /\ titleTimer w' = None
    /\ setItems w' = setItems w /\ localStorage w' = localStorage w.
Proof.
  induction typed as [|[text gap] typed IH]; intros w Hfield Htitle Hall.
  - cbn. auto.
  - inversion Hall as [|p l [Htext Hgap] Hrest]; subst. cbn [fst snd] in *.
    destruct (typed_then_gap text gap w Hfield Htitle Htext Hgap)
      as (Hf1 & [Ht1 _] & Hs1 & Hl1).
    cbv zeta.
    change (run (burst ((text, gap) :: typed)) w)
      with (run (burst typed)
              (step (Elapse gap) (step (TypeContent text) w))).
    destruct (IH _ Hf1 Ht1 Hrest) as (Hf & Ht & Hs & Hl).
    rewrite Hs, Hl, Hs1, Hl1. repeat split; assumption.
Qed.

(** X17. Debouncing of the auto-save: while the user keeps typing text
    that is not blank with less than [AUTO_SAVE_DELAY] between two
    edits, nothing is written; once the typing stops for that long,
    exactly one draft is written, and it holds the last text. *)
Theorem debounce_saves_last_text_once (typed : list (string * N))
    (text : string) (ms : N) (w : World) :
  is_Some (postContent w) ->
  titleTimer w = None ->
  Forall (fun p => JS.trim (fst p) <> EmptyString
                   /\ (snd p < CONFIG.AUTO_SAVE_DELAY)%N) typed ->
  JS.trim text <> EmptyString ->
  (CONFIG.AUTO_SAVE_DELAY <= ms)%N ->
  setItems (run (burst typed ++ [TypeContent text]) w) = setItems w
  /\ (let w' := run (burst typed ++ [TypeContent text; Elapse ms]) w in
      setItems w' = setItems w ++ [(draft_post_content, text)]
      /\ localStorage w' = <[draft_post_content := text]> (localStorage w)
      /\ contentTimer w' = None).
Proof.
  intros Hfield Htitle Hall Htext Hms.
  destruct (burst_saves_nothing typed w Hfield Htitle Hall)
    as (Hf & Ht & Hs & Hl).
  set (w0 := run (burst typed) w) in *.
  destruct (typed_content text w0 Hf Htext)
    as (Hc1 & Hp1 & Hn1 & Ht1 & Hs1 & Hl1).
  split.
  - rewrite run_snoc. fold w0. now rewrite Hs1.
  - cbv zeta.
    change [TypeContent text; Elapse ms]
      with ([TypeContent text] ++ [Elapse ms]).
    rewrite app_assoc, !run_snoc. fold w0.
    set (w1 := step (TypeContent text) w0) in *.
    destruct Hc1 as [k Hc1]. rewrite Ht in Ht1.
    rewrite (elapse_due_alone w1 _ ms Hc1 Ht1) by (cbn [deadline]; lia).
    unfold localStorage_setItem.
    cbn [setItems localStorage contentTimer set_setItems set_localStorage
         set_contentTimer set_now saved_arg].
    now rewrite Hs1, Hl1, Hs, Hl.
Qed.

End AutoSaveMoreFacts.

(** ** PerformanceUtils.throttle *)

Section ThrottleFacts.

Import Throttle.

Lemma spaced_snoc (delay t : N) (arg : string) (log : list (N * string)) :
  spaced delay log -> Forall (fun c => (fst c + delay <= t)%N) log ->
  spaced delay (log ++ [(t, arg)]).
Proof.
  induction log as [|[t1 a1] log IH]; intros Hs Hall.
  - cbn. auto.
  - inversion Hall as [|c l Hc Hrest]; subst. cbn [fst] in Hc.
    destruct Hs as [Hhead Htail].
    change (((t1, a1) :: log) ++ [(t, arg)])
      with ((t1, a1) :: (log ++ [(t, arg)])).
    cbn [spaced]. split; [|now apply IH].
    destruct log as [|[t2 a2] log]; [exact Hc | exact Hhead].
Qed.

(** What holds of the closure at any time: the log is spaced, and the
    flag is set only while the window of the last call that went
    through is open. *)
Lemma throttle_invariant (delay : N) (evs : list Event) :
  forall st : State,
    spaced delay (invoked st) ->
    (if isThrottled st
     then exists t arg rest,
            invoked st = rest ++ [(t, arg)]
            /\ reset_at st = Some (t + delay)%N
            /\ Forall (fun c => (fst c + delay <= t)%N) rest
            /\ (0 < delay -> clock st < t + delay)%N
     else Forall (fun c => (fst c + delay <= clock st)%N) (invoked st)) ->
    let st' := run delay evs st in
    spaced delay (invoked st')
    /\ (if isThrottled st'
        then exists t arg rest,
               invoked st' = rest ++ [(t, arg)]
               /\ reset_at st' = Some (t + delay)%N
               /\ Forall (fun c => (fst c + delay <= t)%N) rest
               /\ (0 < delay -> clock st' < t + delay)%N
        else Forall (fun c => (fst c + delay <= clock st')%N) (invoked st')).
Proof.
  induction evs as [|ev evs IH]; intros st Hs Hflag; [now split|].
  cbv zeta. change (run delay (ev :: evs) st)
    with (run delay evs (step delay ev st)).
  destruct ev as [arg|ms]; cbn [step].
  - unfold call. destruct (isThrottled st) eqn:Hth; cbn [negb].
    + apply IH; [exact Hs | now rewrite Hth].
    + apply IH; cbn [invoked isThrottled reset_at clock].
      * now apply spaced_snoc.
      * exists (clock st), arg, (invoked st). repeat split; [exact Hflag | lia].
  - unfold elapse. destruct (isThrottled st) eqn:Hth.
    + destruct Hflag as (t & arg & rest & Hlog & Hreset & Hrest & Hclock).
      rewrite Hreset.
      destruct (N.leb_spec (t + delay) (clock st + ms)) as [Hdue|Hnot].
      * apply IH; cbn [invoked isThrottled reset_at clock]; [exact Hs|].
        rewrite Hlog. apply Forall_app. split.
        -- eapply List.Forall_impl; [|exact Hrest]. cbn. intros c Hc. lia.
        -- constructor; [cbn; lia | constructor].
      * apply IH; cbn [invoked isThrottled reset_at clock]; [exact Hs|].
        exists t, arg, rest. repeat split; try assumption. intros _; exact Hnot.
    + assert (Hlater : Forall (fun c => (fst c + delay <= clock st + ms)%N)
                         (invoked st))
        by (eapply List.Forall_impl; [|exact Hflag]; cbn; intros c Hc; lia).
      destruct (reset_at st) as [d|].
      * destruct (N.leb_spec d (clock st + ms));
          apply IH; cbn [invoked isThrottled reset_at clock]; assumption.
      * apply IH; cbn [invoked isThrottled reset_at clock]; assumption.
Qed.

(** X18. Whatever the calls and however time passes, two calls that a
    throttled function lets through are at least [delay] apart. *)
Theorem throttle_spacing (delay t0 : N) (evs : list Event) :
  spaced delay (invoked (run delay evs (initial t0))).
Proof.
  apply (throttle_invariant delay evs (initial t0)); cbn; auto.
Qed.

(** X19. With a positive delay, a call made when the last call that
    went through lies [delay] or more in the past, or when there was
    none, goes through with its own argument. *)
Theorem throttle_passes_after_window (delay t0 : N) (evs : list Event)
    (arg : string) :
  (0 < delay)%N ->
  let st := run delay evs (initial t0) in
  Forall (fun c => (fst c + delay <= clock st)%N) (invoked st) ->
  invoked (call delay arg st) = invoked st ++ [(clock st, arg)].
Proof.
  intros Hpos st Hpast.
  destruct (throttle_invariant delay evs (initial t0)) as [_ Hflag];
    [exact I | constructor |].
  fold st in Hflag. unfold call.
  destruct (isThrottled st); [|reflexivity].
  destruct Hflag as (t & a & rest & Hlog & _ & _ & Hclock).
  rewrite Hlog in Hpast. apply Forall_app in Hpast as [_ Hlast].
  inversion Hlast as [|c l Hc _]; subst. cbn [fst] in Hc.
  specialize (Hclock Hpos). lia.
Qed.

End ThrottleFacts.

(** ** PostManager.insertMarkdown *)

Section EditorFacts.

Import Editor.

Lemma normalize_newlines_plain (s : Text) :
  List.Forall (fun c => c <> 13%N) s -> normalize_newlines s = s.
Proof.
  induction 1 as [|c s Hc _ IH]; [reflexivity|].
  cbn [normalize_newlines].
  destruct (N.eqb_spec c 13); [contradiction | now rewrite IH].
Qed.

(** X20. [insertMarkdown] on a text area whose text is [pre], the
    selection [sel] and [post], counted in UTF-16 code units, with no
    carriage return in the text and the markers: the selection is
    wrapped between the two markers and the text around it is kept;
    the text area takes the focus; and the caret goes behind the
    closing marker, or, when nothing was selected, between the two
    markers. *)
Theorem insertMarkdown_wraps_selection (before after pre sel post : Text)
    (ta : Textarea) :
  ta_value ta = pre ++ sel ++ post ->
  selectionStart ta = length pre ->
  selectionEnd ta = (length pre + length sel)%nat ->
  List.Forall (fun c => c <> 13%N) (before ++ after ++ ta_value ta) ->
  let caret :=
    match sel with
    | [] => (length pre + length before)%nat
    | _ => (length pre + length before + length sel + length after)%nat
    end in
  insertMarkdown before after (Some ta)
  = Some (mkTextarea (pre ++ before ++ sel ++ after ++ post)
            caret caret true).
Proof.
  intros Hv Hs He Hplain caret. unfold insertMarkdown.
  rewrite Hv in Hplain |- *. rewrite Hs, He. unfold slice, slice_from.
  replace (length pre + length sel - length pre)%nat
    with (length sel) by lia.
  rewrite Nat.sub_0_r, drop_0.
  rewrite drop_app_length, !take_app_length.
  rewrite <- (length_app pre sel), (app_assoc pre sel post).
  rewrite (drop_app_length (pre ++ sel) post).
  rewrite normalize_newlines_plain.
  2:{ rewrite !List.Forall_app in Hplain |- *. tauto. }
  unfold setSelectionRange. cbn [ta_value focused].
  rewrite <- !app_assoc. 
  assert (Hlen : length (pre ++ before ++ sel ++ after ++ post)
                 = (length pre + length before + length sel + length after
                    + length post)%nat)
    by (rewrite !length_app; lia).
  rewrite Hlen. subst caret.
  destruct sel as [|c sel]; cbn [truthy];
    rewrite ?length_app; cbn [length];
    (do 2 f_equal; lia).
Qed.

End EditorFacts.

(** ** CookieManager.getLikes *)

Section CookieLikesFacts.

Import CookieLikes.

Variable random : Z -> Q.

Lemma likes_name_ok (postId : N) : cookie_name_ok (likes_name postId) = true.
Proof.
  unfold cookie_name_ok, likes_name, JS.show.
  rewrite !free_of_append, show_free_semicolon, show_free_equals.
  reflexivity.
Qed.

Lemma likes_name_not_liked (j postId : N) : liked_name postId <> likes_name j.
Proof. unfold liked_name, likes_name. cbn. discriminate. Qed.

Lemma digits_prefix_numeral (d : Decimal.uint) :
  digits_prefix (NilEmpty.string_of_uint d) = NilEmpty.string_of_uint d.
Proof.
  induction d; cbn [NilEmpty.string_of_uint digits_prefix];
    [reflexivity | ..];
    (change (is_digit _) with true; cbv iota; now rewrite IHd).
Qed.

(** A character of the ASCII range that is not white space stops
    [trimStart]. *)
Lemma trimStart_ascii (a : ascii) (s : string) :
  (nat_of_ascii a < 128)%nat -> JS.is_space a = false ->
  JS.trimStart (String a s) = String a s.
Proof.
  intros Ha Hs. cbn [JS.trimStart]. rewrite Hs.
  assert (E : forall k, (128 <= k)%nat -> (nat_of_ascii a =? k)%nat = false)
    by (intros k Hk; apply Nat.eqb_neq; lia).
  destruct s as [|b [|c s]]; [reflexivity | |];
    unfold JS.is_space2, JS.is_space3; cbv zeta; rewrite !E by lia;
    reflexivity.
Qed.

(** [parseInt] reads a decimal numeral back. *)
Lemma parseInt_numeral (d : Decimal.uint) :
  d <> Decimal.Nil ->
  parseInt (NilEmpty.string_of_uint d)
  = of_digits false (Z.of_N (N.of_uint d)).
Proof.
  intros Hd. pose proof (digits_prefix_numeral d) as Hp.
  pose proof (NilEmpty.usu d) as Hu.
  unfold parseInt.
  destruct d; [now contradiction Hd | ..];
    cbn [NilEmpty.string_of_uint] in *;
    (rewrite trimStart_ascii
       by (try reflexivity; apply Nat.ltb_lt; reflexivity);
     change (Ascii.eqb _ "-") with false; change (Ascii.eqb _ "+") with false;
     cbv iota; rewrite Hp, Hu; reflexivity).
Qed.

(** X21. [getLikes] reads the count back that [CookieManager.set]
    stored under the name of the post with a lifetime that is not
    zero, for every count a double holds exactly; and a post without
    such a cookie has zero likes. *)
Theorem getLikes_round_trip (postId : N) (w : World) :
  wf_jar (cookies w) ->
  (jar_lookup (likes_name postId) (cookies w) = None ->
   getLikes postId w = Exact 0)
  /\ (forall (n maxAge : N),
        (n <= 2 ^ 53)%N -> maxAge <> 0%N ->
        getLikes postId
          (CookieManager.set (likes_name postId) (JS.show n) maxAge w)
        = Exact (Z.of_N n)).
Proof.
  intros Hwf. split.
  - intros Hnone. unfold getLikes.
    rewrite get_spec by (auto using likes_name_ok). now rewrite Hnone.
  - intros n maxAge Hn Hage. unfold getLikes.
    assert (Hsemi : free_of ";" (JS.show n) = true)
      by exact (show_free_semicolon (N.to_uint n)).
    rewrite set_stores by (auto using likes_name_ok).
    rewrite get_spec;
      [| cbn [cookies set_cookies]; apply store_wf; auto using likes_name_ok
       | apply likes_name_ok].
    cbn [cookies set_cookies]. rewrite store_lookup, String.eqb_refl.
    cbn [option_map]. unfold JS.show.
    rewrite before_free_all by apply show_free_equals.
    assert (Hnn : N.to_uint n <> Decimal.Nil).
    { destruct n; [discriminate | apply DecimalPos.Unsigned.to_uint_nonnil]. }
    rewrite parseInt_numeral by exact Hnn.
    rewrite DecimalN.Unsigned.of_to. unfold of_digits.
    assert (Hle : (Z.of_N n <=? 2 ^ 53)%Z = true) by (apply Z.leb_le; lia).
    rewrite Hle.
    destruct (N.to_uint n) eqn:E; [now contradiction Hnn | ..]; reflexivity.
Qed.

(** X22. Liking never writes the count cookie: whatever a like does,
    [getLikes] answers afterwards what it answered before, for every
    post. *)
Theorem likePost_keeps_getLikes (postId j : N) (w : World) :
  wf_jar (cookies w) ->
  getLikes j (snd (PostManager.likePost random postId w)) = getLikes j w.
Proof.
  intros Hwf.
  pose (I := fun w0 : World =>
               wf_jar (cookies w0)
               /\ jar_lookup (likes_name j) (cookies w0)
                  = jar_lookup (likes_name j) (cookies w)).
  assert (HI : I (snd (PostManager.likePost random postId w))).
  { apply likePost_preserves; unfold I; auto.
    intros w0 s w' [Hwf0 Hl0] Hop.
    apply likeOperation_effect in Hop.
    destruct Hop as [Hliked | s w' _ _ Hc _ _ | w' newLikes d _ _ _ Hc _ _ _].
    - auto.
    - now rewrite Hc.
    - rewrite Hc. split.
      + apply store_wf; [apply liked_name_ok | reflexivity | exact Hwf0].
      + rewrite store_lookup.
        destruct (String.eqb_spec (liked_name postId) (likes_name j)) as [E|_];
          [now apply likes_name_not_liked in E | exact Hl0]. }
  destruct HI as [Hwf' Hl]. unfold getLikes.
  rewrite !get_spec by (auto using likes_name_ok). now rewrite Hl.
Qed.

End CookieLikesFacts.

(** ** ErrorHandler.init: going offline and coming back *)

Section ConnectivityFacts.

Import ErrorHandler.

(** X23. The two connectivity listeners undo each other: while the
    client is offline every error counts as retryable and is worded
    as the offline message, also one without a message; once it is
    back online, errors are classified and worded as before, and all
    that remains of the interruption are the two notifications. *)
Theorem offline_online_round_trip (w : World) (e : Error) (name : string) :
  isOnline w = true ->
  let off := ErrorHandlerInit.on_offline w in
  let back := ErrorHandlerInit.on_online off in
  isRetryableError off e = true
  /\ getUserFriendlyErrorMessage off e name = inr msg_offline
  /\ isRetryableError back e = isRetryableError w e
  /\ getUserFriendlyErrorMessage back e name
     = getUserFriendlyErrorMessage w e name
  /\ back
     = set_notifications
         (notifications w
          ++ [("📵 Connection Lost",
               "You are now offline. Changes will be saved when connection is restored.");
              ("📶 Connection Restored", "You are back online!")]) w.
Proof.
  intros Hon off back.
  unfold back, off, ErrorHandlerInit.on_online, ErrorHandlerInit.on_offline,
    NotificationManager.send, isRetryableError, getUserFriendlyErrorMessage.
  destruct w. cbn in Hon. subst. cbn. rewrite <- app_assoc.
  repeat split.
Qed.

End ConnectivityFacts.

(** ** Liking a post that is gone *)

Section LikeMissingFacts.

Import ErrorHandler.

Variable random : Z -> Q.

Lemma post_not_found_class (w : World) :
  isOnline w = true ->
  isRetryableError w (new_Error "Post not found") = false
  /\ getUserFriendlyErrorMessage w (new_Error "Post not found") "Like Post"
     = inr (msg_generic "Like Post").
Proof.
  intros Hon. unfold isRetryableError, getUserFriendlyErrorMessage.
  rewrite Hon. split; vm_compute; reflexivity.
Qed.

(** X24. While the client is online, a like of a post that the backend
    does not find (no error, no row) is given up at once: one select
    and no update are issued, the user gets the generic failure
    message, the result is [false], and neither the flag of the post
    nor the page changes. *)
Theorem likePost_missing_post (postId : N) (w : World) :
  isOnline w = true ->
  CookieManager.hasLiked postId w = false ->
  backend w (requests w ++ [SelectLikes postId]) = Answer None DNull ->
  let run := PostManager.likePost_run random postId w in
  fst (PostManager.likePost random postId w) = Returned false
  /\ attempts run = 1%nat
  /\ requests (world run) = requests w ++ [SelectLikes postId]
  /\ alerts (world run) = alerts w ++ ["❌ " +:+ msg_generic "Like Post"]
  /\ cookies (world run) = cookies w
  /\ logContainer (world run) = logContainer w.
Proof.
  intros Hon Hnot Hb run.
  set (e := new_Error "Post not found").
  set (w1 := set_requests (requests w ++ [SelectLikes postId]) w).
  assert (Hstep : timed (PostManager.likeOperation postId) "Like Post" w
                  = (Rejected e, w1)).
  { unfold timed, PostManager.likeOperation. rewrite Hnot. unfold remote.
    now rewrite Hb. }
  destruct (post_not_found_class w1 Hon) as [Hnr _].
  assert (Hinner : retryWithBackoff random
                     (timed (PostManager.likeOperation postId) "Like Post")
                     CONFIG.MAX_RETRIES "Like Post" w
                   = mkRun (Thrown (Some e)) w1 1 [e] []).
  { unfold retryWithBackoff. change (Z.to_nat CONFIG.MAX_RETRIES) with 3%nat.
    rewrite (retry_loop_stop random _ CONFIG.MAX_RETRIES 2 1 None w O [] [] e
               w1 Hstep); [reflexivity | now right]. }
  set (logged := logError "Safe Operation Error" "Like Post" (message e) w1).
  assert (Hlogged : isOnline logged = true) by exact Hon.
  destruct (post_not_found_class logged Hlogged) as [_ Hmsg].
  assert (Hrun : run
                 = mkRun (Returned None)
                     (alert ("❌ " +:+ msg_generic "Like Post") logged) 1 [e] []).
  { unfold run, PostManager.likePost_run, safeOperation. rewrite Hinner.
    cbn [outcome world]. fold e logged. fold e in Hmsg. now rewrite Hmsg. }
  unfold PostManager.likePost. fold run. rewrite Hrun.
  unfold not_null. cbn [outcome world attempts fst]. repeat split.
Qed.

End LikeMissingFacts.

(** ** Worked examples of the further properties *)

Lemma World0_wf : wf_jar (cookies World0).
Proof. constructor. Qed.

Lemma cookie_set_get_witness :
  wf_jar (cookies World0)
  /\ CookieManager.get "theme" (CookieManager.set "theme" "dark" 60 World0)
     = Some "dark".
Proof.
  destruct (cookie_set_get "theme" "dark" 60 World0 World0_wf eq_refl eq_refl
              eq_refl eq_refl eq_refl ltac:(cbn; lia)) as [_ [H _]].
  split; [exact World0_wf | exact H].
Defined.

(** A cookie named [unliked_7] makes [exists] answer for [liked_7]. *)
Lemma exists_matches_name_suffix_witness :
  let w := set_cookies [("unliked_7", "true")] World0 in
  CookieManager.exists_ "liked_7" w = true
  /\ CookieManager.get "liked_7" w = None.
Proof.
  intros w.
  assert (Hwf : wf_jar (cookies w)) by (repeat constructor).
  destruct (exists_matches_name_suffix "un" "liked_7" "true" w Hwf
              (or_introl eq_refl)) as [H1 H2].
  split; [exact H1 | exact (H2 eq_refl eq_refl)].
Defined.

Lemma loadOperation_flaky :
  FailsRetryable (App.loadOperation marked_stub date_stub false) World_flaky
    [mkError None (Some 503); mkError None (Some 503)]
    (set_requests [SelectAllPosts; SelectAllPosts] World_flaky).
Proof.
  apply FailsRetryable_cons
    with (w1 := set_requests [SelectAllPosts] World_flaky);
    [reflexivity | reflexivity |].
  apply FailsRetryable_cons
    with (w1 := set_requests [SelectAllPosts; SelectAllPosts] World_flaky);
    [reflexivity | reflexivity |].
  constructor.
Qed.

Lemma retryWithBackoff_after_failures_witness :
  let run :=
    ErrorHandler.retryWithBackoff random_half
      (App.loadOperation marked_stub date_stub false) 3 "Load Posts"
      World_flaky in
  outcome run = Returned [row_old; row_new] /\ attempts run = 3%nat.
Proof.
  intros run.
  destruct (retryWithBackoff_after_failures random_half
              (App.loadOperation marked_stub date_stub false) 3 "Load Posts"
              World_flaky _ _ loadOperation_flaky ltac:(cbn; lia))
    as [Hres _].
  unfold run. rewrite (Hres _ _ eq_refl). split; reflexivity.
Defined.

Lemma safeOperation_settles_witness :
  (forall k, (0 <= random_half k)%Q /\ (random_half k < 1)%Q)
  /\ outcome (ErrorHandler.safeOperation random_half (failing_with 503)
                "Operation" true World0)
     <> NeverSettles.
Proof.
  destruct (safeOperation_settles random_half random_half_range
              (failing_with 503) "Operation" true World0) as [H _].
  split; [exact random_half_range | exact H].
Defined.

Lemma failing_offline (w : World) :
  isOnline w = false ->
  exists s w1,
    failing_with 400 w = (s, w1) /\ (forall r, s <> Resolved r)
    /\ isOnline w1 = false.
Proof.
  intros Hoff. exists (Rejected (mkError None (Some 400))), w.
  split; [reflexivity|]. split; [discriminate | exact Hoff].
Qed.

(** Offline, also a failure with status 400 is tried three times. *)
Lemma offline_failure_retried_and_reported_witness :
  let run :=
    ErrorHandler.safeOperation random_half (failing_with 400) "Operation" true
      (ErrorHandlerInit.on_offline World0) in
  outcome run = Returned None /\ attempts run = 3%nat.
Proof.
  intros run.
  destruct (offline_failure_retried_and_reported random_half (failing_with 400)
              "Operation" true World0 failing_offline) as [Ho [Ha _]].
  split; [exact Ho | exact Ha].
Defined.

Lemma hung_operation_not_retried_witness :
  let run :=
    ErrorHandler.safeOperation random_half hanging "Load Posts" true World0 in
  In "Load Posts" operation_names
  /\ attempts run = 1%nat
  /\ alerts (world run) = ["❌ Load Posts failed. Please try again."].
Proof.
  intros run.
  assert (Hin : In "Load Posts" operation_names)
    by (repeat (first [left; reflexivity | right])).
  destruct (hung_operation_not_retried random_half hanging "Load Posts" World0
              World0 Hin eq_refl eq_refl) as [_ [Ha [_ Hal]]].
  split; [exact Hin|]. split; [exact Ha | exact Hal].
Defined.

Lemma worded_failures_are_retryable_witness :
  JS.includes "gateway timeout" "timeout" = true
  /\ ErrorHandler.isRetryableError World0
       (mkError (Some "gateway timeout") None) = true.
Proof.
  split; [reflexivity|].
  exact (worded_failures_are_retryable World0
           (mkError (Some "gateway timeout") None) "gateway timeout" eq_refl
           (or_introl eq_refl)).
Defined.


Lemma submitPost_success_witness :
  let result :=
    App.submitPost random_half marked_stub date_stub 300 World_filled in
  fst result = Returned true
  /\ requests (snd result) = [InsertPost "A title" "Body text" 0]
  /\ option_map (map dataset_postId) (logContainer (snd result)) = Some [1%N].
Proof.
  intros result.
  destruct (submitPost_success random_half marked_stub date_stub 300
              World_filled " A title " "Body text" row_old [row_new] [] eq_refl eq_refl
              ltac:(vm_compute; discriminate) ltac:(vm_compute; discriminate)
              eq_refl eq_refl)
    as (Hres & Hreq & _ & _ & _ & _ & _ & Hlist & _).
  fold result in Hres, Hreq, Hlist.
  split; [exact Hres|]. split; [exact Hreq|]. rewrite Hlist. reflexivity.
Defined.

Lemma submitPost_without_returned_row_witness :
  let w := set_backend (fun _ => Answer None (DRows [])) World_filled in
  let result := App.submitPost random_half marked_stub date_stub 300 w in
  fst result = Returned false
  /\ requests (snd result) = [InsertPost "A title" "Body text" 0].
Proof.
  intros w result.
  destruct (submitPost_without_returned_row random_half marked_stub date_stub
              300 w " A title " "Body text" eq_refl eq_refl
              ltac:(vm_compute; discriminate) ltac:(vm_compute; discriminate)
              eq_refl eq_refl)
    as (Hres & Hreq & _).
  fold result in Hres, Hreq. split; [exact Hres | exact Hreq].
Defined.

Lemma loadPosts_after_two_failures_witness :
  let run :=
    App.loadPosts_run random_half marked_stub date_stub false World_flaky in
  attempts run = 3%nat
  /\ length (delays run) = 2%nat
  /\ option_map (map dataset_postId) (logContainer (world run))
     = Some [2; 1]%N.
Proof.
  intros run.
  destruct (loadPosts_after_two_failures random_half marked_stub date_stub
              false World_flaky (mkError None (Some 503))
              (mkError None (Some 503)) DNull DNull [row_old; row_new] []
              eq_refl eq_refl eq_refl eq_refl eq_refl eq_refl)
    as (_ & Ha & Hd & _ & _ & Hlist).
  fold run in Ha, Hd, Hlist.
  split; [exact Ha|]. split; [now rewrite Hd|]. rewrite Hlist. reflexivity.
Defined.

Lemma updateLikeUI_first_counter_witness :
  option_map (map likeCountText)
    (logContainer (PostManager.updateLikeUI 1 3 World_shown))
  = Some ["3"].
Proof.
  destruct (updateLikeUI_first_counter 1 3 World_shown _ eq_refl) as [_ H].
  rewrite (H [] _ [] eq_refl (List.Forall_nil _) eq_refl). reflexivity.
Defined.

Lemma likePost_success_witness :
  let run := PostManager.likePost_run random_half 1 World_shown in
  CookieManager.hasLiked 1 World_shown = false
  /\ requests (world run) = [SelectLikes 1; UpdateLikes 1 3]
  /\ CookieManager.hasLiked 1 (world run) = true.
Proof.
  intros run.
  assert (Hwf : wf_jar (cookies World_shown)) by constructor.
  destruct (likePost_success random_half 1 World_shown row_old (DRow row_old)
              Hwf eq_refl eq_refl eq_refl)
    as (_ & _ & Hreq & _ & Hliked & _).
  fold run in Hreq, Hliked.
  split; [reflexivity|]. split; [exact Hreq | exact Hliked].
Defined.

Lemma debounce_saves_last_text_once_witness :
  let w' :=
    App.run (burst [("a", 500%N); ("ab", 1500%N)]
             ++ [App.TypeContent "abc"; App.Elapse 2000]) World0 in
  setItems w' = [(App.draft_post_content, "abc")].
Proof.
  intros w'.
  assert (Hall : Forall (fun p => JS.trim (fst p) <> EmptyString
                                  /\ (snd p < CONFIG.AUTO_SAVE_DELAY)%N)
                   [("a", 500%N); ("ab", 1500%N)])
    by (repeat constructor; discriminate).
  destruct (debounce_saves_last_text_once [("a", 500%N); ("ab", 1500%N)] "abc"
              2000 World0 ltac:(eexists; reflexivity) eq_refl Hall
              ltac:(discriminate) ltac:(vm_compute; discriminate))
    as [_ [H _]].
  exact H.
Defined.

Lemma throttle_passes_after_window_witness :
  Throttle.invoked
    (Throttle.call 1000 "b"
       (Throttle.run 1000 [Throttle.Call "a"; Throttle.Elapse 1000]
          (Throttle.initial 0)))
  = [(0%N, "a"); (1000%N, "b")].
Proof.
  rewrite (throttle_passes_after_window 1000 0
             [Throttle.Call "a"; Throttle.Elapse 1000] "b" eq_refl).
  - reflexivity.
  - repeat constructor. cbn. discriminate.
Defined.

(** Making the selected word bold. *)
Lemma insertMarkdown_wraps_selection_witness :
  Editor.insertMarkdown [42; 42]%N [42; 42]%N
    (Some (Editor.mkTextarea [233; 32; 104; 105]%N 2 4 false))
  = Some (Editor.mkTextarea [233; 32; 42; 42; 104; 105; 42; 42]%N 8 8 true).
Proof.
  apply (insertMarkdown_wraps_selection [42; 42]%N [42; 42]%N [233; 32]%N
           [104; 105]%N [] (Editor.mkTextarea [233; 32; 104; 105]%N 2 4 false));
    [reflexivity | reflexivity | reflexivity |].
  repeat constructor; discriminate.
Defined.

Lemma getLikes_round_trip_witness :
  CookieLikes.getLikes 7 World0 = CookieLikes.Exact 0
  /\ CookieLikes.getLikes 7
       (CookieManager.set (CookieLikes.likes_name 7) (JS.show 12) 60 World0)
     = CookieLikes.Exact 12.
Proof.
  destruct (getLikes_round_trip 7 World0 World0_wf) as [H0 H].
  split; [exact (H0 eq_refl)|].
  exact (H 12%N 60%N ltac:(vm_compute; discriminate) ltac:(discriminate)).
Defined.

Lemma likePost_keeps_getLikes_witness :
  CookieLikes.getLikes 7 (snd (PostManager.likePost random_half 7 World0))
  = CookieLikes.getLikes 7 World0.
Proof. exact (likePost_keeps_getLikes random_half 7 7 World0 World0_wf). Defined.

Lemma offline_online_round_trip_witness :
  isOnline World0 = true
  /\ length
       (notifications
          (ErrorHandlerInit.on_online (ErrorHandlerInit.on_offline World0)))
     = 2%nat.
Proof.
  split; [reflexivity|].
  destruct (offline_online_round_trip World0 (mkError None (Some 400))
              "Load Posts" eq_refl) as (_ & _ & _ & _ & H).
  rewrite H. reflexivity.
Defined.

Lemma retryWithBackoff_bounds_witness :
  let run :=
    ErrorHandler.retryWithBackoff random_half (failing_with 503) 3 "Operation"
      World0 in
  (1 <= attempts run <= 3)%nat.
Proof.
  intros run.
  destruct (retryWithBackoff_bounds random_half (failing_with 503) 3 "Operation"
              World0) as (Hle & _ & _ & Hge & _).
  fold run in Hle, Hge. split; [apply Hge; lia | exact Hle].
Defined.

(** A submission with an empty title fails and keeps local storage. *)
Lemma failed_submission_keeps_drafts_witness :
  let result := App.submitPost random_half marked_stub date_stub 300 World0 in
  fst result <> Returned true
  /\ localStorage (snd result)
     = localStorage (App.step (App.Elapse 300) World0).
Proof.
  intros result.
  assert (Hfail : fst result <> Returned true) by (vm_compute; discriminate).
  destruct (failed_submission_keeps_drafts random_half marked_stub date_stub
              300 World0) as [H _].
  split; [exact Hfail | exact (proj1 (H Hfail))].
Defined.

Lemma likePost_missing_post_witness :
  let w := set_backend (fun _ => Answer None DNull) World0 in
  let run := PostManager.likePost_run random_half 7 w in
  attempts run = 1%nat
  /\ requests (world run) = [SelectLikes 7]
  /\ alerts (world run) = ["❌ Like Post failed. Please try again."].
Proof.
  intros w run.
  destruct (likePost_missing_post random_half 7 w eq_refl eq_refl eq_refl)
    as (_ & Ha & Hreq & Hal & _).
  fold run in Ha, Hreq, Hal.
  split; [exact Ha|]. split; [exact Hreq | exact Hal].
Defined.
